(** * Red-light violation pipeline: the per-frame decision core

    A shallow embedding of [controllers/video_controller_finale.py]
    (the label normaliser, and the body of the frame loop of
    [VideoController._run] together with [_cleanup_old_vehicle_data],
    in the first and in the last of the three classes of that name,
    the opening of the source and the reading loop around that body)
    and of the pure parts of the line locator of
    [utils/crosswalk_backup.py], followed by the properties of it that
    the specification states and by further properties of the code.

    Conventions of the embedding.
    - Pixel coordinates, confidences and thresholds are Python floats in
      the source; they are modelled as exact rationals ([Q]).  Every
      decision the frame loop takes on them is a comparison of sums,
      halves and absolute differences, which [Q] computes exactly.  The
      overlap ratio of the matching step and the rows of the line
      locator also multiply and divide: they are exact here, the
      rounding of the floats is not modelled.
    - The two dictionaries [vehicle_history] and [vehicle_statuses] are
      finite maps from track IDs to values ([gmap Z _]); the object
      state that the frame loop mutates is passed explicitly, as a
      [controller] record.
    - The external collaborators (detector, tracker, colour classifier,
      line locator) are black boxes: what they return in a frame is part
      of that frame's input.  The tracker object exists (it is created
      in [__init__]) and returns a list; a classifier or a locator that
      raises is an absent answer.
    - Drawing, timing, signals to the user interface and console output
      are left out; of a frame's outputs, the [tracked_vehicles] list
      and the emitted violation records are kept. *)

From Stdlib Require Import Ascii QArith Qabs Qround Lqa.
From stdpp Require Import gmap strings list.

#[local] Set Warnings "-clear-no-such-hyp".

Local Open Scope Z_scope.

(** ** Label normaliser *)

Module Normalizer.

(** [str.lower] on one character, for the ASCII letters. *)
Definition lower_ascii (c : ascii) : ascii :=
  let n := nat_of_ascii c in
  if ((65 <=? n)%nat && (n <=? 90)%nat)%bool then ascii_of_nat (n + 32) else c.

Fixpoint lower (s : string) : string :=
  match s with
  | EmptyString => EmptyString
  | String c s' => String (lower_ascii c) (lower s')
  end.

(** Python's [x in [a; b; ...]] on strings. *)
Definition str_in (x : string) (l : list string) : bool :=
  existsb (String.eqb x) l.

Section WithLower.
(** The normaliser over an arbitrary case-folding function, so that the
    results below do not depend on how [str.lower] treats characters
    outside ASCII. *)
Variable lower_fn : string -> string.

(** [normalize_class_name]: [None] stands for Python's [None]. *)
Definition normalize_with (class_name : option string) : string :=
  match class_name with
  | None => ""
  | Some name =>
      if String.eqb name "" then ""
      else
        let name_lower := lower_fn name in
        if str_in name_lower
             ["traffic light"; "trafficlight"; "traffic_light"; "tl"; "signal"]
        then "traffic light"
        else if str_in name_lower ["car"; "auto"; "automobile"] then "car"
        else if str_in name_lower ["truck"] then "truck"
        else if str_in name_lower ["bus"] then "bus"
        else if str_in name_lower ["motorcycle"; "scooter"; "motorbike"; "bike"]
        then "motorcycle"
        else if str_in name_lower ["person"; "pedestrian"; "human"] then "person"
        else name
  end.
End WithLower.

Definition normalize_class_name : option string -> string :=
  normalize_with lower.

(** The names the normaliser maps to. *)
Definition canonical_names : list string :=
  ["traffic light"; "car"; "truck"; "bus"; "motorcycle"; "person"].

Definition is_traffic_light (class_name : option string) : bool :=
  match class_name with
  | None => false
  | Some name =>
      if String.eqb name "" then false
      else String.eqb (normalize_class_name (Some name)) "traffic light"
  end.

End Normalizer.

(** ** Numbers *)

Definition Qltb (x y : Q) : bool := negb (Qle_bool y x).
Definition Qleb (x y : Q) : bool := Qle_bool x y.

(** ** Configuration

    What is fixed when a controller is created: the thresholds that
    [VideoController.__init__] sets, and the class the controller is an
    instance of.  The file holds three [class VideoController]
    statements, each of which binds the name again.  The frame loop
    [_run] of the first and of the last of them are the same statement
    for statement, console output and the statistics sent to the
    interface apart; but the first class defines the method
    [_cleanup_old_vehicle_data] that the loop calls, and the last one,
    which is the class that a client of the module gets, does not.
    [defines_cleanup] tells which of the two the controller is. *)

Record config := {
  movement_threshold : Q;
  min_confidence_threshold : Q;
  position_history_size : nat;
  crossing_check_window : nat;
  max_position_jump : Q;
  defines_cleanup : bool
}.

(** The controller that the module gives: the thresholds of [__init__],
    in the class that is bound last. *)
Definition default_config : config := {|
  movement_threshold := 3 # 2;
  min_confidence_threshold := 3 # 10;
  position_history_size := 20;
  crossing_check_window := 8;
  max_position_jump := 50 # 1;
  defines_cleanup := false
|}.

(** The same thresholds in the first of the three classes. *)
Definition first_class_config : config := {|
  movement_threshold := 3 # 2;
  min_confidence_threshold := 3 # 10;
  position_history_size := 20;
  crossing_check_window := 8;
  max_position_jump := 50 # 1;
  defines_cleanup := true
|}.

(** ** Position history and the crossing-window scan *)

(** [deque(maxlen=n).append(x)]: the oldest entry is evicted when full. *)
Definition deque_append {A} (maxlen : nat) (l : list A) (x : A) : list A :=
  let l' := l ++ [x] in
  if (maxlen <? length l')%nat then tail l' else l'.

(** [l[-k]] for [k >= 1]; [None] is Python's [IndexError]. *)
Definition neg_index {A} (l : list A) (k : nat) : option A :=
  if ((1 <=? k)%nat && (k <=? length l)%nat)%bool
  then l !! (length l - k)%nat
  else None.

Record crossing := {
  frames_ago : nat;
  prev_y : Q;
  curr_y : Q;
  window_checked : nat
}.

(** The test of one frame pair:
    [prev_y < violation_line_y and curr_y >= violation_line_y]. *)
Definition crosses (line prev curr : Q) : bool :=
  (Qltb prev line && Qleb line curr)%bool.

(** The loop [for i in range(1, window_size)], entered at index [i] with
    [n] iterations left; it breaks at the first pair that crosses. *)
Fixpoint scan_from (h : list Q) (line : Q) (window_size i n : nat)
  : option crossing :=
  match n with
  | O => None
  | S n' =>
      match neg_index h (S i), neg_index h i with
      | Some prev, Some curr =>
          if crosses line prev curr
          then Some {| frames_ago := i; prev_y := prev; curr_y := curr;
                       window_checked := window_size |}
          else scan_from h line window_size (S i) n'
      | _, _ => None
      end
  end.

Definition crossing_scan (cfg : config) (h : list Q) (line : Q)
  : option crossing :=
  if (2 <=? length h)%nat then
    let window_size := Nat.min (crossing_check_window cfg) (length h) in
    scan_from h line window_size 1 (window_size - 1)
  else None.

(** ** Data of one frame *)

Definition bbox : Type := Q * Q * Q * Q.

(** The colour classifier's result, a dictionary with the keys ['color']
    and ['confidence']. *)
Record light_info := {
  color : string;
  confidence : Q
}.

(** A detection dictionary.  The box is always there (the frame loop
    reads [det['bbox']] of a traffic light without a test); [class_id]
    is -1 when the key is absent; [traffic_light_color] is the colour
    sub-result the detection may already carry.  [classified] is what
    the external colour classifier ([detect_traffic_light_color], with
    its fallback [ensure_traffic_light_color]) returns on this box in
    this frame; [None] when it raises. *)
Record detection := {
  class_name : option string;
  class_id : Z;
  det_bbox : bbox;
  det_confidence : Q;
  traffic_light_color : option light_info;
  classified : option light_info
}.

(** A track as the tracker returns it; the box may be missing. *)
Record track := {
  track_id : Z;
  track_bbox : option bbox
}.

(** What one frame brings in: the frame size, the detections (after
    [model_manager.update_tracking]), what [vehicle_tracker.update]
    answers if it is called, and the [violation_line_y] that
    [detect_crosswalk_and_violation_line] answers if it is called
    ([None] also when it raises). *)
Record frame_input := {
  frame_w : Z;
  frame_h : Z;
  detections : list detection;
  tracker_output : list track;
  located_line : option Q
}.

(** ** Controller state *)

(** One entry of [vehicle_statuses]. *)
Record status := {
  recent_movement : list bool;
  violation_history : list bool;
  crossed_during_red : bool;
  last_position : option Q;
  suspicious_jumps : Z
}.

Definition new_status : status := {|
  recent_movement := [];
  violation_history := [];
  crossed_during_red := false;
  last_position := None;
  suspicious_jumps := 0
|}.

Definition set_recent_movement (v : list bool) (st : status) : status :=
  {| recent_movement := v; violation_history := violation_history st;
     crossed_during_red := crossed_during_red st;
     last_position := last_position st;
     suspicious_jumps := suspicious_jumps st |}.

Definition set_violation_history (v : list bool) (st : status) : status :=
  {| recent_movement := recent_movement st; violation_history := v;
     crossed_during_red := crossed_during_red st;
     last_position := last_position st;
     suspicious_jumps := suspicious_jumps st |}.

Definition set_crossed_during_red (v : bool) (st : status) : status :=
  {| recent_movement := recent_movement st;
     violation_history := violation_history st;
     crossed_during_red := v;
     last_position := last_position st;
     suspicious_jumps := suspicious_jumps st |}.

Definition set_last_position (v : option Q) (st : status) : status :=
  {| recent_movement := recent_movement st;
     violation_history := violation_history st;
     crossed_during_red := crossed_during_red st;
     last_position := v;
     suspicious_jumps := suspicious_jumps st |}.

Definition set_suspicious_jumps (v : Z) (st : status) : status :=
  {| recent_movement := recent_movement st;
     violation_history := violation_history st;
     crossed_during_red := crossed_during_red st;
     last_position := last_position st;
     suspicious_jumps := v |}.

Record controller := {
  vehicle_history : gmap Z (list Q);
  vehicle_statuses : gmap Z status;
  latest_traffic_light : light_info
}.

Definition initial_controller : controller := {|
  vehicle_history := ∅;
  vehicle_statuses := ∅;
  latest_traffic_light := {| color := "unknown"; confidence := 0 |}
|}.

(** An entry of the frame's [tracked_vehicles] list. *)
Record tracked := {
  tv_id : Z;
  tv_bbox : bbox;
  center_y : Q;
  is_moving : bool;
  is_violation : bool
}.

Definition set_is_violation (v : bool) (tv : tracked) : tracked :=
  {| tv_id := tv_id tv; tv_bbox := tv_bbox tv; center_y := center_y tv;
     is_moving := is_moving tv; is_violation := v |}.

(** [int(x)] on a float: truncation towards zero. *)
Definition Qtrunc (q : Q) : Z := Z.quot (Qnum q) (Zpos (Qden q)).

(** A Violation Record.  The timestamp and the frame image that the
    source attaches are left out. *)
Record violation := {
  v_track_id : Z;
  v_bbox : Z * Z * Z * Z;
  v_violation_type : string;
  v_line_position : Q;
  v_movement : crossing + Q * Q;
  v_crossing_window : nat;
  v_position_history : list Q
}.

(** ** Traffic lights seen in the frame *)

Definition has_traffic_lights (dets : list detection) : bool :=
  existsb (fun det => Normalizer.is_traffic_light (class_name det)) dets.

(** One pass of "for det in detections: if is_traffic_light(...)":
    the entries appended to [traffic_lights]. *)
Definition traffic_lights_pass (dets : list detection) : list (bbox * light_info) :=
  omap (fun det =>
          if Normalizer.is_traffic_light (class_name det)
          then option_map (fun li => (det_bbox det, li)) (traffic_light_color det)
          else None) dets.

(** Centre of the first traffic-light box, for the line locator. *)
Definition traffic_light_position (dets : list detection) : option (Z * Z) :=
  match List.find (fun det => Normalizer.is_traffic_light (class_name det)) dets with
  | Some det =>
      let '(x1, y1, x2, y2) := det_bbox det in
      Some (Qfloor ((x1 + x2) / 2), Qfloor ((y1 + y2) / 2))
  | None => None
  end.

(** The frame's [violation_line_y]: the locator runs only when a traffic
    light was detected. *)
Definition violation_line_y (f : frame_input) : option Q :=
  if has_traffic_lights (detections f) then
    match traffic_light_position (detections f) with
    | Some _ => located_line f
    | None => None
    end
  else None.

(** ** Tracking pass *)

Definition vehicle_classes : list string :=
  ["car"; "truck"; "bus"; "motorcycle"; "van"; "bicycle"].

Definition class_in (det : detection) (classes : list string) : bool :=
  match class_name det with
  | Some name => Normalizer.str_in name classes
  | None => false
  end.

(** The filter that builds [vehicle_dets]. *)
Definition is_vehicle_det (cfg : config) (w h : Z) (det : detection) : bool :=
  (class_in det vehicle_classes
   && Qltb (min_confidence_threshold cfg) (det_confidence det)
   && let '(x1, y1, x2, y2) := det_bbox det in
      let box_area := ((x2 - x1) * (y2 - y1))%Q in
      let area_ratio := (box_area / (inject_Z w * inject_Z h))%Q in
      Qleb (1 # 1000) area_ratio && Qleb area_ratio (1 # 4))%bool.

Definition vehicle_dets (cfg : config) (f : frame_input) : list detection :=
  List.filter (is_vehicle_det cfg (frame_w f) (frame_h f)) (detections f).

(** The tracks the frame works on: the tracker is called only when some
    vehicle detection passed the filter, and tracks without a box are
    dropped. *)
Definition frame_tracks (cfg : config) (f : frame_input) : list (Z * bbox) :=
  match vehicle_dets cfg f with
  | [] => []
  | _ :: _ =>
      omap (fun t => option_map (fun b => (track_id t, b)) (track_bbox t))
           (tracker_output f)
  end.

(** Suspicious position jumps (potential ID switches). *)
Definition jump_check (cfg : config) (st : status) (y : Q) : status :=
  match last_position st with
  | None => st
  | Some last_y =>
      let position_jump := Qabs (y - last_y) in
      if Qltb (max_position_jump cfg) position_jump then
        let st1 := set_suspicious_jumps (suspicious_jumps st + 1) st in
        if 2 <? suspicious_jumps st1
        then set_suspicious_jumps 0 (set_crossed_during_red false st1)
        else st1
      else st
  end.

(** Movement over the last 3 frames, confirmed over the last 5. *)
Definition movement_detected (cfg : config) (h : list Q) : bool :=
  if (3 <=? length h)%nat then
    let m3 :=
      match neg_index h 1, neg_index h 3 with
      | Some a, Some b => Qltb (movement_threshold cfg) (Qabs (a - b))
      | _, _ => false
      end in
    let m5 :=
      if (5 <=? length h)%nat then
        match neg_index h 1, neg_index h 5 with
        | Some a, Some b =>
            Qltb (movement_threshold cfg * (3 # 2)) (Qabs (a - b))
        | _, _ => false
        end
      else false in
    (m3 || m5)%bool
  else false.

(** [l.append(x)] followed by [if len(l) > n: l.pop(0)]. *)
Definition push_bounded {A} (n : nat) (l : list A) (x : A) : list A :=
  let l' := l ++ [x] in
  if (n <? length l')%nat then tail l' else l'.

Definition moving_of (recent : list bool) : bool :=
  let recent_movement_count := Z.of_nat (length (List.filter (fun b => b) recent)) in
  let total_recent_frames := Z.of_nat (length recent) in
  ((2 <=? total_recent_frames)
   && Qleb (inject_Z total_recent_frames * (1 # 2)) (inject_Z recent_movement_count))%bool.

(** The status of a track after the body of "for track in tracks". *)
Definition update_status (cfg : config) (st : status) (h' : list Q) (y : Q)
  : status :=
  let st1 := jump_check cfg st y in
  let st2 := set_last_position (Some y) st1 in
  set_recent_movement
    (push_bounded 4 (recent_movement st2) (movement_detected cfg h')) st2.

(** One iteration of "for track in tracks": the updated maps and the
    entry appended to [tracked_vehicles]. *)
Definition update_track (cfg : config) (c : controller) (t : Z * bbox)
  : controller * tracked :=
  let '(tid, box) := t in
  let '(x1, y1, x2, y2) := box in
  let y := ((y1 + y2) / 2)%Q in
  let h := default [] (vehicle_history c !! tid) in
  let st := default new_status (vehicle_statuses c !! tid) in
  let h' := deque_append (position_history_size cfg) h y in
  let st' := update_status cfg st h' y in
  ({| vehicle_history := <[tid := h']> (vehicle_history c);
      vehicle_statuses := <[tid := st']> (vehicle_statuses c);
      latest_traffic_light := latest_traffic_light c |},
   {| tv_id := tid; tv_bbox := box; center_y := y;
      is_moving := moving_of (recent_movement st');
      is_violation := false |}).

Fixpoint update_tracks (cfg : config) (c : controller) (ts : list (Z * bbox))
  : controller * list tracked :=
  match ts with
  | [] => (c, [])
  | t :: ts' =>
      let '(c1, tv) := update_track cfg c t in
      let '(c2, tvs) := update_tracks cfg c1 ts' in
      (c2, tv :: tvs)
  end.

(** [_cleanup_old_vehicle_data], as the first class defines it. *)
Definition old_ids (c : controller) (current_track_ids : list Z) : list Z :=
  elements (dom (vehicle_history c) ∖ list_to_set current_track_ids : gset Z).

Definition cleanup_old_vehicle_data (c : controller) (current_track_ids : list Z)
  : controller :=
  let old := old_ids c current_track_ids in
  {| vehicle_history := foldr delete (vehicle_history c) old;
     vehicle_statuses := foldr delete (vehicle_statuses c) old;
     latest_traffic_light := latest_traffic_light c |}.

(** The call [self._cleanup_old_vehicle_data(current_track_ids)], the
    last statement of the [try] block of the tracking step.  In a class
    without the method the attribute lookup raises [AttributeError];
    the handler of the block prints it and the frame goes on, with both
    dictionaries as the loop over the tracks left them. *)
Definition cleanup_call (cfg : config) (c : controller)
    (current_track_ids : list Z) : controller :=
  if defines_cleanup cfg
  then cleanup_old_vehicle_data c current_track_ids
  else c.

(** The whole tracking pass of a frame, the call of the cleanup
    included. *)
Definition tracking_pass (cfg : config) (c : controller) (f : frame_input)
  : controller * list tracked :=
  let '(c1, tvs) := update_tracks cfg c (frame_tracks cfg f) in
  (cleanup_call cfg c1 (map tv_id tvs), tvs).

(** ** Violation evaluation *)

Definition is_red_light (c : controller) : bool :=
  String.eqb (color (latest_traffic_light c)) "red".

(** What the evaluation of one track computes. *)
Record evaluation := {
  ev_status : status;
  ev_crossing : option crossing;
  ev_actively_crossing : bool;
  ev_is_violation : bool;
  ev_emit : bool
}.

(** The body of "for tracked in tracked_vehicles" on the track's own
    data: its position history, its [is_moving] flag and its status.
    A status always has its ['crossed_during_red'] and
    ['suspicious_jumps'] keys, so the defaults the source gives for
    them are never used. *)
Definition evaluate (cfg : config) (line : Q) (red : bool)
    (position_history : list Q) (moving : bool) (st : status) : evaluation :=
  let crossing_details := crossing_scan cfg position_history line in
  let line_crossed_in_window := bool_decide (is_Some crossing_details) in
  let actively_crossing := (line_crossed_in_window && moving && red)%bool in
  let st1 :=
    if actively_crossing then
      if suspicious_jumps st <=? 1
      then set_crossed_during_red true st
      else st
    else st in
  let st2 := if negb red then set_crossed_during_red false st1 else st1 in
  let violating := (crossed_during_red st2 && red)%bool in
  let st3 :=
    set_violation_history
      (push_bounded 5 (violation_history st2) actively_crossing) st2 in
  {| ev_status := st3;
     ev_crossing := crossing_details;
     ev_actively_crossing := actively_crossing;
     ev_is_violation := violating;
     ev_emit := (actively_crossing && (suspicious_jumps st3 <=? 1))%bool |}.

(** [l[-n:]]. *)
Definition last_n {A} (n : nat) (l : list A) : list A :=
  skipn (length l - n) l.

Definition violation_record (cfg : config) (line : Q) (tv : tracked)
    (details : option crossing) (position_history : list Q) : violation :=
  let '(x1, y1, x2, y2) := tv_bbox tv in
  {| v_track_id := tv_id tv;
     v_bbox := (Qtrunc x1, Qtrunc y1, Qtrunc x2, Qtrunc y2);
     v_violation_type := "line_crossing";
     v_line_position := line;
     v_movement :=
       match details with
       | Some d => inl d
       | None => inr (center_y tv, center_y tv)
       end;
     v_crossing_window := crossing_check_window cfg;
     v_position_history := last_n 10 position_history |}.

(** State threaded through the evaluation loop: the status map and the
    frame's [violations] list.  The tracking pass has given every
    tracked vehicle an entry in both maps ([tracking_pass_entries]
    below), so the last branch, Python's [KeyError], is never taken. *)
Definition evaluate_track (cfg : config) (line : Q) (red : bool)
    (hist : gmap Z (list Q)) (acc : gmap Z status * list violation)
    (tv : tracked) : gmap Z status * list violation * tracked :=
  let '(statuses, violations) := acc in
  match hist !! tv_id tv, statuses !! tv_id tv with
  | Some h, Some st =>
      let ev := evaluate cfg line red h (is_moving tv) st in
      (<[tv_id tv := ev_status ev]> statuses,
       if ev_emit ev
       then violations ++ [violation_record cfg line tv (ev_crossing ev) h]
       else violations,
       set_is_violation (ev_is_violation ev) tv)
  | _, _ => (statuses, violations, tv)
  end.

Fixpoint evaluate_tracks (cfg : config) (line : Q) (red : bool)
    (hist : gmap Z (list Q)) (acc : gmap Z status * list violation)
    (tvs : list tracked) : gmap Z status * list violation * list tracked :=
  match tvs with
  | [] => (acc, [])
  | tv :: tvs' =>
      let '(acc1, tv') := evaluate_track cfg line red hist acc tv in
      let '(acc2, tvs'') := evaluate_tracks cfg line red hist acc1 tvs' in
      (acc2, tv' :: tvs'')
  end.

(** The guard of the violation block:
    [has_traffic_lights and violation_line_y is not None and tracked_vehicles]. *)
Definition evaluation_runs (f : frame_input) (tvs : list tracked) : bool :=
  (has_traffic_lights (detections f)
   && bool_decide (is_Some (violation_line_y f))
   && negb (bool_decide (tvs = [])))%bool.

Definition violation_pass (cfg : config) (c : controller) (f : frame_input)
    (tvs : list tracked) : controller * list violation * list tracked :=
  match violation_line_y f with
  | Some line =>
      if (has_traffic_lights (detections f) && negb (bool_decide (tvs = [])))%bool
      then
        let '(statuses, violations, tvs') :=
          evaluate_tracks cfg line (is_red_light c) (vehicle_history c)
            (vehicle_statuses c, []) tvs in
        ({| vehicle_history := vehicle_history c;
            vehicle_statuses := statuses;
            latest_traffic_light := latest_traffic_light c |},
         violations, tvs')
      else (c, [], tvs)
  | None => (c, [], tvs)
  end.

(** ** Traffic-light state *)

Definition allowed_classes : list string :=
  ["traffic light"; "car"; "truck"; "bus"; "motorcycle"; "van"; "bicycle"].

(** The drawing loop asks the classifier for the colour of a box when
    [class_id == 9 or is_traffic_light(label)], on the detections whose
    class is drawn. *)
Definition colour_wanted (det : detection) : bool :=
  (class_in det allowed_classes
   && ((class_id det =? 9) || Normalizer.is_traffic_light (class_name det)))%bool.

Definition set_traffic_light_color (v : option light_info) (det : detection)
  : detection :=
  {| class_name := class_name det; class_id := class_id det;
     det_bbox := det_bbox det; det_confidence := det_confidence det;
     traffic_light_color := v; classified := classified det |}.

(** Effect of the drawing loop on one detection dictionary. *)
Definition classify_detection (det : detection) : detection :=
  if colour_wanted det then
    match classified det with
    | Some li => set_traffic_light_color (Some li) det
    | None => det
    end
  else det.

(** Effect of the drawing loop on [latest_traffic_light]: every
    classified box overwrites it, in detection order. *)
Definition classify_latest (latest : light_info) (dets : list detection)
  : light_info :=
  fold_left
    (fun l det =>
       if colour_wanted det then
         match classified det with
         | Some li => li
         | None => l
         end
       else l)
    dets latest.

(** [max(l, key=confidence)] on a non-empty list: the first maximum. *)
Definition highest_confidence (x : bbox * light_info)
    (l : list (bbox * light_info)) : bbox * light_info :=
  fold_left
    (fun best y =>
       if Qltb (confidence (snd best)) (confidence (snd y)) then y else best)
    l x.

Definition red_lights (tls : list (bbox * light_info)) : list (bbox * light_info) :=
  List.filter (fun tl => String.eqb (color (snd tl)) "red") tls.

(** The list [traffic_lights] at the consensus step: the entries of the
    pass before the violation block, then those of the pass after the
    drawing loop. *)
Definition traffic_lights (dets : list detection) : list (bbox * light_info) :=
  traffic_lights_pass dets ++ traffic_lights_pass (map classify_detection dets).

(** "Determine the dominant traffic light color". *)
Definition consensus (latest : light_info) (tls : list (bbox * light_info))
  : light_info :=
  match red_lights tls with
  | [] => latest
  | x :: l =>
      {| color := "red"; confidence := confidence (snd (highest_confidence x l)) |}
  end.

(** [latest_traffic_light] at the end of a frame. *)
Definition resolve_traffic_light (latest : light_info) (dets : list detection)
  : light_info :=
  consensus (classify_latest latest dets) (traffic_lights dets).

(** ** One frame, and a run of frames *)

Record frame_output := {
  tracked_vehicles : list tracked;
  violations : list violation
}.

Definition process_frame (cfg : config) (c : controller) (f : frame_input)
  : controller * frame_output :=
  let '(c1, tvs) := tracking_pass cfg c f in
  let '(c2, vs, tvs') := violation_pass cfg c1 f tvs in
  ({| vehicle_history := vehicle_history c2;
      vehicle_statuses := vehicle_statuses c2;
      latest_traffic_light :=
        resolve_traffic_light (latest_traffic_light c2) (detections f) |},
   {| tracked_vehicles := tvs'; violations := vs |}).

(** The state after a sequence of frames. *)
Definition run (cfg : config) (c : controller) (fs : list frame_input)
  : controller :=
  fold_left (fun c f => fst (process_frame cfg c f)) fs c.

(** The states the controller can be in. *)
Inductive reachable (cfg : config) : controller -> Prop :=
  | reachable_init : reachable cfg initial_controller
  | reachable_step c f :
      reachable cfg c -> reachable cfg (fst (process_frame cfg c f)).

(** ** Vocabulary of the properties *)

(** The position pair [i] frames ago, most recent first: [p] is the
    earlier position and [q] the later one. *)
Definition pair_ago (h : list Q) (i : nat) (p q : Q) : Prop :=
  (1 <= i)%nat /\ reverse h !! i = Some p /\ reverse h !! (i - 1)%nat = Some q.

(** A pair that goes over the line: [p < line <= q]. *)
Definition over_line (line p q : Q) : Prop := (p < line)%Q /\ (line <= q)%Q.

(** The pairs the scan of a history looks at. *)
Definition scanned (cfg : config) (h : list Q) (i : nat) : Prop :=
  (1 <= i < Nat.min (crossing_check_window cfg) (length h))%nat.

(** What the classifier said last in the drawing loop, if it ran. *)
Definition last_classified (dets : list detection) : option light_info :=
  last (omap (fun det => if colour_wanted det then classified det else None) dets).

(** IDs of the tracks a frame works on. *)
Definition frame_track_ids (cfg : config) (f : frame_input) : list Z :=
  map fst (frame_tracks cfg f).

(** Whether the violation block of the frame is entered. *)
Definition frame_evaluates (cfg : config) (c : controller) (f : frame_input) : bool :=
  evaluation_runs f (snd (tracking_pass cfg c f)).

(** The reading of the crossing window as a number of pairs: on a
    history long enough, each of the [crossing_check_window] most recent
    pairs is looked at, so a pair among them that goes over the line is
    reported. *)
Definition scans_window_pairs (cfg : config) (h : list Q) (line : Q) : Prop :=
  (crossing_check_window cfg + 1 <= length h)%nat ->
  forall i p q,
    (1 <= i <= crossing_check_window cfg)%nat ->
    pair_ago h i p q -> over_line line p q ->
    is_Some (crossing_scan cfg h line).

(** A history of nine positions whose oldest pair goes over line 25. *)
Definition history_9 : list Q :=
  [10#1; 30#1; 30#1; 30#1; 30#1; 30#1; 30#1; 30#1; 30#1]%Q.

(** The reading of the resolver as sticky: with no red light among the
    frame's traffic lights, [latest_traffic_light] is what it was. *)
Definition sticky_without_red (latest : light_info) (dets : list detection)
  : Prop :=
  red_lights (traffic_lights dets) = [] ->
  resolve_traffic_light latest dets = latest.

Definition red_09 : light_info := {| color := "red"; confidence := 9 # 10 |}.

(** A traffic light that the classifier calls green. *)
Definition green_light_detection : detection := {|
  class_name := Some "traffic light";
  class_id := 9;
  det_bbox := (10#1, 10#1, 30#1, 60#1)%Q;
  det_confidence := 9 # 10;
  traffic_light_color := None;
  classified := Some {| color := "green"; confidence := 8 # 10 |}
|}.

(** The bound on the jump counter. *)
Definition jumps_bounded (st : status) : Prop :=
  0 <= suspicious_jumps st <= 2.

(** The two dictionaries hold the same track IDs. *)
Definition same_ids (c : controller) : Prop :=
  dom (vehicle_statuses c) =@{gset Z} dom (vehicle_history c).

(** ** Example frames

    One car, tracked as ID 7, whose box is centred at height [y], on a
    1000 by 1000 frame; with or without a traffic light that the
    classifier calls red; the line locator answers [line]. *)

Definition red_light_detection : detection := {|
  class_name := Some "traffic light";
  class_id := 9;
  det_bbox := (10#1, 10#1, 30#1, 60#1)%Q;
  det_confidence := 9 # 10;
  traffic_light_color := None;
  classified := Some red_09
|}.

Definition car_box (y : Z) : bbox :=
  (400#1, inject_Z (y - 50), 500#1, inject_Z (y + 50))%Q.

Definition car_detection (y : Z) : detection := {|
  class_name := Some "car";
  class_id := 2;
  det_bbox := car_box y;
  det_confidence := 8 # 10;
  traffic_light_color := None;
  classified := None
|}.

Definition car_frame (light : bool) (line : Q) (y : Z) : frame_input := {|
  frame_w := 1000;
  frame_h := 1000;
  detections := (if light then [red_light_detection] else []) ++ [car_detection y];
  tracker_output := [{| track_id := 7; track_bbox := Some (car_box y) |}];
  located_line := Some line
|}.

(** Three frames with a red light, the car jumping 60 pixels each time,
    and a fourth frame with the third jump, over the line at 250. *)
Definition jump_frames : list frame_input :=
  map (car_frame true (250#1)) [100; 160; 220].

Definition third_jump_frame : frame_input := car_frame true (250#1) 280.

(** Five frames with a red light in which the car goes over the line at
    140, and a sixth frame in which no traffic light is detected. *)
Definition crossing_frames : list frame_input :=
  map (car_frame true (140#1)) [100; 110; 120; 130; 150].

Definition frame_without_light : frame_input := car_frame false (140#1) 160.

(** A frame in which the tracker returns another car only, as ID 8. *)
Definition other_car_frame : frame_input := {|
  frame_w := 1000;
  frame_h := 1000;
  detections := [car_detection 300];
  tracker_output := [{| track_id := 8; track_bbox := Some (car_box 300) |}];
  located_line := None
|}.

(** The reading of the violation flag as an equivalence in every frame:
    each entry of the frame's [tracked_vehicles] is flagged exactly when
    its track's sticky flag is set and the light is red. *)
Definition violation_flag_iff (cfg : config) (c : controller) (f : frame_input)
  : Prop :=
  forall tv st,
    tv ∈ tracked_vehicles (snd (process_frame cfg c f)) ->
    vehicle_statuses (fst (process_frame cfg c f)) !! tv_id tv = Some st ->
    (is_violation tv = true <->
     crossed_during_red st = true /\ is_red_light c = true).

(** A frame with no detection at all. *)
Definition empty_frame : frame_input := {|
  frame_w := 1000;
  frame_h := 1000;
  detections := [];
  tracker_output := [];
  located_line := None
|}.

(** The car's entry of [tracked_vehicles] in a frame where it is at
    height [y]. *)
Definition car_tracked (y : Z) (moving violating : bool) : tracked := {|
  tv_id := 7;
  tv_bbox := car_box y;
  center_y := (inject_Z (y - 50) + inject_Z (y + 50)) / 2;
  is_moving := moving;
  is_violation := violating
|}.

(** The car's status after the tracking pass of [third_jump_frame]. *)
Definition status_after_third_jump : status := {|
  recent_movement := [false; false; true; true];
  violation_history := [false; false; false];
  crossed_during_red := false;
  last_position := Some ((inject_Z (280 - 50) + inject_Z (280 + 50)) / 2)%Q;
  suspicious_jumps := 0
|}.

(** The car's status at the end of the frame in which it goes over the
    line at 140. *)
Definition status_after_crossing : status := {|
  recent_movement := [false; true; true; true];
  violation_history := [false; false; false; false; true];
  crossed_during_red := true;
  last_position := Some ((inject_Z (150 - 50) + inject_Z (150 + 50)) / 2)%Q;
  suspicious_jumps := 0
|}.

(** Whether the jump check of a track at height [y] counts a jump. *)
Definition registers_jump (cfg : config) (st : status) (y : Q) : bool :=
  match last_position st with
  | Some last_y => Qltb (max_position_jump cfg) (Qabs (y - last_y))
  | None => false
  end.

(** The car at height [y] under a traffic light that the classifier
    calls green, the line at 140. *)
Definition green_frame (y : Z) : frame_input := {|
  frame_w := 1000;
  frame_h := 1000;
  detections := [green_light_detection; car_detection y];
  tracker_output := [{| track_id := 7; track_bbox := Some (car_box y) |}];
  located_line := Some (140 # 1)
|}.

(** The reading of the sticky flag as tied to the light state: in a
    state of the controller, a track's [crossed_during_red] is true
    only if the light state is red. *)
Definition flag_only_while_red (c : controller) : Prop :=
  forall (k : Z) st,
    vehicle_statuses c !! k = Some st ->
    crossed_during_red st = true -> is_red_light c = true.

(** The frames of the crossing under red, then the light turns green. *)
Definition crossing_then_green : list frame_input :=
  crossing_frames ++ [green_frame 160].

(** A frame in which the tracker returns ID 7 twice, for two cars 100
    pixels apart. *)
Definition repeated_id_frame : frame_input := {|
  frame_w := 1000;
  frame_h := 1000;
  detections := [car_detection 200; car_detection 300];
  tracker_output :=
    [{| track_id := 7; track_bbox := Some (car_box 200) |};
     {| track_id := 7; track_bbox := Some (car_box 300) |}];
  located_line := None
|}.

(** The reading of the jump counter as going up by one per frame at
    most. *)
Definition one_increment_per_frame (cfg : config) (c : controller)
    (f : frame_input) : Prop :=
  forall (k : Z) st st',
    vehicle_statuses c !! k = Some st ->
    vehicle_statuses (fst (process_frame cfg c f)) !! k = Some st' ->
    suspicious_jumps st' <= suspicious_jumps st + 1.

(** ** Vocabulary of the further properties *)

(** Number of [True] entries, Python's [sum] of a list of booleans. *)
Definition count_true (l : list bool) : nat :=
  length (List.filter (fun b => b) l).

(** What the history and the status of one track have in common: the
    bounds of the three lists, the last position, and the movement
    samples of a track that is still short of four positions. *)
Definition track_ok (cfg : config) (h : list Q) (st : status) : Prop :=
  (length h <= position_history_size cfg)%nat
  /\ (length (recent_movement st) <= 4)%nat
  /\ (length (violation_history st) <= 5)%nat
  /\ (forall y, last h = Some y -> last_position st = Some y)
  /\ ((4 <= position_history_size cfg)%nat -> (length h <= 3)%nat ->
      length (recent_movement st) = length h
      /\ (count_true (recent_movement st) + 2 <= Nat.max 2 (length h))%nat).

(** A track that has been through an update has a position, when the
    history keeps any. *)
Definition track_seen (cfg : config) (h : list Q) (st : status) : Prop :=
  track_ok cfg h st
  /\ ((1 <= position_history_size cfg)%nat -> h <> [])
  /\ is_Some (last_position st).

(** Every ID has an entry in both dictionaries or in none, and the two
    entries fit together. *)
Definition tracks_ok (cfg : config) (c : controller) : Prop :=
  forall k : Z,
    (vehicle_history c !! k = None /\ vehicle_statuses c !! k = None)
    \/ exists h st,
         vehicle_history c !! k = Some h
         /\ vehicle_statuses c !! k = Some st
         /\ track_seen cfg h st.

(** The height at which a track is recorded: the centre of its box. *)
Definition box_center_y (b : bbox) : Q :=
  let '(x1, y1, x2, y2) := b in (y1 + y2) / 2.

(** The two entries of a track fit together, for maps taken apart. *)
Definition maps_ok (cfg : config) (hist : gmap Z (list Q))
    (statuses : gmap Z status) : Prop :=
  forall k : Z,
    (hist !! k = None /\ statuses !! k = None)
    \/ exists h st,
         hist !! k = Some h /\ statuses !! k = Some st /\ track_seen cfg h st.

(** The Violation Record of the frame in which the car of
    [crossing_frames] goes over the line at 140. *)
Definition crossing_record : violation := {|
  v_track_id := 7;
  v_bbox := (400, 100, 500, 200);
  v_violation_type := "line_crossing";
  v_line_position := 140 # 1;
  v_movement :=
    inl {| frames_ago := 1;
           prev_y := (inject_Z (130 - 50) + inject_Z (130 + 50)) / 2;
           curr_y := (inject_Z (150 - 50) + inject_Z (150 + 50)) / 2;
           window_checked := 5 |};
  v_crossing_window := 8;
  v_position_history :=
    map (fun y : Z => (inject_Z (y - 50) + inject_Z (y + 50)) / 2)%Q
      [100; 110; 120; 130; 150]
|}.


(** ** Overlap of a detection box and a track box

    The drawing loop of the frame matches a detection with the tracked
    vehicles by the overlap of their boxes.  Areas and their quotient
    are exact rationals here; the rounding of the source's floats is
    not modelled. *)

(** Python's [max(a, b)] and [min(a, b)]: the first argument unless the
    second is strictly beyond it. *)
Definition py_max (a b : Q) : Q := if Qltb a b then b else a.
Definition py_min (a b : Q) : Q := if Qltb b a then b else a.

(** "Calculate IoU (Intersection over Union)". *)
Definition box_iou (d t : bbox) : Q :=
  let '(x1, y1, x2, y2) := d in
  let '(track_x1, track_y1, track_x2, track_y2) := t in
  let intersection_x1 := py_max x1 track_x1 in
  let intersection_y1 := py_max y1 track_y1 in
  let intersection_x2 := py_min x2 track_x2 in
  let intersection_y2 := py_min y2 track_y2 in
  if (Qltb intersection_x1 intersection_x2
      && Qltb intersection_y1 intersection_y2)%bool
  then
    let intersection_area :=
      ((intersection_x2 - intersection_x1)
       * (intersection_y2 - intersection_y1))%Q in
    let det_area := ((x2 - x1) * (y2 - y1))%Q in
    let track_area := ((track_x2 - track_x1) * (track_y2 - track_y1))%Q in
    let union_area := (det_area + track_area - intersection_area)%Q in
    if Qltb 0 union_area then (intersection_area / union_area)%Q else 0%Q
  else 0%Q.

(** Two red lights and a green one, the classifier being surest of the
    second. *)
Definition red_light_with (conf : Q) : detection := {|
  class_name := Some "traffic light";
  class_id := 9;
  det_bbox := (10#1, 10#1, 30#1, 60#1)%Q;
  det_confidence := 9 # 10;
  traffic_light_color := None;
  classified := Some {| color := "red"; confidence := conf |}
|}.

(** ** Matching a detection with the tracked vehicles

    The loop "for i, tracked in enumerate(tracked_vehicles)" of the
    drawing pass.  The distance between the two centres is a
    floating-point square root in the source; it is a parameter here. *)

Section Matching.
Variable center_distance : bbox -> bbox -> Q.

(** [is_good_match]. *)
Definition is_good_match (d : bbox) (tv : tracked) : bool :=
  let iou := box_iou d (tv_bbox tv) in
  (Qltb (3 # 10) iou
   || (Qltb (center_distance d (tv_bbox tv)) (60 # 1) && Qltb (1 # 10) iou))%bool.

(** The state of the loop: [best_match], [best_iou] and [best_distance]
    ([None] for [float('inf')]). *)
Definition match_state : Type := option tracked * Q * option Q.

Definition closer (dist : Q) (best_distance : option Q) : bool :=
  match best_distance with
  | Some b => Qltb dist b
  | None => true
  end.

Definition match_step (d : bbox) (s : match_state) (tv : tracked) : match_state :=
  let '(best_match, best_iou, best_distance) := s in
  let iou := box_iou d (tv_bbox tv) in
  let dist := center_distance d (tv_bbox tv) in
  if is_good_match d tv then
    if (Qltb best_iou iou || (Qeq_bool iou best_iou && closer dist best_distance))%bool
    then (Some tv, iou, Some dist)
    else s
  else s.

Definition best_match (d : bbox) (tvs : list tracked) : match_state :=
  fold_left (match_step d) tvs (None, 0%Q, None).

(** What the loop has found after going through the vehicles [seen]. *)
Definition match_found (d : bbox) (seen : list tracked) (s : match_state)
  : Prop :=
  match s with
  | (None, best_iou, _) =>
      (best_iou == 0)%Q
      /\ forall tv, tv ∈ seen -> is_good_match d tv = false
  | (Some tv, best_iou, best_distance) =>
      tv ∈ seen
      /\ is_good_match d tv = true
      /\ best_iou = box_iou d (tv_bbox tv)
      /\ best_distance = Some (center_distance d (tv_bbox tv))
      /\ forall tv', tv' ∈ seen ->
           is_good_match d tv' = true ->
           (box_iou d (tv_bbox tv') <= best_iou)%Q
           /\ ((box_iou d (tv_bbox tv') == best_iou)%Q ->
               (center_distance d (tv_bbox tv)
                <= center_distance d (tv_bbox tv'))%Q)
  end.

End Matching.

(** ** Reading the source

    The loop "while self._running and cap.isOpened()" of
    [VideoController._run], over what the reads of the source give
    while the loop is allowed to run. *)

Inductive read_result :=
  | ReadFrame (f : frame_input)
  | ReadError.

Definition max_consecutive_errors : nat := 10.

(** The loop with [frame_error_count] errors counted so far; the
    boolean tells whether it stopped on too many consecutive errors. *)
Fixpoint read_loop (cfg : config) (c : controller) (frame_error_count : nat)
    (reads : list read_result) : controller * bool :=
  match reads with
  | [] => (c, false)
  | ReadError :: rest =>
      let n := S frame_error_count in
      if (max_consecutive_errors <=? n)%nat then (c, true)
      else read_loop cfg c n rest
  | ReadFrame f :: rest =>
      read_loop cfg (fst (process_frame cfg c f)) 0 rest
  end.

(** The frames among the reads. *)
Definition frames_read (reads : list read_result) : list frame_input :=
  omap (fun r => match r with ReadFrame f => Some f | ReadError => None end) reads.

(** The longest run of consecutive errors among the reads, counting
    from [n] errors already seen. *)
Fixpoint longest_error_run (n : nat) (reads : list read_result) : nat :=
  match reads with
  | [] => n
  | ReadError :: rest => longest_error_run (S n) rest
  | ReadFrame _ :: rest => Nat.max n (longest_error_run 0 rest)
  end.

(** ** Opening the source: [try_open_source] *)

Inductive open_outcome :=
  | Opened        (* opened, and a test frame was read *)
  | NoTestFrame   (* opened, but no frame could be read *)
  | NotOpened
  | OpenRaised.

Definition is_opened (o : open_outcome) : bool :=
  match o with Opened => true | _ => false end.

(** The loop "for attempt in range(1, retries + 1)" entered at
    [attempt] with [n] attempts left; the result is the attempt that
    returned the capture, if any, and the number of sleeps. *)
Fixpoint try_open_from (outcome : nat -> open_outcome) (retries attempt n : nat)
    (sleeps : nat) : option nat * nat :=
  match n with
  | O => (None, sleeps)
  | S n' =>
      if is_opened (outcome attempt) then (Some attempt, sleeps)
      else try_open_from outcome retries (S attempt) n'
             (if (attempt <? retries)%nat then S sleeps else sleeps)
  end.

Definition try_open_source (outcome : nat -> open_outcome) (retries : nat)
  : option nat * nat :=
  try_open_from outcome retries 1 retries 0.

(** ** Line location: [utils/crosswalk_backup.py]

    The pure parts of the line locator, after the image processing: the
    contours and the Hough lines that OpenCV found are inputs.  A frame
    is given by its height and width; products by the decimal constants
    of the source (0.3, 0.05, ...) are exact rationals, truncated as
    [int] does. *)

Module Crosswalk.

(** [check_vehicle_violation]. *)
Definition check_vehicle_violation (vehicle_bbox : bbox) (violation_line_y : Q)
  : bool :=
  let '(x1, y1, x2, y2) := vehicle_bbox in
  let vehicle_bottom := y2 in
  let vehicle_center_y := ((y1 + y2) / 2)%Q in
  let height := (y2 - y1)%Q in
  if Qleb height 0 then false
  else (Qltb violation_line_y vehicle_bottom
        || Qltb violation_line_y vehicle_center_y)%bool.

(** A bounding rectangle [(x, y, w, h)] of a contour. *)
Definition rect : Type := Z * Z * Z * Z.

(** [np.max] and [np.min] of a non-empty array, given by its first
    element and the rest. *)
Definition array_max (x : Z) (l : list Z) : Z := fold_left Z.max l x.
Definition array_min (x : Z) (l : list Z) : Z := fold_left Z.min l x.

(** The bars kept by step 3 of [detect_crosswalk_and_violation_line]
    (the last definition of that name in the file), out of the bounding
    rectangles of the contours of a frame [h] high and [w] wide. *)
Definition crosswalk_bars (h w : Z) (rects : list rect) : list rect :=
  List.filter
    (fun r => let '(x, y, cw, ch) := r in
              (Qltb (inject_Z w * (5 # 100)) (inject_Z cw)
               && Qltb (inject_Z ch) (inject_Z h * (15 # 100)))%bool)
    rects.

(** Step 5 of [detect_crosswalk_and_violation_line]: the crosswalk box
    and the violation line. *)
Definition detect_crosswalk_and_violation_line (h w : Z) (rects : list rect)
  : option rect * Z :=
  let bars := crosswalk_bars h w rects in
  let ys := map (fun r : rect => let '(x, y, cw, ch) := r in y) bars in
  let bottom_edges := map (fun r : rect => let '(x, y, cw, ch) := r in y + ch) bars in
  if (3 <=? length ys)%nat then
    match ys, bottom_edges with
    | y0 :: ys', b0 :: bs' =>
        let max_bottom := array_max b0 bs' in
        let min_y := array_min y0 ys' in
        (Some (0, min_y, w, max_bottom - min_y),
         Z.min (max_bottom + 5) (h - 1))
    | _, _ => (None, Qtrunc (inject_Z h * (65 # 100)))
    end
  else (None, Qtrunc (inject_Z h * (65 # 100))).

(** [detect_stop_line], after the Hough transform: [lines] is what
    [cv2.HoughLinesP] returned ([None] for Python's [None]), in a
    region of interest that starts at row [roi_y]. *)
Definition line_seg : Type := Z * Z * Z * Z.

Definition is_horizontal (l : line_seg) : bool :=
  let '(x1, y1, x2, y2) := l in
  if x2 - x1 =? 0 then false
  else Qltb (Qabs (inject_Z (y2 - y1) / inject_Z (x2 - x1))) (2 # 10).

Definition line_bottom (l : line_seg) : Z :=
  let '(x1, y1, x2, y2) := l in Z.max y1 y2.

(** [list.sort(key=..., reverse=True)]: a stable sort in decreasing
    order of the key. *)
Fixpoint insert_desc {A} (key : A -> Z) (x : A) (l : list A) : list A :=
  match l with
  | [] => [x]
  | y :: l' => if key x <? key y then y :: insert_desc key x l' else x :: l
  end.

Definition sort_desc {A} (key : A -> Z) (l : list A) : list A :=
  foldr (insert_desc key) [] l.

Definition roi_start (height : Z) (fraction : Q) : Z :=
  height - Qtrunc (inject_Z height * fraction).

Definition detect_stop_line (height : Z) (lines : option (list line_seg))
  : option Z :=
  let roi_y := roi_start height (3 # 10) in
  match lines with
  | None => None
  | Some [] => None
  | Some ls =>
      match sort_desc line_bottom (List.filter is_horizontal ls) with
      | [] => None
      | l :: _ => Some (roi_y + line_bottom l)
      end
  end.

(** [get_violation_line_y] (the last definition of that name in the
    file), the contours of its stop-line step being given by their
    bounding rectangles.  A box is a Python sequence, of any length. *)
Definition stop_line_candidates (height width : Z) (rects : list rect)
  : list (Z * Z) :=
  let roi_height := Qtrunc (inject_Z height * (4 # 10)) in
  let roi_y := height - roi_height in
  omap
    (fun r : rect =>
       let '(x, y, w, h) := r in
       let aspect_ratio := (inject_Z w / inject_Z (Z.max h 1))%Q in
       let normalized_width := (inject_Z w / inject_Z width)%Q in
       if (Qltb (5 # 1) aspect_ratio && Qltb (3 # 10) normalized_width
           && (h <? 15)
           && Qltb (inject_Z roi_height * (1 # 2)) (inject_Z y))%bool
       then Some (y + roi_y, w)
       else None)
    rects.

Definition get_violation_line_y (height width : Z) (rects : list rect)
    (traffic_light_bbox crosswalk_bbox : option (list Q)) : Z :=
  let by_light :=
    match traffic_light_bbox with
    | Some [tx1; ty1; tx2; ty2] =>
        let traffic_light_bottom := ty2 in
        let traffic_light_height := (ty2 - ty1)%Q in
        let estimated_distance :=
          py_min (5 * traffic_light_height) (inject_Z height * (3 # 10)) in
        Z.min (Qtrunc (traffic_light_bottom + estimated_distance)) (height - 20)
    | _ => Qtrunc (inject_Z height * (75 # 100))
    end in
  let by_stop_line :=
    match sort_desc snd (stop_line_candidates height width rects) with
    | (abs_y, _) :: _ => abs_y
    | [] => by_light
    end in
  match crosswalk_bbox with
  | Some [cx; cy; cw; ch] => Qtrunc cy - 15
  | _ => by_stop_line
  end.

End Crosswalk.

(** A box argument that is a sequence of four numbers. *)
Definition is_box (b : option (list Q)) : bool :=
  match b with
  | Some l => (length l =? 4)%nat
  | None => false
  end.

(** * Properties *)

(** ** Comparisons *)

Lemma Qltb_lt (x y : Q) : Qltb x y = true <-> (x < y)%Q.
Proof.
  unfold Qltb. rewrite negb_true_iff, <- not_true_iff_false, Qle_bool_iff.
  split; [apply Qnot_le_lt | apply Qlt_not_le].
Qed.

Lemma Qleb_le (x y : Q) : Qleb x y = true <-> (x <= y)%Q.
Proof. apply Qle_bool_iff. Qed.

Lemma crosses_over_line (line p q : Q) :
  crosses line p q = true <-> over_line line p q.
Proof.
  unfold crosses, over_line. rewrite andb_true_iff, Qltb_lt, Qleb_le. tauto.
Qed.

(** ** Label normaliser *)

Section NormalizerFacts.
Import Normalizer.
Variable lower_fn : string -> string.
Hypothesis lower_canonical : Forall (fun s => lower_fn s = s) canonical_names.

Lemma normalize_with_canonical (s : string) :
  In s canonical_names -> normalize_with lower_fn (Some s) = s.
Proof.
  intros Hs. assert (Hl : lower_fn s = s).
  { rewrite Forall_forall in lower_canonical. apply lower_canonical.
    by apply list_elem_of_In. }
  unfold normalize_with. rewrite Hl.
  simpl in Hs. repeat destruct Hs as [<- | Hs]; try reflexivity. destruct Hs.
Qed.

Lemma normalize_with_idempotent (L : option string) :
  normalize_with lower_fn (Some (normalize_with lower_fn L))
  = normalize_with lower_fn L.
Proof.
  destruct L as [name|]; [|reflexivity].
  unfold normalize_with at 2 3.
  destruct (String.eqb name "") eqn:E0; [reflexivity|].
  cbv zeta.
  repeat match goal with
    | |- context [if str_in ?x ?l then _ else _] =>
        destruct (str_in x l) eqn:?;
        [ apply normalize_with_canonical; simpl; tauto | ]
    end.
  unfold normalize_with. rewrite E0. cbv zeta.
  repeat match goal with
    | H : str_in _ _ = false |- _ => rewrite H; clear H
    end.
  reflexivity.
Qed.
End NormalizerFacts.

Lemma lower_canonical_names :
  Forall (fun s => Normalizer.lower s = s) Normalizer.canonical_names.
Proof. repeat constructor. Qed.

(** C9. The label normaliser is idempotent: normalising a label that is
    already the result of normalising some label [L] gives that same
    result back. *)
Theorem normalize_class_name_idempotent (L : option string) :
  Normalizer.normalize_class_name (Some (Normalizer.normalize_class_name L))
  = Normalizer.normalize_class_name L.
Proof.
  apply normalize_with_idempotent, lower_canonical_names.
Qed.

(** ** Crossing-window scan *)

Lemma neg_index_reverse {A} (l : list A) (k : nat) :
  (1 <= k)%nat -> neg_index l k = reverse l !! (k - 1)%nat.
Proof.
  intros Hk. unfold neg_index.
  destruct (Nat.leb_spec 1 k) as [_|]; [|lia]. simpl.
  destruct (Nat.leb_spec k (length l)) as [Hle|Hgt].
  - rewrite reverse_lookup by lia. f_equal. lia.
  - symmetry. apply lookup_ge_None_2. rewrite length_reverse. lia.
Qed.

Lemma neg_index_pair_ago (h : list Q) (i : nat) (p q : Q) :
  (1 <= i)%nat ->
  (neg_index h (S i) = Some p /\ neg_index h i = Some q) <-> pair_ago h i p q.
Proof.
  intros Hi. unfold pair_ago.
  rewrite !neg_index_reverse by lia.
  replace (S i - 1)%nat with i by lia. tauto.
Qed.

Lemma neg_index_is_Some {A} (l : list A) (k : nat) :
  (1 <= k <= length l)%nat -> is_Some (neg_index l k).
Proof.
  intros Hk. unfold neg_index.
  destruct (Nat.leb_spec 1 k); [|lia].
  destruct (Nat.leb_spec k (length l)); [|lia]. simpl.
  apply lookup_lt_is_Some. lia.
Qed.

(** A successful loop stops at the first pair over the line. *)
Lemma scan_from_Some (h : list Q) (line : Q) (w : nat) :
  forall n i c,
    (1 <= i)%nat ->
    scan_from h line w i n = Some c ->
    (i <= frames_ago c < i + n)%nat
    /\ window_checked c = w
    /\ pair_ago h (frames_ago c) (prev_y c) (curr_y c)
    /\ over_line line (prev_y c) (curr_y c)
    /\ forall j p q, (i <= j < frames_ago c)%nat ->
         pair_ago h j p q -> ~ over_line line p q.
Proof.
  induction n as [|n IH]; intros i c Hi Hscan; simpl in Hscan; [discriminate|].
  destruct (neg_index h (S i)) as [p0|] eqn:Ep; [|discriminate].
  destruct (neg_index h i) as [q0|] eqn:Eq; [|discriminate].
  destruct (crosses line p0 q0) eqn:Ec.
  - injection Hscan as <-. simpl.
    split; [lia|]. split; [reflexivity|].
    split; [by apply neg_index_pair_ago|].
    split; [by apply crosses_over_line|].
    intros j p q Hj. lia.
  - destruct (IH (S i) c ltac:(lia) Hscan) as (Hr & Hw & Hp & Ho & Hmin).
    split; [lia|]. split; [done|]. split; [done|]. split; [done|].
    intros j p q Hj Hpair Hover.
    destruct (decide (j = i)) as [->|Hne].
    + apply neg_index_pair_ago in Hpair as [Hp' Hq']; [|done].
      rewrite Ep in Hp'. rewrite Eq in Hq'.
      injection Hp' as <-. injection Hq' as <-.
      apply crosses_over_line in Hover. congruence.
    + apply (Hmin j p q); [lia|done|done].
Qed.

(** A loop that finds nothing has seen no pair over the line. *)
Lemma scan_from_None (h : list Q) (line : Q) (w : nat) :
  forall n i,
    (1 <= i)%nat -> (i + n <= length h)%nat ->
    scan_from h line w i n = None ->
    forall j p q, (i <= j < i + n)%nat ->
      pair_ago h j p q -> ~ over_line line p q.
Proof.
  induction n as [|n IH]; intros i Hi Hlen Hscan j p q Hj Hpair Hover; [lia|].
  simpl in Hscan.
  destruct (neg_index_is_Some h (S i) ltac:(lia)) as [p0 Ep].
  destruct (neg_index_is_Some h i ltac:(lia)) as [q0 Eq].
  rewrite Ep, Eq in Hscan.
  destruct (crosses line p0 q0) eqn:Ec; [discriminate|].
  destruct (decide (j = i)) as [->|Hne].
  - apply neg_index_pair_ago in Hpair as [Hp' Hq']; [|done].
    rewrite Ep in Hp'. rewrite Eq in Hq'.
    injection Hp' as <-. injection Hq' as <-.
    apply crosses_over_line in Hover. congruence.
  - apply (IH (S i) ltac:(lia) ltac:(lia) Hscan j p q); [lia|done|done].
Qed.

Lemma crossing_scan_Some (cfg : config) (h : list Q) (line : Q) (c : crossing) :
  crossing_scan cfg h line = Some c ->
  scanned cfg h (frames_ago c)
  /\ pair_ago h (frames_ago c) (prev_y c) (curr_y c)
  /\ over_line line (prev_y c) (curr_y c)
  /\ forall j p q, (j < frames_ago c)%nat ->
       pair_ago h j p q -> ~ over_line line p q.
Proof.
  unfold crossing_scan, scanned. intros Hscan.
  destruct (2 <=? length h)%nat; [|discriminate].
  apply scan_from_Some in Hscan as (Hr & _ & Hp & Ho & Hmin); [|lia].
  split; [lia|]. split; [done|]. split; [done|].
  intros j p q Hj Hpair. apply (Hmin j p q); [|done].
  destruct Hpair as [? _]. lia.
Qed.

Lemma crossing_scan_None (cfg : config) (h : list Q) (line : Q) :
  crossing_scan cfg h line = None ->
  forall j p q, scanned cfg h j -> pair_ago h j p q -> ~ over_line line p q.
Proof.
  unfold crossing_scan, scanned. intros Hscan j p q Hj.
  destruct (Nat.leb_spec 2 (length h)) as [Hlen|Hlen].
  - assert (H1 : (1 <= 1)%nat) by lia.
    assert (H2 : (1 + (Nat.min (crossing_check_window cfg) (length h) - 1)
                  <= length h)%nat) by lia.
    apply (scan_from_None h line _ _ _ H1 H2 Hscan). lia.
  - intros _ _. lia.
Qed.

Lemma crossing_scan_is_Some (cfg : config) (h : list Q) (line : Q) :
  is_Some (crossing_scan cfg h line) <->
  exists i p q, scanned cfg h i /\ pair_ago h i p q /\ over_line line p q.
Proof.
  split.
  - intros [c Hc]. apply crossing_scan_Some in Hc as (Hs & Hp & Ho & _).
    by exists (frames_ago c), (prev_y c), (curr_y c).
  - intros (i & p & q & Hs & Hp & Ho).
    destruct (crossing_scan cfg h line) as [c|] eqn:Hc; [by exists c|].
    exfalso. by apply (crossing_scan_None cfg h line Hc i p q).
Qed.

(** C3. The scan reports a crossing exactly when one of the pairs it
    looks at goes over the line ([prev_y < line <= curr_y]); what it
    reports is the most recent such pair, with its distance in frames
    and its two positions; on the history 10, 20, 30 with the line at 25
    it reports the pair 20, 30. *)
Theorem crossing_scan_first_crossing (cfg : config) (h : list Q) (line : Q) :
  (is_Some (crossing_scan cfg h line) <->
     exists i p q, scanned cfg h i /\ pair_ago h i p q /\ over_line line p q)
  /\ (forall c, crossing_scan cfg h line = Some c ->
        scanned cfg h (frames_ago c)
        /\ pair_ago h (frames_ago c) (prev_y c) (curr_y c)
        /\ over_line line (prev_y c) (curr_y c)
        /\ forall j p q, (j < frames_ago c)%nat ->
             pair_ago h j p q -> ~ over_line line p q)
  /\ crossing_scan default_config [10#1; 20#1; 30#1]%Q (25#1)
     = Some {| frames_ago := 1; prev_y := 20#1; curr_y := 30#1;
               window_checked := 3 |}.
Proof.
  split; [|split; [apply crossing_scan_Some | reflexivity]].
  apply crossing_scan_is_Some.
Qed.

Lemma crossing_scan_first_crossing_witness :
  crossing_scan default_config [10#1; 20#1; 30#1]%Q (25#1)
  = Some {| frames_ago := 1; prev_y := 20#1; curr_y := 30#1;
            window_checked := 3 |}
  /\ pair_ago [10#1; 20#1; 30#1]%Q 1 (20#1) (30#1)
  /\ over_line (25#1) (20#1) (30#1).
Proof.
  split; [reflexivity|].
  destruct (proj1 (proj2 (crossing_scan_first_crossing default_config
                            [10#1; 20#1; 30#1]%Q (25#1)))
              {| frames_ago := 1; prev_y := 20#1; curr_y := 30#1;
                 window_checked := 3 |} eq_refl)
    as (_ & Hp & Ho & _).
  exact (conj Hp Ho).
Defined.

Lemma history_9_oldest_pair :
  pair_ago history_9 8 (10#1) (30#1) /\ over_line (25#1) (10#1) (30#1).
Proof.
  split; [split; [lia | split; reflexivity] | split; reflexivity || discriminate].
Qed.

(** C4, as stated, fails: with nine positions in the history and the
    window at 8, the pair 8 frames ago goes over the line and the scan
    reports nothing. *)
Lemma crossing_scan_misses_eighth_pair :
  ~ scans_window_pairs default_config history_9 (25#1).
Proof.
  intros H.
  destruct history_9_oldest_pair as [Hp Ho].
  destruct (H ltac:(simpl; lia) 8%nat (10#1) (30#1) ltac:(simpl; lia) Hp Ho)
    as [c Hc].
  vm_compute in Hc. discriminate.
Qed.

(** C4, amended. On a history of at least [crossing_check_window + 1]
    positions the scan looks at the pairs among the last
    [crossing_check_window] positions, which are the
    [crossing_check_window - 1] (by default 7) most recent pairs: it
    reports a crossing exactly when one of these goes over the line, and
    never one further back. *)
Theorem crossing_scan_window_frames (cfg : config) (h : list Q) (line : Q) :
  (crossing_check_window cfg + 1 <= length h)%nat ->
  (is_Some (crossing_scan cfg h line) <->
     exists i p q, (1 <= i <= crossing_check_window cfg - 1)%nat
                   /\ pair_ago h i p q /\ over_line line p q)
  /\ (forall c, crossing_scan cfg h line = Some c ->
        (1 <= frames_ago c <= crossing_check_window cfg - 1)%nat).
Proof.
  intros Hlen.
  assert (Hs : forall i, scanned cfg h i <->
                 (1 <= i <= crossing_check_window cfg - 1)%nat).
  { intros i. unfold scanned. lia. }
  split.
  - rewrite crossing_scan_is_Some. split; intros (i & p & q & Hi & Hrest);
      exists i, p, q; (split; [by apply Hs | done]).
  - intros c Hc. apply Hs. by apply crossing_scan_Some in Hc as [? _].
Qed.

Lemma crossing_scan_window_frames_witness :
  (crossing_check_window default_config + 1 <= length history_9)%nat
  /\ (is_Some (crossing_scan default_config history_9 (25#1)) <->
        exists i p q, (1 <= i <= crossing_check_window default_config - 1)%nat
                      /\ pair_ago history_9 i p q /\ over_line (25#1) p q).
Proof.
  split; [simpl; lia|].
  apply (crossing_scan_window_frames default_config history_9 (25#1)).
  simpl; lia.
Defined.

(** ** Traffic-light state *)

Lemma classify_latest_last (latest : light_info) (dets : list detection) :
  classify_latest latest dets = default latest (last_classified dets).
Proof.
  unfold classify_latest, last_classified.
  induction dets as [|det dets IH] using rev_ind; [reflexivity|].
  rewrite fold_left_app, omap_app, IH. simpl.
  destruct (colour_wanted det); simpl.
  - destruct (classified det) as [li|]; simpl.
    + by rewrite last_snoc.
    + by rewrite app_nil_r.
  - by rewrite app_nil_r.
Qed.

(** C6, as stated, fails: a frame whose only traffic light is classified
    green turns a red [latest_traffic_light] into green. *)
Lemma resolver_demotes_red_to_green :
  ~ sticky_without_red red_09 [green_light_detection].
Proof.
  intros H. specialize (H eq_refl). vm_compute in H. discriminate.
Qed.

(** C6, amended. In a frame in which no detected traffic light is
    classified red, the consensus step changes nothing, so
    [latest_traffic_light] is the previous one when the classifier ran
    on no box of the frame, and otherwise what the classifier said of
    the last box it ran on (yellow, green and unknown included). *)
Theorem resolver_without_red (latest : light_info) (dets : list detection) :
  red_lights (traffic_lights dets) = [] ->
  resolve_traffic_light latest dets = default latest (last_classified dets).
Proof.
  intros Hred. unfold resolve_traffic_light, consensus.
  rewrite Hred. apply classify_latest_last.
Qed.

Lemma resolver_without_red_witness :
  red_lights (traffic_lights [green_light_detection]) = []
  /\ resolve_traffic_light red_09 [green_light_detection]
     = {| color := "green"; confidence := 8 # 10 |}.
Proof.
  split; [reflexivity|].
  apply (resolver_without_red red_09 [green_light_detection]). reflexivity.
Defined.

Lemma traffic_lights_pass_nil (dets : list detection) :
  has_traffic_lights dets = false -> traffic_lights_pass dets = [].
Proof.
  unfold has_traffic_lights, traffic_lights_pass.
  induction dets as [|det dets IH]; [done|]. simpl.
  intros [Hd Hrest]%orb_false_iff. rewrite Hd. by apply IH.
Qed.

Lemma classify_detection_class_name (det : detection) :
  class_name (classify_detection det) = class_name det.
Proof.
  unfold classify_detection.
  destruct (colour_wanted det); [|done]. by destruct (classified det).
Qed.

Lemma has_traffic_lights_classified (dets : list detection) :
  has_traffic_lights (map classify_detection dets) = has_traffic_lights dets.
Proof.
  unfold has_traffic_lights.
  induction dets as [|det dets IH]; [done|]. simpl.
  by rewrite classify_detection_class_name, IH.
Qed.

(** The light state persists over a frame in which no traffic light is
    detected and the classifier runs on no box. *)
Lemma resolver_sticky_without_light (latest : light_info) (dets : list detection) :
  has_traffic_lights dets = false ->
  last_classified dets = None ->
  resolve_traffic_light latest dets = latest.
Proof.
  intros Hl Hc. unfold resolve_traffic_light, traffic_lights.
  rewrite (traffic_lights_pass_nil dets Hl).
  rewrite traffic_lights_pass_nil by by rewrite has_traffic_lights_classified.
  simpl. by rewrite classify_latest_last, Hc.
Qed.

(** ** Jump check *)

Lemma jump_check_suspicious_jumps (cfg : config) (st : status) (y : Q) :
  suspicious_jumps (jump_check cfg st y) = suspicious_jumps st
  \/ (suspicious_jumps (jump_check cfg st y) = suspicious_jumps st + 1
      /\ suspicious_jumps st + 1 <= 2)
  \/ (suspicious_jumps (jump_check cfg st y) = 0
      /\ crossed_during_red (jump_check cfg st y) = false
      /\ 2 < suspicious_jumps st + 1).
Proof.
  unfold jump_check.
  destruct (last_position st) as [last_y|]; [|by left].
  destruct (Qltb _ _); [|by left]. simpl.
  destruct (Z.ltb_spec 2 (suspicious_jumps st + 1)); simpl.
  - right; right. lia.
  - right; left. lia.
Qed.

Lemma jump_check_bounded (cfg : config) (st : status) (y : Q) :
  jumps_bounded st -> jumps_bounded (jump_check cfg st y).
Proof.
  unfold jumps_bounded. intros Hb.
  destruct (jump_check_suspicious_jumps cfg st y) as [H|[[H ?]|[H _]]];
    rewrite H; lia.
Qed.

(** The jump that takes the counter past 2 clears the sticky flag and
    the counter. *)
Lemma jump_check_third_jump (cfg : config) (st : status) (y last_y : Q) :
  last_position st = Some last_y ->
  (max_position_jump cfg < Qabs (y - last_y))%Q ->
  suspicious_jumps st = 2 ->
  crossed_during_red (jump_check cfg st y) = false
  /\ suspicious_jumps (jump_check cfg st y) = 0.
Proof.
  intros Hl Hj Hs. unfold jump_check. rewrite Hl.
  apply Qltb_lt in Hj. rewrite Hj. simpl. rewrite Hs. simpl. done.
Qed.

Lemma update_status_suspicious_jumps cfg st h y :
  suspicious_jumps (update_status cfg st h y)
  = suspicious_jumps (jump_check cfg st y).
Proof. reflexivity. Qed.

Lemma update_status_bounded cfg st h y :
  jumps_bounded st -> jumps_bounded (update_status cfg st h y).
Proof. intros Hb. by apply (jump_check_bounded cfg st y) in Hb. Qed.

Lemma new_status_bounded : jumps_bounded new_status.
Proof. unfold jumps_bounded. simpl. lia. Qed.

(** ** Evaluation of one track *)

Lemma evaluate_suspicious_jumps cfg line red h moving st :
  suspicious_jumps (ev_status (evaluate cfg line red h moving st))
  = suspicious_jumps st.
Proof.
  unfold evaluate. simpl.
  destruct (bool_decide _), moving, red; simpl;
    destruct (suspicious_jumps st <=? 1) eqn:E; simpl; rewrite ?E; reflexivity.
Qed.

Lemma evaluate_bounded cfg line red h moving st :
  jumps_bounded st ->
  jumps_bounded (ev_status (evaluate cfg line red h moving st)).
Proof. unfold jumps_bounded. by rewrite evaluate_suspicious_jumps. Qed.

(** With the light not red, the evaluation leaves the sticky flag false,
    whatever the history, the line and the movement. *)
Lemma evaluate_not_red cfg line h moving st :
  crossed_during_red (ev_status (evaluate cfg line false h moving st)) = false.
Proof.
  reflexivity.
Qed.

(** The flag of the frame is the sticky flag and the red light. *)
Lemma evaluate_is_violation cfg line red h moving st :
  ev_is_violation (evaluate cfg line red h moving st)
  = (crossed_during_red (ev_status (evaluate cfg line red h moving st))
     && red)%bool.
Proof. reflexivity. Qed.

Lemma evaluate_crossed_red cfg line red h moving st :
  crossed_during_red (ev_status (evaluate cfg line red h moving st)) = true ->
  red = true.
Proof.
  destruct red; [done|]. by rewrite evaluate_not_red.
Qed.

(** A record is emitted exactly on an active crossing with the counter
    at most 1. *)
Lemma evaluate_emit cfg line red h moving st :
  ev_emit (evaluate cfg line red h moving st)
  = (bool_decide (is_Some (crossing_scan cfg h line)) && moving && red
     && (suspicious_jumps st <=? 1))%bool.
Proof.
  unfold evaluate. simpl.
  destruct (bool_decide _), moving, red; simpl;
    destruct (suspicious_jumps st <=? 1) eqn:E; simpl; rewrite ?E; reflexivity.
Qed.

(** ** Tracking pass *)

Lemma update_track_spec (cfg : config) (c : controller) (t : Z * bbox) :
  exists h' y,
    update_track cfg c t
    = ({| vehicle_history := <[t.1 := h']> (vehicle_history c);
          vehicle_statuses :=
            <[t.1 := update_status cfg
                       (default new_status (vehicle_statuses c !! t.1)) h' y]>
              (vehicle_statuses c);
          latest_traffic_light := latest_traffic_light c |},
       {| tv_id := t.1; tv_bbox := t.2; center_y := y;
          is_moving :=
            moving_of
              (recent_movement
                 (update_status cfg
                    (default new_status (vehicle_statuses c !! t.1)) h' y));
          is_violation := false |}).
Proof.
  destruct t as [tid [[[x1 y1] x2] y2]]. simpl. eauto.
Qed.

Lemma update_tracks_cons cfg c t ts :
  update_tracks cfg c (t :: ts)
  = (fst (update_tracks cfg (fst (update_track cfg c t)) ts),
     snd (update_track cfg c t)
       :: snd (update_tracks cfg (fst (update_track cfg c t)) ts)).
Proof.
  simpl. destruct (update_track cfg c t) as [c1 tv]. simpl.
  by destruct (update_tracks cfg c1 ts).
Qed.

Lemma update_tracks_ids cfg ts : forall c,
  map tv_id (snd (update_tracks cfg c ts)) = map fst ts.
Proof.
  induction ts as [|t ts IH]; intros c; [reflexivity|].
  rewrite update_tracks_cons. simpl. rewrite IH.
  destruct (update_track_spec cfg c t) as (h' & y & ->). reflexivity.
Qed.

Lemma update_tracks_not_violating cfg ts : forall c,
  Forall (fun tv => is_violation tv = false) (snd (update_tracks cfg c ts)).
Proof.
  induction ts as [|t ts IH]; intros c; [constructor|].
  rewrite update_tracks_cons. simpl. constructor; [|apply IH].
  destruct (update_track_spec cfg c t) as (h' & y & ->). reflexivity.
Qed.

Lemma update_tracks_latest cfg ts : forall c,
  latest_traffic_light (fst (update_tracks cfg c ts)) = latest_traffic_light c.
Proof.
  induction ts as [|t ts IH]; intros c; [reflexivity|].
  rewrite update_tracks_cons. simpl. rewrite IH.
  destruct (update_track_spec cfg c t) as (h' & y & ->). reflexivity.
Qed.

Lemma update_tracks_dom cfg ts : forall c,
  dom (vehicle_history (fst (update_tracks cfg c ts)))
    =@{gset Z} dom (vehicle_history c) ∪ list_to_set (map fst ts)
  /\ dom (vehicle_statuses (fst (update_tracks cfg c ts)))
    =@{gset Z} dom (vehicle_statuses c) ∪ list_to_set (map fst ts).
Proof.
  induction ts as [|t ts IH]; intros c.
  - simpl. split; set_solver.
  - rewrite update_tracks_cons. simpl.
    destruct (IH (fst (update_track cfg c t))) as [-> ->].
    destruct (update_track_spec cfg c t) as (h' & y & ->). simpl.
    rewrite !dom_insert_L. split; set_solver.
Qed.

Lemma update_tracks_bounded cfg ts : forall c,
  map_Forall (fun _ st => jumps_bounded st) (vehicle_statuses c) ->
  map_Forall (fun _ st => jumps_bounded st)
    (vehicle_statuses (fst (update_tracks cfg c ts))).
Proof.
  induction ts as [|t ts IH]; intros c Hc; [done|].
  rewrite update_tracks_cons. simpl. apply IH.
  destruct (update_track_spec cfg c t) as (h' & y & ->). simpl.
  apply map_Forall_insert_2; [|done].
  apply update_status_bounded.
  destruct (vehicle_statuses c !! t.1) as [st|] eqn:E; simpl.
  - by apply (Hc _ _ E).
  - apply new_status_bounded.
Qed.

Lemma update_track_exact (cfg : config) (c : controller) (t : Z * bbox) :
  update_track cfg c t
  = (let y := box_center_y t.2 in
     let h' := deque_append (position_history_size cfg)
                 (default [] (vehicle_history c !! t.1)) y in
     let st' := update_status cfg
                  (default new_status (vehicle_statuses c !! t.1)) h' y in
     ({| vehicle_history := <[t.1 := h']> (vehicle_history c);
         vehicle_statuses := <[t.1 := st']> (vehicle_statuses c);
         latest_traffic_light := latest_traffic_light c |},
      {| tv_id := t.1; tv_bbox := t.2; center_y := y;
         is_moving := moving_of (recent_movement st');
         is_violation := false |})).
Proof. by destruct t as [tid [[[x1 y1] x2] y2]]. Qed.

(** What the loop over the tracks leaves alone. *)
Lemma update_track_lookup_ne cfg c t (k : Z) :
  k <> t.1 ->
  vehicle_history (fst (update_track cfg c t)) !! k = vehicle_history c !! k
  /\ vehicle_statuses (fst (update_track cfg c t)) !! k
     = vehicle_statuses c !! k.
Proof.
  intros Hne. rewrite update_track_exact. cbv zeta.
  cbn [fst vehicle_history vehicle_statuses].
  by rewrite !lookup_insert_ne.
Qed.

Lemma update_tracks_lookup_other cfg ts : forall c (k : Z),
  k ∉ map fst ts ->
  vehicle_history (fst (update_tracks cfg c ts)) !! k = vehicle_history c !! k
  /\ vehicle_statuses (fst (update_tracks cfg c ts)) !! k
     = vehicle_statuses c !! k.
Proof.
  induction ts as [|t ts IH]; intros c k Hk; [done|].
  rewrite update_tracks_cons. cbn [fst]. simpl in Hk.
  apply not_elem_of_cons in Hk as [Hne Hk].
  destruct (IH (fst (update_track cfg c t)) k Hk) as [-> ->].
  by apply update_track_lookup_ne.
Qed.

(** With distinct IDs, each track of the frame is updated once. *)
Lemma update_tracks_lookup cfg ts : forall c (k : Z) box,
  NoDup (map fst ts) ->
  (k, box) ∈ ts ->
  vehicle_history (fst (update_tracks cfg c ts)) !! k
  = Some (deque_append (position_history_size cfg)
            (default [] (vehicle_history c !! k)) (box_center_y box))
  /\ vehicle_statuses (fst (update_tracks cfg c ts)) !! k
     = Some (update_status cfg (default new_status (vehicle_statuses c !! k))
               (deque_append (position_history_size cfg)
                  (default [] (vehicle_history c !! k)) (box_center_y box))
               (box_center_y box)).
Proof.
  induction ts as [|t ts IH]; intros c k box Hnd Hin;
    [by apply elem_of_nil in Hin|].
  simpl in Hnd. apply NoDup_cons in Hnd as [Hfresh Hnd].
  rewrite update_tracks_cons. cbn [fst].
  apply elem_of_cons in Hin as [<-|Hin].
  - destruct (update_tracks_lookup_other cfg ts (fst (update_track cfg c (k, box)))
                k Hfresh) as [-> ->].
    rewrite update_track_exact. cbv zeta.
    cbn [fst snd vehicle_history vehicle_statuses].
    by rewrite !lookup_insert_eq.
  - assert (Hne : k <> t.1).
    { intros ->. apply Hfresh. apply list_elem_of_fmap. by exists (t.1, box). }
    destruct (IH (fst (update_track cfg c t)) k box Hnd Hin) as [-> ->].
    by destruct (update_track_lookup_ne cfg c t k Hne) as [-> ->].
Qed.

(** ** Cleanup *)

Lemma elem_of_old_ids (c : controller) (ids : list Z) (k : Z) :
  k ∈ old_ids c ids <-> k ∈ dom (vehicle_history c) /\ k ∉ ids.
Proof.
  unfold old_ids. rewrite elem_of_elements, elem_of_difference.
  by rewrite elem_of_list_to_set.
Qed.

Lemma cleanup_history_lookup (c : controller) (ids : list Z) (k : Z) :
  vehicle_history (cleanup_old_vehicle_data c ids) !! k
  = if decide (k ∈ ids) then vehicle_history c !! k else None.
Proof.
  unfold cleanup_old_vehicle_data. simpl.
  destruct (decide (k ∈ ids)) as [Hin|Hout].
  - apply lookup_foldr_delete_not_elem_of.
    rewrite elem_of_old_ids. tauto.
  - destruct (vehicle_history c !! k) as [h|] eqn:E.
    + apply lookup_foldr_delete. apply elem_of_old_ids.
      split; [|done]. apply elem_of_dom. by exists h.
    + rewrite lookup_foldr_delete_not_elem_of; [done|].
      rewrite elem_of_old_ids, elem_of_dom, E. intros [[? ?] _]. done.
Qed.

Lemma cleanup_statuses_lookup (c : controller) (ids : list Z) (k : Z) :
  vehicle_statuses (cleanup_old_vehicle_data c ids) !! k
  = if decide (k ∈ ids) then vehicle_statuses c !! k
    else if decide (k ∈ dom (vehicle_history c)) then None
         else vehicle_statuses c !! k.
Proof.
  unfold cleanup_old_vehicle_data. simpl.
  destruct (decide (k ∈ ids)) as [Hin|Hout].
  - apply lookup_foldr_delete_not_elem_of.
    rewrite elem_of_old_ids. tauto.
  - destruct (decide (k ∈ dom (vehicle_history c))) as [Hd|Hd].
    + apply lookup_foldr_delete. by apply elem_of_old_ids.
    + apply lookup_foldr_delete_not_elem_of.
      rewrite elem_of_old_ids. tauto.
Qed.

(** The call leaves the entries of the current tracks alone, whether
    the class defines the method or not. *)
Lemma cleanup_call_lookup (cfg : config) (c : controller) (ids : list Z)
    (k : Z) :
  k ∈ ids ->
  vehicle_history (cleanup_call cfg c ids) !! k = vehicle_history c !! k
  /\ vehicle_statuses (cleanup_call cfg c ids) !! k = vehicle_statuses c !! k.
Proof.
  intros Hin. unfold cleanup_call. destruct (defines_cleanup cfg); [|done].
  rewrite cleanup_history_lookup, cleanup_statuses_lookup.
  by rewrite !decide_True.
Qed.

Lemma cleanup_call_latest (cfg : config) (c : controller) (ids : list Z) :
  latest_traffic_light (cleanup_call cfg c ids) = latest_traffic_light c.
Proof. unfold cleanup_call. by destruct (defines_cleanup cfg). Qed.

Lemma tracking_pass_eq (cfg : config) (c : controller) (f : frame_input) :
  tracking_pass cfg c f
  = (cleanup_call cfg
       (fst (update_tracks cfg c (frame_tracks cfg f))) (frame_track_ids cfg f),
     snd (update_tracks cfg c (frame_tracks cfg f))).
Proof.
  unfold tracking_pass, frame_track_ids.
  rewrite <- (update_tracks_ids cfg (frame_tracks cfg f) c).
  by destruct (update_tracks cfg c (frame_tracks cfg f)).
Qed.

Lemma tracking_pass_ids cfg c f :
  map tv_id (snd (tracking_pass cfg c f)) = frame_track_ids cfg f.
Proof. rewrite tracking_pass_eq. apply update_tracks_ids. Qed.

(** With distinct IDs, what the tracking pass leaves for a track of
    the frame. *)
Lemma tracking_pass_lookup cfg c f (k : Z) box :
  NoDup (frame_track_ids cfg f) ->
  (k, box) ∈ frame_tracks cfg f ->
  vehicle_history (fst (tracking_pass cfg c f)) !! k
  = Some (deque_append (position_history_size cfg)
            (default [] (vehicle_history c !! k)) (box_center_y box))
  /\ vehicle_statuses (fst (tracking_pass cfg c f)) !! k
     = Some (update_status cfg (default new_status (vehicle_statuses c !! k))
               (deque_append (position_history_size cfg)
                  (default [] (vehicle_history c !! k)) (box_center_y box))
               (box_center_y box)).
Proof.
  intros Hnd Hin.
  assert (Hid : k ∈ frame_track_ids cfg f).
  { apply list_elem_of_fmap. by exists (k, box). }
  rewrite tracking_pass_eq. cbn [fst].
  destruct (cleanup_call_lookup cfg
              (fst (update_tracks cfg c (frame_tracks cfg f)))
              (frame_track_ids cfg f) k Hid) as [-> ->].
  by apply update_tracks_lookup.
Qed.

Lemma tracking_pass_latest cfg c f :
  latest_traffic_light (fst (tracking_pass cfg c f)) = latest_traffic_light c.
Proof.
  rewrite tracking_pass_eq. cbn [fst]. rewrite cleanup_call_latest.
  apply update_tracks_latest.
Qed.

(** After the tracking pass both maps hold the frame's tracks; where
    the class defines the cleanup, they hold nothing else. *)
Lemma tracking_pass_history cfg c f (k : Z) :
  (k ∈ frame_track_ids cfg f ->
     is_Some (vehicle_history (fst (tracking_pass cfg c f)) !! k))
  /\ (defines_cleanup cfg = true -> k ∉ frame_track_ids cfg f ->
     vehicle_history (fst (tracking_pass cfg c f)) !! k = None).
Proof.
  rewrite tracking_pass_eq. cbn [fst]. split.
  - intros Hin.
    rewrite (proj1 (cleanup_call_lookup cfg _ _ k Hin)).
    apply elem_of_dom.
    destruct (update_tracks_dom cfg (frame_tracks cfg f) c) as [-> _].
    apply elem_of_union_r, elem_of_list_to_set. exact Hin.
  - intros Hd Hout. unfold cleanup_call. rewrite Hd.
    rewrite cleanup_history_lookup. by rewrite decide_False.
Qed.

Lemma tracking_pass_statuses cfg c f (k : Z) :
  (k ∈ frame_track_ids cfg f ->
     is_Some (vehicle_statuses (fst (tracking_pass cfg c f)) !! k))
  /\ (defines_cleanup cfg = true -> same_ids c -> k ∉ frame_track_ids cfg f ->
     vehicle_statuses (fst (tracking_pass cfg c f)) !! k = None).
Proof.
  rewrite tracking_pass_eq. cbn [fst].
  destruct (update_tracks_dom cfg (frame_tracks cfg f) c) as [Hh Hs].
  split.
  - intros Hin.
    rewrite (proj2 (cleanup_call_lookup cfg _ _ k Hin)).
    apply elem_of_dom. rewrite Hs.
    apply elem_of_union_r, elem_of_list_to_set. exact Hin.
  - intros Hd Hsame Hout. unfold cleanup_call. rewrite Hd.
    rewrite cleanup_statuses_lookup. rewrite decide_False by done.
    destruct (decide _) as [|Hd']; [done|].
    apply not_elem_of_dom. rewrite Hs. rewrite Hh in Hd'.
    unfold same_ids in Hsame. rewrite Hsame. exact Hd'.
Qed.

Lemma update_tracks_same_ids cfg c ts :
  same_ids c -> same_ids (fst (update_tracks cfg c ts)).
Proof.
  unfold same_ids. intros Hsame.
  destruct (update_tracks_dom cfg ts c) as [-> ->]. by rewrite Hsame.
Qed.

Lemma tracking_pass_same_ids cfg c f :
  same_ids c -> same_ids (fst (tracking_pass cfg c f)).
Proof.
  intros Hsame.
  apply (update_tracks_same_ids cfg c (frame_tracks cfg f)) in Hsame.
  rewrite tracking_pass_eq. cbn [fst]. unfold cleanup_call.
  destruct (defines_cleanup cfg); [|done].
  unfold same_ids in *. apply set_eq. intros k.
  rewrite !elem_of_dom, cleanup_history_lookup, cleanup_statuses_lookup.
  destruct (decide (k ∈ frame_track_ids cfg f)) as [Hin|Hout].
  - rewrite <- !elem_of_dom. by rewrite Hsame.
  - destruct (decide _) as [Hd|Hd]; [done|].
    rewrite <- elem_of_dom, Hsame. split; [done|]. by intros [? ?].
Qed.

Lemma tracking_pass_bounded cfg c f :
  map_Forall (fun _ st => jumps_bounded st) (vehicle_statuses c) ->
  map_Forall (fun _ st => jumps_bounded st)
    (vehicle_statuses (fst (tracking_pass cfg c f))).
Proof.
  intros Hc. rewrite tracking_pass_eq. cbn [fst]. unfold cleanup_call.
  destruct (defines_cleanup cfg).
  - simpl. apply map_Forall_foldr_delete. by apply update_tracks_bounded.
  - by apply update_tracks_bounded.
Qed.

Lemma tracking_pass_not_violating cfg c f :
  Forall (fun tv => is_violation tv = false) (snd (tracking_pass cfg c f)).
Proof. rewrite tracking_pass_eq. apply update_tracks_not_violating. Qed.

(** ** Evaluation loop *)

Lemma evaluate_tracks_cons cfg line red hist acc tv tvs :
  evaluate_tracks cfg line red hist acc (tv :: tvs)
  = (fst (evaluate_tracks cfg line red hist
            (fst (evaluate_track cfg line red hist acc tv)) tvs),
     snd (evaluate_track cfg line red hist acc tv)
       :: snd (evaluate_tracks cfg line red hist
                 (fst (evaluate_track cfg line red hist acc tv)) tvs)).
Proof.
  simpl. destruct (evaluate_track cfg line red hist acc tv) as [acc1 tv'].
  simpl. by destruct (evaluate_tracks cfg line red hist acc1 tvs).
Qed.

(** One iteration on a track with entries in both maps. *)
Lemma evaluate_track_Some cfg line red hist statuses vs tv h st :
  hist !! tv_id tv = Some h -> statuses !! tv_id tv = Some st ->
  evaluate_track cfg line red hist (statuses, vs) tv
  = (<[tv_id tv := ev_status (evaluate cfg line red h (is_moving tv) st)]>
       statuses,
     if ev_emit (evaluate cfg line red h (is_moving tv) st)
     then vs ++ [violation_record cfg line tv
                   (ev_crossing (evaluate cfg line red h (is_moving tv) st)) h]
     else vs,
     set_is_violation
       (ev_is_violation (evaluate cfg line red h (is_moving tv) st)) tv).
Proof. intros Hh Hs. unfold evaluate_track. by rewrite Hh, Hs. Qed.

Lemma evaluate_track_id cfg line red hist acc tv :
  tv_id (snd (evaluate_track cfg line red hist acc tv)) = tv_id tv.
Proof.
  unfold evaluate_track. destruct acc as [statuses vs].
  destruct (hist !! tv_id tv), (statuses !! tv_id tv); reflexivity.
Qed.

Lemma evaluate_track_lookup_ne cfg line red hist acc tv (k : Z) :
  k <> tv_id tv ->
  (fst (fst (evaluate_track cfg line red hist acc tv))) !! k = fst acc !! k.
Proof.
  intros Hne. unfold evaluate_track. destruct acc as [statuses vs].
  destruct (hist !! tv_id tv), (statuses !! tv_id tv); simpl; try done.
  by rewrite lookup_insert_ne.
Qed.

Lemma evaluate_track_is_Some cfg line red hist acc tv (k : Z) :
  is_Some (fst acc !! k) ->
  is_Some ((fst (fst (evaluate_track cfg line red hist acc tv))) !! k).
Proof.
  intros Hk. destruct (decide (k = tv_id tv)) as [->|Hne].
  - unfold evaluate_track. destruct acc as [statuses vs].
    destruct (hist !! tv_id tv), (statuses !! tv_id tv); simpl; try done.
    rewrite lookup_insert_eq. eauto.
  - by rewrite evaluate_track_lookup_ne.
Qed.

Lemma evaluate_tracks_ids cfg line red hist tvs : forall acc,
  map tv_id (snd (evaluate_tracks cfg line red hist acc tvs)) = map tv_id tvs.
Proof.
  induction tvs as [|tv tvs IH]; intros acc; [reflexivity|].
  rewrite evaluate_tracks_cons. simpl.
  by rewrite IH, evaluate_track_id.
Qed.

Lemma evaluate_tracks_lookup_other cfg line red hist tvs (k : Z) : forall acc,
  k ∉ map tv_id tvs ->
  (fst (fst (evaluate_tracks cfg line red hist acc tvs))) !! k = fst acc !! k.
Proof.
  induction tvs as [|tv tvs IH]; intros acc Hk; [reflexivity|].
  rewrite evaluate_tracks_cons. simpl in *.
  apply not_elem_of_cons in Hk as [Hne Hk].
  rewrite IH by done. by apply evaluate_track_lookup_ne.
Qed.

Lemma evaluate_tracks_is_Some cfg line red hist tvs (k : Z) : forall acc,
  is_Some (fst acc !! k) ->
  is_Some ((fst (fst (evaluate_tracks cfg line red hist acc tvs))) !! k).
Proof.
  induction tvs as [|tv tvs IH]; intros acc Hk; [done|].
  rewrite evaluate_tracks_cons. simpl.
  by apply IH, evaluate_track_is_Some.
Qed.

Lemma evaluate_tracks_bounded cfg line red hist tvs : forall acc,
  map_Forall (fun _ st => jumps_bounded st) (fst acc) ->
  map_Forall (fun _ st => jumps_bounded st)
    (fst (fst (evaluate_tracks cfg line red hist acc tvs))).
Proof.
  induction tvs as [|tv tvs IH]; intros acc Hacc; [done|].
  rewrite evaluate_tracks_cons. simpl. apply IH.
  unfold evaluate_track. destruct acc as [statuses vs].
  destruct (hist !! tv_id tv) as [h|]; [|done].
  destruct (statuses !! tv_id tv) as [st|] eqn:E; [|done]. simpl.
  apply map_Forall_insert_2; [|done].
  apply evaluate_bounded. by apply (Hacc _ _ E).
Qed.

Lemma evaluate_track_dom cfg line red hist acc tv :
  dom (fst (fst (evaluate_track cfg line red hist acc tv)))
  =@{gset Z} dom (fst acc).
Proof.
  unfold evaluate_track. destruct acc as [statuses vs].
  destruct (hist !! tv_id tv) as [h|]; [|done].
  destruct (statuses !! tv_id tv) as [st|] eqn:E; [|done]. simpl.
  rewrite dom_insert_L.
  assert (tv_id tv ∈ dom statuses) by (apply elem_of_dom; eauto).
  set_solver.
Qed.

Lemma evaluate_tracks_dom cfg line red hist tvs : forall acc,
  dom (fst (fst (evaluate_tracks cfg line red hist acc tvs)))
  =@{gset Z} dom (fst acc).
Proof.
  induction tvs as [|tv tvs IH]; intros acc; [done|].
  rewrite evaluate_tracks_cons. simpl.
  by rewrite IH, evaluate_track_dom.
Qed.

(** With the light not red, every track the loop goes through ends with
    its sticky flag false. *)
Lemma evaluate_tracks_not_red cfg line hist tvs (k : Z) : forall acc,
  (forall tv, tv ∈ tvs -> is_Some (hist !! tv_id tv)) ->
  (exists st, fst acc !! k = Some st
              /\ (k ∈ map tv_id tvs \/ crossed_during_red st = false)) ->
  exists st',
    (fst (fst (evaluate_tracks cfg line false hist acc tvs))) !! k = Some st'
    /\ crossed_during_red st' = false.
Proof.
  induction tvs as [|tv tvs IH]; intros acc Hhist (st & Hst & Hk).
  - exists st. split; [done|]. destruct Hk as [Hk|]; [|done].
    by apply elem_of_nil in Hk.
  - rewrite evaluate_tracks_cons. cbn [fst].
    apply IH; [intros tv' Htv'; apply Hhist; by right|].
    destruct (decide (k = tv_id tv)) as [->|Hne].
    + destruct (Hhist tv ltac:(left)) as [h Hh].
      destruct acc as [statuses vs]. simpl in Hst.
      rewrite (evaluate_track_Some _ _ _ _ _ _ _ h st Hh Hst). simpl.
      rewrite lookup_insert_eq. eexists. split; [done|]. by right.
    + exists st. rewrite evaluate_track_lookup_ne by done.
      split; [done|]. destruct Hk as [Hk|Hk]; [|by right].
      simpl in Hk. apply elem_of_cons in Hk as [?|?]; [done|by left].
Qed.

(** With distinct track IDs, the flag of every track the loop went
    through is its sticky flag at the end of the loop and the red
    light. *)
Lemma evaluate_tracks_flags cfg line red hist tvs : forall acc,
  NoDup (map tv_id tvs) ->
  (forall tv, tv ∈ tvs ->
     is_Some (hist !! tv_id tv) /\ is_Some (fst acc !! tv_id tv)) ->
  Forall
    (fun tv' =>
       exists st,
         (fst (fst (evaluate_tracks cfg line red hist acc tvs))) !! tv_id tv'
           = Some st
         /\ is_violation tv' = (crossed_during_red st && red)%bool)
    (snd (evaluate_tracks cfg line red hist acc tvs)).
Proof.
  induction tvs as [|tv tvs IH]; intros acc Hnd Hin; [constructor|].
  rewrite evaluate_tracks_cons. cbn [fst snd].
  simpl in Hnd. apply NoDup_cons in Hnd as [Hfresh Hnd].
  destruct (Hin tv ltac:(left)) as [[h Hh] [st Hst]].
  destruct acc as [statuses vs]. simpl in Hst.
  constructor.
  - rewrite evaluate_track_id.
    rewrite evaluate_tracks_lookup_other by done.
    rewrite (evaluate_track_Some _ _ _ _ _ _ _ h st Hh Hst). simpl.
    rewrite lookup_insert_eq. eexists. split; [done|].
    apply evaluate_is_violation.
  - apply IH; [done|]. intros tv' Htv'.
    destruct (Hin tv' ltac:(by right)) as [Hh' Hs']. split; [done|].
    by apply evaluate_track_is_Some.
Qed.

(** ** The violation block and the frame *)

Lemma violation_pass_closed cfg c f tvs :
  evaluation_runs f tvs = false -> violation_pass cfg c f tvs = (c, [], tvs).
Proof.
  unfold evaluation_runs, violation_pass. intros Hg.
  destruct (violation_line_y f) as [line|]; [|done].
  rewrite bool_decide_eq_true_2 in Hg by eauto.
  rewrite andb_true_r in Hg. by rewrite Hg.
Qed.

Lemma violation_pass_open cfg c f tvs :
  evaluation_runs f tvs = true ->
  exists line,
    violation_line_y f = Some line
    /\ violation_pass cfg c f tvs
       = ({| vehicle_history := vehicle_history c;
             vehicle_statuses :=
               fst (fst (evaluate_tracks cfg line (is_red_light c)
                           (vehicle_history c) (vehicle_statuses c, []) tvs));
             latest_traffic_light := latest_traffic_light c |},
          snd (fst (evaluate_tracks cfg line (is_red_light c)
                      (vehicle_history c) (vehicle_statuses c, []) tvs)),
          snd (evaluate_tracks cfg line (is_red_light c)
                 (vehicle_history c) (vehicle_statuses c, []) tvs)).
Proof.
  unfold evaluation_runs, violation_pass. intros Hg.
  apply andb_true_iff in Hg as [Hg Hne].
  apply andb_true_iff in Hg as [Hl Hline].
  apply bool_decide_eq_true_1 in Hline as [line Hline].
  exists line. split; [done|]. rewrite Hline, Hl, Hne. simpl.
  by destruct (evaluate_tracks _ _ _ _ _ _) as [[? ?] ?].
Qed.

Lemma process_frame_eq cfg c f :
  process_frame cfg c f
  = (let vp := violation_pass cfg (fst (tracking_pass cfg c f)) f
                 (snd (tracking_pass cfg c f)) in
     ({| vehicle_history := vehicle_history (fst (fst vp));
         vehicle_statuses := vehicle_statuses (fst (fst vp));
         latest_traffic_light :=
           resolve_traffic_light (latest_traffic_light (fst (fst vp)))
             (detections f) |},
      {| tracked_vehicles := snd vp; violations := snd (fst vp) |})).
Proof.
  unfold process_frame. destruct (tracking_pass cfg c f) as [c1 tvs]. simpl.
  by destruct (violation_pass cfg c1 f tvs) as [[c2 vs] tvs'].
Qed.

Lemma violation_pass_history cfg c f tvs :
  vehicle_history (fst (fst (violation_pass cfg c f tvs))) = vehicle_history c.
Proof.
  destruct (evaluation_runs f tvs) eqn:Hg.
  - by destruct (violation_pass_open cfg c f tvs Hg) as (line & _ & ->).
  - by rewrite violation_pass_closed.
Qed.

Lemma violation_pass_latest cfg c f tvs :
  latest_traffic_light (fst (fst (violation_pass cfg c f tvs)))
  = latest_traffic_light c.
Proof.
  destruct (evaluation_runs f tvs) eqn:Hg.
  - by destruct (violation_pass_open cfg c f tvs Hg) as (line & _ & ->).
  - by rewrite violation_pass_closed.
Qed.

Lemma violation_pass_dom cfg c f tvs :
  dom (vehicle_statuses (fst (fst (violation_pass cfg c f tvs))))
  =@{gset Z} dom (vehicle_statuses c).
Proof.
  destruct (evaluation_runs f tvs) eqn:Hg.
  - destruct (violation_pass_open cfg c f tvs Hg) as (line & _ & ->).
    simpl. apply evaluate_tracks_dom.
  - by rewrite violation_pass_closed.
Qed.

Lemma violation_pass_ids cfg c f tvs :
  map tv_id (snd (violation_pass cfg c f tvs)) = map tv_id tvs.
Proof.
  destruct (evaluation_runs f tvs) eqn:Hg.
  - destruct (violation_pass_open cfg c f tvs Hg) as (line & _ & ->).
    simpl. apply evaluate_tracks_ids.
  - by rewrite violation_pass_closed.
Qed.

Lemma violation_pass_bounded cfg c f tvs :
  map_Forall (fun _ st => jumps_bounded st) (vehicle_statuses c) ->
  map_Forall (fun _ st => jumps_bounded st)
    (vehicle_statuses (fst (fst (violation_pass cfg c f tvs)))).
Proof.
  intros Hc. destruct (evaluation_runs f tvs) eqn:Hg.
  - destruct (violation_pass_open cfg c f tvs Hg) as (line & _ & ->).
    simpl. by apply (evaluate_tracks_bounded _ _ _ _ _ (_, [])).
  - by rewrite violation_pass_closed.
Qed.

(** ** Reachable states *)

Lemma process_frame_same_ids cfg c f :
  same_ids c -> same_ids (fst (process_frame cfg c f)).
Proof.
  intros Hc. rewrite process_frame_eq. unfold same_ids. simpl.
  rewrite violation_pass_dom, violation_pass_history.
  by apply tracking_pass_same_ids.
Qed.

Lemma process_frame_bounded cfg c f :
  map_Forall (fun _ st => jumps_bounded st) (vehicle_statuses c) ->
  map_Forall (fun _ st => jumps_bounded st)
    (vehicle_statuses (fst (process_frame cfg c f))).
Proof.
  intros Hc. rewrite process_frame_eq. simpl.
  by apply violation_pass_bounded, tracking_pass_bounded.
Qed.

Lemma reachable_same_ids cfg c : reachable cfg c -> same_ids c.
Proof.
  induction 1 as [|c f _ IH]; [done|]. by apply process_frame_same_ids.
Qed.

Lemma reachable_bounded cfg c :
  reachable cfg c ->
  map_Forall (fun _ st => jumps_bounded st) (vehicle_statuses c).
Proof.
  induction 1 as [|c f _ IH]; [apply map_Forall_empty|].
  by apply process_frame_bounded.
Qed.

Lemma reachable_run cfg fs : forall c,
  reachable cfg c -> reachable cfg (run cfg c fs).
Proof.
  induction fs as [|f fs IH]; intros c Hc; [done|].
  simpl. apply IH. by constructor.
Qed.

(** ** What the violation block of a frame did *)

Lemma frame_evaluates_open cfg c f :
  frame_evaluates cfg c f = true ->
  exists line,
    violation_line_y f = Some line
    /\ vehicle_statuses (fst (process_frame cfg c f))
       = fst (fst (evaluate_tracks cfg line (is_red_light c)
                     (vehicle_history (fst (tracking_pass cfg c f)))
                     (vehicle_statuses (fst (tracking_pass cfg c f)), [])
                     (snd (tracking_pass cfg c f))))
    /\ tracked_vehicles (snd (process_frame cfg c f))
       = snd (evaluate_tracks cfg line (is_red_light c)
                (vehicle_history (fst (tracking_pass cfg c f)))
                (vehicle_statuses (fst (tracking_pass cfg c f)), [])
                (snd (tracking_pass cfg c f))).
Proof.
  intros Hg. unfold frame_evaluates in Hg.
  destruct (violation_pass_open cfg (fst (tracking_pass cfg c f)) f _ Hg)
    as (line & Hline & Hvp).
  exists line. split; [done|].
  rewrite process_frame_eq. cbv zeta. rewrite Hvp. cbn [fst snd].
  unfold is_red_light. rewrite tracking_pass_latest. done.
Qed.

Lemma frame_evaluates_closed cfg c f :
  frame_evaluates cfg c f = false ->
  vehicle_statuses (fst (process_frame cfg c f))
  = vehicle_statuses (fst (tracking_pass cfg c f))
  /\ tracked_vehicles (snd (process_frame cfg c f)) = snd (tracking_pass cfg c f)
  /\ violations (snd (process_frame cfg c f)) = [].
Proof.
  intros Hg. unfold frame_evaluates in Hg.
  rewrite process_frame_eq. cbv zeta.
  by rewrite (violation_pass_closed cfg _ f _ Hg).
Qed.

Lemma tracking_pass_entries cfg c f tv :
  tv ∈ snd (tracking_pass cfg c f) ->
  is_Some (vehicle_history (fst (tracking_pass cfg c f)) !! tv_id tv)
  /\ is_Some (vehicle_statuses (fst (tracking_pass cfg c f)) !! tv_id tv).
Proof.
  intros Htv.
  assert (Hid : tv_id tv ∈ frame_track_ids cfg f).
  { rewrite <- (tracking_pass_ids cfg c f). by apply list_elem_of_fmap_2. }
  split.
  - by apply tracking_pass_history.
  - by apply tracking_pass_statuses.
Qed.

(** ** Violation flag of a frame *)

(** C2, as stated, fails: after the car went over the line during red,
    a frame in which no traffic light is detected leaves its flag false
    although its sticky flag is set and the light state is still red. *)
Lemma violation_flag_off_without_light :
  ~ violation_flag_iff default_config
      (run default_config initial_controller crossing_frames)
      frame_without_light.
Proof.
  intros H.
  assert (Htv : car_tracked 160 true false
                  ∈ tracked_vehicles
                      (snd (process_frame default_config
                              (run default_config initial_controller
                                 crossing_frames)
                              frame_without_light))).
  { vm_compute. apply list_elem_of_here. }
  destruct (vehicle_statuses
              (fst (process_frame default_config
                      (run default_config initial_controller crossing_frames)
                      frame_without_light)) !! 7) as [st|] eqn:Est;
    [|vm_compute in Est; discriminate].
  destruct (H _ st Htv Est) as [_ Hflag].
  assert (Hst : crossed_during_red st = true).
  { vm_compute in Est. injection Est as <-. reflexivity. }
  specialize (Hflag (conj Hst eq_refl)). discriminate Hflag.
Qed.

(** C2, amended. In a frame whose violation block runs (a traffic light
    is detected, a violation line is located, a vehicle is tracked), the
    flag of a tracked vehicle is true exactly when its sticky flag
    [crossed_during_red] is set and the light is red; in any other frame
    the flag is false.  Track IDs are distinct within the frame. *)
Theorem violation_flag_when_evaluated (cfg : config) (c : controller)
    (f : frame_input) (tv : tracked) (st : status) :
  NoDup (frame_track_ids cfg f) ->
  tv ∈ tracked_vehicles (snd (process_frame cfg c f)) ->
  vehicle_statuses (fst (process_frame cfg c f)) !! tv_id tv = Some st ->
  is_violation tv
  = (frame_evaluates cfg c f && crossed_during_red st && is_red_light c)%bool.
Proof.
  intros Hnd Htv Hst.
  destruct (frame_evaluates cfg c f) eqn:Hg.
  - destruct (frame_evaluates_open cfg c f Hg) as (line & _ & Hs & Htvs).
    rewrite Hs in Hst. rewrite Htvs in Htv.
    pose proof (evaluate_tracks_flags cfg line (is_red_light c)
                  (vehicle_history (fst (tracking_pass cfg c f)))
                  (snd (tracking_pass cfg c f))
                  (vehicle_statuses (fst (tracking_pass cfg c f)), [])) as HF.
    rewrite Forall_forall in HF.
    destruct (HF ltac:(by rewrite tracking_pass_ids)
                 ltac:(intros tv' Htv'; by apply tracking_pass_entries)
                 tv Htv) as (st' & Hst' & Hflag).
    rewrite Hst in Hst'. injection Hst' as <-. exact Hflag.
  - destruct (frame_evaluates_closed cfg c f Hg) as (_ & Htvs & _).
    rewrite Htvs in Htv.
    pose proof (tracking_pass_not_violating cfg c f) as HF.
    rewrite Forall_forall in HF. by apply HF.
Qed.

Lemma violation_flag_when_evaluated_witness :
  NoDup (frame_track_ids default_config (car_frame true (140#1) 150))
  /\ car_tracked 150 true true
       ∈ tracked_vehicles
           (snd (process_frame default_config
                   (run default_config initial_controller
                      (take 4 crossing_frames))
                   (car_frame true (140#1) 150)))
  /\ vehicle_statuses
       (fst (process_frame default_config
               (run default_config initial_controller (take 4 crossing_frames))
               (car_frame true (140#1) 150))) !! 7
     = Some status_after_crossing
  /\ is_violation (car_tracked 150 true true) = true.
Proof.
  assert (Hnd : NoDup (frame_track_ids default_config
                         (car_frame true (140#1) 150))).
  { apply NoDup_singleton. }
  assert (Htv : car_tracked 150 true true
                  ∈ tracked_vehicles
                      (snd (process_frame default_config
                              (run default_config initial_controller
                                 (take 4 crossing_frames))
                              (car_frame true (140#1) 150)))).
  { apply list_elem_of_here. }
  split; [exact Hnd|]. split; [exact Htv|]. split; [reflexivity|].
  exact (violation_flag_when_evaluated default_config
           (run default_config initial_controller (take 4 crossing_frames))
           (car_frame true (140#1) 150) (car_tracked 150 true true)
           status_after_crossing Hnd Htv eq_refl).
Defined.

(** ** Frames without a traffic light *)

Lemma evaluation_runs_needs_light f tvs :
  has_traffic_lights (detections f) = false -> evaluation_runs f tvs = false.
Proof. intros H. unfold evaluation_runs. by rewrite H. Qed.

(** C7. In a frame with no traffic-light detection no violation line is
    computed, the violation block does not run (the statuses are those
    the tracking pass left), no Violation Record is emitted and no
    tracked vehicle is flagged, whatever the tracks' positions. *)
Theorem no_light_no_violation (cfg : config) (c : controller) (f : frame_input) :
  has_traffic_lights (detections f) = false ->
  violation_line_y f = None
  /\ frame_evaluates cfg c f = false
  /\ vehicle_statuses (fst (process_frame cfg c f))
     = vehicle_statuses (fst (tracking_pass cfg c f))
  /\ violations (snd (process_frame cfg c f)) = []
  /\ Forall (fun tv => is_violation tv = false)
       (tracked_vehicles (snd (process_frame cfg c f))).
Proof.
  intros Hl.
  assert (Hg : frame_evaluates cfg c f = false)
    by by apply evaluation_runs_needs_light.
  destruct (frame_evaluates_closed cfg c f Hg) as (Hs & Htvs & Hvs).
  split; [unfold violation_line_y; by rewrite Hl|].
  split; [done|]. split; [done|]. split; [done|].
  rewrite Htvs. apply tracking_pass_not_violating.
Qed.

Lemma no_light_no_violation_witness :
  has_traffic_lights (detections frame_without_light) = false
  /\ violations
       (snd (process_frame default_config
               (run default_config initial_controller crossing_frames)
               frame_without_light)) = [].
Proof.
  split; [reflexivity|].
  exact (proj1 (proj2 (proj2 (proj2
           (no_light_no_violation default_config
              (run default_config initial_controller crossing_frames)
              frame_without_light eq_refl))))).
Defined.

(** ** Garbage collection of tracks *)

Lemma frame_track_ids_tracker_output cfg f (k : Z) :
  k ∈ frame_track_ids cfg f -> k ∈ map track_id (tracker_output f).
Proof.
  unfold frame_track_ids, frame_tracks.
  destruct (vehicle_dets cfg f); [by intros ?%elem_of_nil|].
  intros Hk. apply list_elem_of_fmap in Hk as ([k' b] & -> & Hin).
  apply list_elem_of_omap in Hin as (t & Ht & Hb).
  destruct (track_bbox t); [|done]. injection Hb as <- <-. simpl.
  apply list_elem_of_fmap. by exists t.
Qed.

Lemma process_frame_history cfg c f :
  vehicle_history (fst (process_frame cfg c f))
  = vehicle_history (fst (tracking_pass cfg c f)).
Proof. rewrite process_frame_eq. apply violation_pass_history. Qed.

Lemma process_frame_statuses_dom cfg c f :
  dom (vehicle_statuses (fst (process_frame cfg c f)))
  =@{gset Z} dom (vehicle_statuses (fst (tracking_pass cfg c f))).
Proof. rewrite process_frame_eq. apply violation_pass_dom. Qed.

(** Where the class defines the cleanup (the first of the three
    classes), a track ID that is not among the frame's tracks (in
    particular one that the tracker did not return) has no entry left in
    [vehicle_history] nor in [vehicle_statuses] at the end of the frame:
    both maps hold exactly the IDs of the frame's tracks. *)
Lemma cleanup_removes_absent_tracks (cfg : config) (c : controller)
    (f : frame_input) :
  defines_cleanup cfg = true ->
  reachable cfg c ->
  (forall k : Z,
     k ∉ frame_track_ids cfg f ->
     vehicle_history (fst (process_frame cfg c f)) !! k = None
     /\ vehicle_statuses (fst (process_frame cfg c f)) !! k = None)
  /\ dom (vehicle_history (fst (process_frame cfg c f)))
     =@{gset Z} list_to_set (frame_track_ids cfg f)
  /\ dom (vehicle_statuses (fst (process_frame cfg c f)))
     =@{gset Z} list_to_set (frame_track_ids cfg f).
Proof.
  intros Hd Hc. apply reachable_same_ids in Hc.
  assert (Hh : forall k : Z,
             k ∈ dom (vehicle_history (fst (process_frame cfg c f)))
             <-> k ∈ frame_track_ids cfg f).
  { intros k. rewrite process_frame_history, elem_of_dom.
    destruct (tracking_pass_history cfg c f k) as [H1 H2].
    split; [|done]. intros Hs.
    destruct (decide (k ∈ frame_track_ids cfg f)) as [|Hout]; [done|].
    rewrite (H2 Hd Hout) in Hs. by destruct Hs. }
  assert (Hs : forall k : Z,
             k ∈ dom (vehicle_statuses (fst (process_frame cfg c f)))
             <-> k ∈ frame_track_ids cfg f).
  { intros k. rewrite process_frame_statuses_dom, elem_of_dom.
    destruct (tracking_pass_statuses cfg c f k) as [H1 H2].
    split; [|done]. intros Hs.
    destruct (decide (k ∈ frame_track_ids cfg f)) as [|Hout]; [done|].
    rewrite (H2 Hd Hc Hout) in Hs. by destruct Hs. }
  split.
  - intros k Hk. split; apply not_elem_of_dom.
    + by rewrite Hh.
    + by rewrite Hs.
  - split; apply set_eq; intros k; rewrite elem_of_list_to_set.
    + apply Hh.
    + apply Hs.
Qed.

(** The violation block works on the statuses of the frame's tracks
    only. *)
Lemma process_frame_statuses_other cfg c f (k : Z) :
  k ∉ frame_track_ids cfg f ->
  vehicle_statuses (fst (process_frame cfg c f)) !! k
  = vehicle_statuses (fst (tracking_pass cfg c f)) !! k.
Proof.
  intros Hk. destruct (frame_evaluates cfg c f) eqn:Hg.
  - destruct (frame_evaluates_open cfg c f Hg) as (line & _ & -> & _).
    rewrite evaluate_tracks_lookup_other; [done|].
    by rewrite tracking_pass_ids.
  - by destruct (frame_evaluates_closed cfg c f Hg) as (-> & _).
Qed.

(** Without the method, the tracking pass leaves the entries of the
    other tracks as they were. *)
Lemma tracking_pass_lookup_other cfg c f (k : Z) :
  defines_cleanup cfg = false ->
  k ∉ frame_track_ids cfg f ->
  vehicle_history (fst (tracking_pass cfg c f)) !! k = vehicle_history c !! k
  /\ vehicle_statuses (fst (tracking_pass cfg c f)) !! k
     = vehicle_statuses c !! k.
Proof.
  intros Hd Hk. rewrite tracking_pass_eq. cbn [fst].
  unfold cleanup_call. rewrite Hd.
  by apply update_tracks_lookup_other.
Qed.

(** C8, in the class that the module binds. There the call of
    [_cleanup_old_vehicle_data] deletes nothing: a track ID that the
    tracker did not return in the frame has no track among those the
    frame works on, and it keeps its entry of [vehicle_history] and its
    entry of [vehicle_statuses] as they were, frame after frame; both
    maps hold every ID they held before the frame. *)
Theorem absent_tracks_kept (cfg : config) (c : controller) (f : frame_input)
    (k : Z) :
  defines_cleanup cfg = false ->
  k ∉ map track_id (tracker_output f) ->
  (k ∉ frame_track_ids cfg f)
  /\ vehicle_history (fst (process_frame cfg c f)) !! k = vehicle_history c !! k
  /\ vehicle_statuses (fst (process_frame cfg c f)) !! k
     = vehicle_statuses c !! k
  /\ dom (vehicle_history c) ⊆ dom (vehicle_history (fst (process_frame cfg c f)))
  /\ dom (vehicle_statuses c)
     ⊆ dom (vehicle_statuses (fst (process_frame cfg c f))).
Proof.
  intros Hd Hk.
  assert (Hout : k ∉ frame_track_ids cfg f).
  { intros Hin. apply Hk. by apply (frame_track_ids_tracker_output cfg f). }
  split; [exact Hout|].
  destruct (tracking_pass_lookup_other cfg c f k Hd Hout) as [Hh Hs].
  split; [by rewrite process_frame_history|].
  split; [by rewrite process_frame_statuses_other|].
  destruct (update_tracks_dom cfg (frame_tracks cfg f) c) as [Hdh Hds].
  split.
  - rewrite process_frame_history, tracking_pass_eq. cbn [fst].
    unfold cleanup_call. rewrite Hd, Hdh. set_solver.
  - rewrite process_frame_statuses_dom, tracking_pass_eq. cbn [fst].
    unfold cleanup_call. rewrite Hd, Hds. set_solver.
Qed.

Lemma absent_tracks_kept_witness :
  defines_cleanup default_config = false
  /\ (7 ∉ map track_id (tracker_output other_car_frame))
  /\ vehicle_history
       (fst (process_frame default_config
               (run default_config initial_controller crossing_frames)
               other_car_frame)) !! 7
     = Some (map (fun y : Z => (inject_Z (y - 50) + inject_Z (y + 50)) / 2)%Q
               [100; 110; 120; 130; 150])
  /\ vehicle_statuses
       (fst (process_frame default_config
               (run default_config initial_controller crossing_frames)
               other_car_frame)) !! 7
     = Some status_after_crossing.
Proof.
  assert (Hout : 7 ∉ map track_id (tracker_output other_car_frame)).
  { change (7 ∉ [8]). by intros ?%list_elem_of_singleton. }
  assert (Hh : vehicle_history
                 (run default_config initial_controller crossing_frames) !! 7
               = Some (map (fun y : Z =>
                              (inject_Z (y - 50) + inject_Z (y + 50)) / 2)%Q
                         [100; 110; 120; 130; 150])).
  { vm_compute. reflexivity. }
  assert (Hs : vehicle_statuses
                 (run default_config initial_controller crossing_frames) !! 7
               = Some status_after_crossing).
  { vm_compute. reflexivity. }
  split; [reflexivity|]. split; [exact Hout|].
  destruct (absent_tracks_kept default_config
              (run default_config initial_controller crossing_frames)
              other_car_frame 7 eq_refl Hout) as (_ & Hh' & Hs' & _).
  split.
  - exact (eq_trans Hh' Hh).
  - exact (eq_trans Hs' Hs).
Defined.

(** The same frames in the first class: there the entries of track 7
    are gone at the end of the frame in which the tracker returns
    another track only. *)
Lemma first_class_removes_absent_track :
  vehicle_history
    (fst (process_frame first_class_config
            (run first_class_config initial_controller crossing_frames)
            other_car_frame)) !! 7 = None
  /\ vehicle_statuses
       (fst (process_frame first_class_config
               (run first_class_config initial_controller crossing_frames)
               other_car_frame)) !! 7 = None.
Proof.
  assert (Hr : reachable first_class_config
                 (run first_class_config initial_controller crossing_frames)).
  { apply reachable_run. constructor. }
  apply (cleanup_removes_absent_tracks first_class_config _ other_car_frame
           eq_refl Hr).
  change (7 ∉ [8]). by intros ?%list_elem_of_singleton.
Qed.

(** ** The sticky flag from frame to frame *)

Lemma jump_check_crossed_before cfg st y :
  crossed_during_red (jump_check cfg st y) = true ->
  crossed_during_red st = true.
Proof.
  unfold jump_check. destruct (last_position st); [|done].
  destruct (Qltb _ _); [|done]. simpl.
  by destruct (2 <? suspicious_jumps st + 1).
Qed.

(** The loop over the tracks never sets the sticky flag. *)
Lemma update_tracks_crossed_before cfg ts : forall c (k : Z) st',
  vehicle_statuses (fst (update_tracks cfg c ts)) !! k = Some st' ->
  crossed_during_red st' = true ->
  exists st, vehicle_statuses c !! k = Some st /\ crossed_during_red st = true.
Proof.
  induction ts as [|t ts IH]; intros c k st' Hst' Hc; [by exists st'|].
  rewrite update_tracks_cons in Hst'. cbn [fst] in Hst'.
  destruct (IH _ k st' Hst' Hc) as (st1 & Hst1 & Hc1).
  destruct (decide (k = t.1)) as [->|Hne].
  - rewrite update_track_exact in Hst1. cbv zeta in Hst1.
    cbn [fst vehicle_statuses] in Hst1. rewrite lookup_insert_eq in Hst1.
    injection Hst1 as Hst1. rewrite <- Hst1 in Hc1.
    apply jump_check_crossed_before in Hc1.
    destruct (vehicle_statuses c !! t.1) as [st|]; [by exists st|done].
  - rewrite (proj2 (update_track_lookup_ne cfg c t k Hne)) in Hst1.
    by exists st1.
Qed.

(** The call of the cleanup only deletes. *)
Lemma cleanup_call_statuses_Some cfg c ids (k : Z) st :
  vehicle_statuses (cleanup_call cfg c ids) !! k = Some st ->
  vehicle_statuses c !! k = Some st.
Proof.
  unfold cleanup_call. destruct (defines_cleanup cfg); [|done].
  rewrite cleanup_statuses_lookup.
  destruct (decide (k ∈ ids)); [done|]. by destruct (decide _).
Qed.

Lemma tracking_pass_crossed_before cfg c f (k : Z) st' :
  vehicle_statuses (fst (tracking_pass cfg c f)) !! k = Some st' ->
  crossed_during_red st' = true ->
  exists st, vehicle_statuses c !! k = Some st /\ crossed_during_red st = true.
Proof.
  rewrite tracking_pass_eq. cbn [fst].
  intros Hst'%cleanup_call_statuses_Some Hc.
  exact (update_tracks_crossed_before cfg _ _ k st' Hst' Hc).
Qed.

(** C1, as stated, fails: the car goes over the line under red, then
    the classifier calls the light green.  The block of that frame
    still reads the state that the frame before left, red, and keeps the
    flag; the state is green at the end of the frame, with the flag
    set.  A frame without a traffic light then leaves both as they
    are. *)
Lemma crossed_during_red_under_green :
  ~ flag_only_while_red
      (run default_config initial_controller crossing_then_green)
  /\ ~ flag_only_while_red
        (run default_config initial_controller
           (crossing_then_green ++ [car_frame false (140#1) 170])).
Proof.
  assert (Hcontra : forall c,
            crossed_during_red <$> vehicle_statuses c !! 7 = Some true ->
            is_red_light c = false ->
            ~ flag_only_while_red c).
  { intros c Hs Hred H.
    destruct (vehicle_statuses c !! 7) as [st|] eqn:Est; [|done].
    injection Hs as Hs. specialize (H 7 st Est Hs). congruence. }
  split; apply Hcontra; vm_compute; reflexivity.
Qed.

(** C1, amended. An evaluation that reads the light as not red leaves
    the sticky flag [crossed_during_red] false, whatever the history,
    the line and the movement, and an evaluation leaves it true only if
    it read the light as red; in a frame whose violation block runs
    with the light not red, every track of the frame ends with the flag
    false.  Between evaluations the flag is not tied to the light: at
    the end of a frame it is true only if the block of the frame
    evaluated the track reading red (the state that the frames before
    left), or if it was true before the frame and the frame did not
    evaluate the track. *)
Theorem crossed_during_red_cleared_by_evaluation (cfg : config) :
  (forall line h moving st,
     crossed_during_red (ev_status (evaluate cfg line false h moving st))
     = false)
  /\ (forall line red h moving st,
        crossed_during_red (ev_status (evaluate cfg line red h moving st))
        = true -> red = true)
  /\ (forall c f tv,
        is_red_light c = false ->
        frame_evaluates cfg c f = true ->
        tv ∈ tracked_vehicles (snd (process_frame cfg c f)) ->
        exists st,
          vehicle_statuses (fst (process_frame cfg c f)) !! tv_id tv = Some st
          /\ crossed_during_red st = false)
  /\ (forall c f (k : Z) st',
        vehicle_statuses (fst (process_frame cfg c f)) !! k = Some st' ->
        crossed_during_red st' = true ->
        (frame_evaluates cfg c f = true /\ is_red_light c = true
         /\ k ∈ frame_track_ids cfg f)
        \/ ((frame_evaluates cfg c f = false \/ k ∉ frame_track_ids cfg f)
            /\ exists st,
                 vehicle_statuses c !! k = Some st
                 /\ crossed_during_red st = true)).
Proof.
  assert (Hnot_red : forall c f tv,
            is_red_light c = false ->
            frame_evaluates cfg c f = true ->
            tv_id tv ∈ frame_track_ids cfg f ->
            exists st,
              vehicle_statuses (fst (process_frame cfg c f)) !! tv_id tv
                = Some st
              /\ crossed_during_red st = false).
  { intros c f tv Hred Hg Hid.
    destruct (frame_evaluates_open cfg c f Hg) as (line & _ & -> & _).
    rewrite Hred. apply evaluate_tracks_not_red.
    - intros tv' Htv'. by apply tracking_pass_entries.
    - cbn [fst].
      destruct (proj1 (tracking_pass_statuses cfg c f (tv_id tv)) Hid)
        as [st Hst].
      exists st. split; [done|]. left. by rewrite tracking_pass_ids. }
  split; [apply evaluate_not_red|]. split; [apply evaluate_crossed_red|].
  split.
  - intros c f tv Hred Hg Htv. apply Hnot_red; try done.
    destruct (frame_evaluates_open cfg c f Hg) as (line & _ & _ & Htvs).
    rewrite Htvs in Htv.
    rewrite <- (tracking_pass_ids cfg c f).
    rewrite <- (evaluate_tracks_ids cfg line (is_red_light c)
                  (vehicle_history (fst (tracking_pass cfg c f)))
                  (snd (tracking_pass cfg c f))
                  (vehicle_statuses (fst (tracking_pass cfg c f)), [])).
    by apply list_elem_of_fmap_2.
  - intros c f k st' Hst' Hc.
    destruct (decide (k ∈ frame_track_ids cfg f)) as [Hin|Hout].
    + destruct (frame_evaluates cfg c f) eqn:Hg.
      * destruct (is_red_light c) eqn:Hred; [by left|].
        destruct (Hnot_red c f
                    {| tv_id := k; tv_bbox := (0, 0, 0, 0)%Q; center_y := 0;
                       is_moving := false; is_violation := false |}
                    Hred Hg Hin) as (st & Hst & Hf).
        cbn [tv_id] in Hst. congruence.
      * right. split; [by left|].
        destruct (frame_evaluates_closed cfg c f Hg) as (Hs & _).
        rewrite Hs in Hst'.
        by apply (tracking_pass_crossed_before cfg c f k st').
    + right. split; [by right|].
      rewrite process_frame_statuses_other in Hst' by done.
      by apply (tracking_pass_crossed_before cfg c f k st').
Qed.

Lemma crossed_during_red_cleared_by_evaluation_witness :
  crossed_during_red
    <$> vehicle_statuses
          (run default_config initial_controller crossing_then_green) !! 7
  = Some true
  /\ is_red_light (run default_config initial_controller crossing_then_green)
     = false
  /\ frame_evaluates default_config
       (run default_config initial_controller crossing_then_green)
       (green_frame 170) = true
  /\ car_tracked 170 true false
       ∈ tracked_vehicles
           (snd (process_frame default_config
                   (run default_config initial_controller crossing_then_green)
                   (green_frame 170)))
  /\ exists st,
       vehicle_statuses
         (fst (process_frame default_config
                 (run default_config initial_controller crossing_then_green)
                 (green_frame 170))) !! 7 = Some st
       /\ crossed_during_red st = false.
Proof.
  assert (Hs : crossed_during_red
                 <$> vehicle_statuses
                       (run default_config initial_controller
                          crossing_then_green) !! 7 = Some true).
  { vm_compute. reflexivity. }
  assert (Hred : is_red_light
                   (run default_config initial_controller crossing_then_green)
                 = false).
  { vm_compute. reflexivity. }
  assert (Hg : frame_evaluates default_config
                 (run default_config initial_controller crossing_then_green)
                 (green_frame 170) = true).
  { vm_compute. reflexivity. }
  assert (Htv : car_tracked 170 true false
                  ∈ tracked_vehicles
                      (snd (process_frame default_config
                              (run default_config initial_controller
                                 crossing_then_green)
                              (green_frame 170)))).
  { vm_compute. apply list_elem_of_here. }
  split; [exact Hs|]. split; [exact Hred|]. split; [exact Hg|].
  split; [exact Htv|].
  exact (proj1 (proj2 (proj2 (crossed_during_red_cleared_by_evaluation
                                default_config)))
           _ (green_frame 170) (car_tracked 170 true false) Hred Hg Htv).
Defined.

(** ** The jump counter from frame to frame *)

(** The violation block does not touch the counter. *)
Lemma evaluate_tracks_suspicious_jumps cfg line red hist tvs (k : Z) :
  forall acc st',
    (fst (fst (evaluate_tracks cfg line red hist acc tvs))) !! k = Some st' ->
    exists st,
      fst acc !! k = Some st /\ suspicious_jumps st' = suspicious_jumps st.
Proof.
  induction tvs as [|tv tvs IH]; intros acc st' Hst'; [by exists st'|].
  rewrite evaluate_tracks_cons in Hst'. cbn [fst] in Hst'.
  destruct (IH _ st' Hst') as (st1 & Hst1 & ->).
  destruct (decide (k = tv_id tv)) as [->|Hne].
  - unfold evaluate_track in Hst1. destruct acc as [statuses vs].
    destruct (hist !! tv_id tv) as [h|]; [|by exists st1].
    destruct (statuses !! tv_id tv) as [st|] eqn:Es; [|by exists st1].
    cbn [fst] in Hst1. rewrite lookup_insert_eq in Hst1.
    injection Hst1 as <-. exists st. split; [done|].
    apply evaluate_suspicious_jumps.
  - rewrite evaluate_track_lookup_ne in Hst1 by done. by exists st1.
Qed.

Lemma process_frame_suspicious_jumps cfg c f (k : Z) st' :
  vehicle_statuses (fst (process_frame cfg c f)) !! k = Some st' ->
  exists st1,
    vehicle_statuses (fst (tracking_pass cfg c f)) !! k = Some st1
    /\ suspicious_jumps st' = suspicious_jumps st1.
Proof.
  destruct (frame_evaluates cfg c f) eqn:Hg.
  - destruct (frame_evaluates_open cfg c f Hg) as (line & _ & -> & _).
    intros Hst'.
    by destruct (evaluate_tracks_suspicious_jumps _ _ _ _ _ _ (_, []) _ Hst')
      as (st1 & Hst1 & ->); exists st1.
  - destruct (frame_evaluates_closed cfg c f Hg) as (-> & _).
    intros Hst'. by exists st'.
Qed.

(** The tracking pass leaves the status of a track that is not in the
    frame as it was, when it leaves one. *)
Lemma tracking_pass_statuses_other cfg c f (k : Z) st1 :
  k ∉ frame_track_ids cfg f ->
  vehicle_statuses (fst (tracking_pass cfg c f)) !! k = Some st1 ->
  vehicle_statuses c !! k = Some st1.
Proof.
  intros Hk. rewrite tracking_pass_eq. cbn [fst].
  intros Hst1%cleanup_call_statuses_Some.
  by rewrite (proj2 (update_tracks_lookup_other cfg _ c k Hk)) in Hst1.
Qed.

(** C10, as stated, fails: when the tracker returns an ID twice in one
    frame, which the loop over the tracks only logs, the jump check runs
    twice on that track; here the counter of track 7 goes from 0 to 2 in
    one frame. *)
Lemma suspicious_jumps_twice_in_a_frame :
  ~ one_increment_per_frame default_config
      (run default_config initial_controller [car_frame true (250#1) 100])
      repeated_id_frame.
Proof.
  assert (Hcontra : forall c f,
            suspicious_jumps <$> vehicle_statuses c !! 7 = Some 0 ->
            suspicious_jumps
              <$> vehicle_statuses (fst (process_frame default_config c f)) !! 7
            = Some 2 ->
            ~ one_increment_per_frame default_config c f).
  { intros c f H0 H2 H.
    destruct (vehicle_statuses c !! 7) as [st|] eqn:Est; [|done].
    destruct (vehicle_statuses (fst (process_frame default_config c f)) !! 7)
      as [st'|] eqn:Est'; [|done].
    injection H0 as H0. injection H2 as H2.
    specialize (H 7 st st' Est Est'). lia. }
  apply Hcontra; vm_compute; reflexivity.
Qed.

(** C10, amended. A jump check leaves the counter as it was, or adds one
    to it without passing 2, or puts it back to 0 when adding one would
    pass 2, and the evaluation does not change it; so in every state the
    controller reaches, and at the end of the tracking pass of every
    frame (which is where the violation block reads it), the counter of
    every track is at most 2.  The check runs once for each track that
    the tracker returns: with distinct track IDs in the frame, the
    counter of a track changes over the frame as by one jump check at
    most, and a track that is new in the frame has its counter at 0. *)
Theorem suspicious_jumps_at_most_two (cfg : config) :
  (forall st y,
     suspicious_jumps (jump_check cfg st y) = suspicious_jumps st
     \/ (suspicious_jumps (jump_check cfg st y) = suspicious_jumps st + 1
         /\ suspicious_jumps st + 1 <= 2)
     \/ (suspicious_jumps (jump_check cfg st y) = 0
         /\ 2 < suspicious_jumps st + 1))
  /\ (forall line red h moving st,
        suspicious_jumps (ev_status (evaluate cfg line red h moving st))
        = suspicious_jumps st)
  /\ (forall c f k st,
        reachable cfg c ->
        vehicle_statuses (fst (tracking_pass cfg c f)) !! k = Some st ->
        0 <= suspicious_jumps st <= 2)
  /\ (forall c k st,
        reachable cfg c ->
        vehicle_statuses c !! k = Some st ->
        0 <= suspicious_jumps st <= 2)
  /\ (forall c f (k : Z) st st',
        NoDup (frame_track_ids cfg f) ->
        vehicle_statuses c !! k = Some st ->
        vehicle_statuses (fst (process_frame cfg c f)) !! k = Some st' ->
        suspicious_jumps st' = suspicious_jumps st
        \/ (suspicious_jumps st' = suspicious_jumps st + 1
            /\ suspicious_jumps st + 1 <= 2)
        \/ (suspicious_jumps st' = 0 /\ 2 < suspicious_jumps st + 1))
  /\ (forall c f (k : Z) st',
        NoDup (frame_track_ids cfg f) ->
        vehicle_statuses c !! k = None ->
        vehicle_statuses (fst (process_frame cfg c f)) !! k = Some st' ->
        suspicious_jumps st' = 0).
Proof.
  assert (Hcheck : forall st y,
            suspicious_jumps (jump_check cfg st y) = suspicious_jumps st
            \/ (suspicious_jumps (jump_check cfg st y) = suspicious_jumps st + 1
                /\ suspicious_jumps st + 1 <= 2)
            \/ (suspicious_jumps (jump_check cfg st y) = 0
                /\ 2 < suspicious_jumps st + 1)).
  { intros st y.
    destruct (jump_check_suspicious_jumps cfg st y) as [H|[H|(H & _ & H')]];
      auto. }
  split; [exact Hcheck|].
  split; [apply evaluate_suspicious_jumps|].
  split.
  { intros c f k st Hc Hst.
    apply reachable_bounded in Hc.
    apply (tracking_pass_bounded cfg c f) in Hc. exact (Hc k st Hst). }
  split.
  { intros c k st Hc Hst.
    apply reachable_bounded in Hc. exact (Hc k st Hst). }
  split.
  - intros c f k st st' Hnd Hst Hst'.
    destruct (process_frame_suspicious_jumps cfg c f k st' Hst')
      as (st1 & Hst1 & ->).
    destruct (decide (k ∈ frame_track_ids cfg f)) as [Hin|Hout].
    + apply list_elem_of_fmap in Hin as ([k' box] & -> & Hin).
      destruct (tracking_pass_lookup cfg c f k' box Hnd Hin) as [_ Hs].
      cbn [fst] in Hst, Hst1. rewrite Hst1, Hst in Hs. injection Hs as ->.
      rewrite update_status_suspicious_jumps. apply Hcheck.
    + apply (tracking_pass_statuses_other cfg c f k st1 Hout) in Hst1.
      left. congruence.
  - intros c f k st' Hnd Hnone Hst'.
    destruct (process_frame_suspicious_jumps cfg c f k st' Hst')
      as (st1 & Hst1 & ->).
    destruct (decide (k ∈ frame_track_ids cfg f)) as [Hin|Hout].
    + apply list_elem_of_fmap in Hin as ([k' box] & -> & Hin).
      destruct (tracking_pass_lookup cfg c f k' box Hnd Hin) as [_ Hs].
      cbn [fst] in Hnone, Hst1. rewrite Hst1, Hnone in Hs. injection Hs as ->.
      reflexivity.
    + apply (tracking_pass_statuses_other cfg c f k st1 Hout) in Hst1.
      congruence.
Qed.

Lemma suspicious_jumps_at_most_two_witness :
  exists st st',
    NoDup (frame_track_ids default_config third_jump_frame)
    /\ vehicle_statuses
         (run default_config initial_controller jump_frames) !! 7 = Some st
    /\ vehicle_statuses
         (fst (process_frame default_config
                 (run default_config initial_controller jump_frames)
                 third_jump_frame)) !! 7 = Some st'
    /\ suspicious_jumps st = 2
    /\ suspicious_jumps st' = 0
    /\ (suspicious_jumps st' = suspicious_jumps st
        \/ (suspicious_jumps st' = suspicious_jumps st + 1
            /\ suspicious_jumps st + 1 <= 2)
        \/ (suspicious_jumps st' = 0 /\ 2 < suspicious_jumps st + 1)).
Proof.
  assert (Hnd : NoDup (frame_track_ids default_config third_jump_frame)).
  { apply NoDup_singleton. }
  assert (H2 : suspicious_jumps
                 <$> vehicle_statuses
                       (run default_config initial_controller jump_frames) !! 7
               = Some 2).
  { vm_compute. reflexivity. }
  assert (H0 : suspicious_jumps
                 <$> vehicle_statuses
                       (fst (process_frame default_config
                               (run default_config initial_controller
                                  jump_frames)
                               third_jump_frame)) !! 7
               = Some 0).
  { vm_compute. reflexivity. }
  destruct (vehicle_statuses
              (run default_config initial_controller jump_frames) !! 7)
    as [st|] eqn:Est; [|discriminate H2].
  destruct (vehicle_statuses
              (fst (process_frame default_config
                      (run default_config initial_controller jump_frames)
                      third_jump_frame)) !! 7)
    as [st'|] eqn:Est'; [|discriminate H0].
  injection H2 as H2. injection H0 as H0.
  exists st, st'.
  split; [exact Hnd|]. split; [reflexivity|]. split; [reflexivity|].
  split; [exact H2|]. split; [exact H0|].
  exact (proj1 (proj2 (proj2 (proj2 (proj2
           (suspicious_jumps_at_most_two default_config)))))
           _ third_jump_frame 7 st st' Hnd Est Est').
Defined.

(** ** Jump suppression *)

(** C5, evaluated on a run. The car jumps 60 pixels in each of three
    consecutive frames under a red light; the third jump takes it over
    the line. Before that frame the counter is 2; its jump check clears
    the sticky flag and puts the counter back to 0; the violation block
    of the same frame then reads the counter at 0, sets the sticky flag
    and emits a Violation Record for the track. *)
Theorem third_jump_crossing_reported :
  (fun st => (suspicious_jumps st, registers_jump default_config st (280#1)))
    <$> vehicle_statuses
          (run default_config initial_controller jump_frames) !! 7
  = Some (2, true)
  /\ vehicle_statuses
       (fst (tracking_pass default_config
               (run default_config initial_controller jump_frames)
               third_jump_frame)) !! 7
     = Some status_after_third_jump
  /\ crossed_during_red
       <$> vehicle_statuses
             (fst (process_frame default_config
                     (run default_config initial_controller jump_frames)
                     third_jump_frame)) !! 7 = Some true
  /\ map v_track_id
       (violations
          (snd (process_frame default_config
                  (run default_config initial_controller jump_frames)
                  third_jump_frame))) = [7].
Proof.
  repeat split; vm_compute; reflexivity.
Qed.

(** The same in general: when the jump that takes the counter past 2
    comes with a crossing in the window, under a red light and on a
    moving track, the evaluation that follows the jump check emits. *)
Lemma third_jump_then_evaluate_emits cfg st y last_y h line :
  last_position st = Some last_y ->
  (max_position_jump cfg < Qabs (y - last_y))%Q ->
  suspicious_jumps st = 2 ->
  is_Some (crossing_scan cfg h line) ->
  ev_emit (evaluate cfg line true h true (update_status cfg st h y)) = true
  /\ crossed_during_red
       (ev_status (evaluate cfg line true h true (update_status cfg st h y)))
     = true.
Proof.
  intros Hl Hj Hs Hc.
  destruct (jump_check_third_jump cfg st y last_y Hl Hj Hs) as [_ H0].
  assert (Hsj : suspicious_jumps (update_status cfg st h y) = 0)
    by by rewrite update_status_suspicious_jumps.
  split.
  - rewrite evaluate_emit, Hsj. by rewrite bool_decide_eq_true_2.
  - unfold evaluate. cbn [ev_status]. rewrite Hsj.
    by rewrite bool_decide_eq_true_2.
Qed.

(** A track whose counter stands at 2 is not reported: this is the
    suppression that the evaluation does apply. *)
Lemma evaluate_two_jumps_suppressed cfg line red h moving st :
  suspicious_jumps st = 2 ->
  ev_emit (evaluate cfg line red h moving st) = false
  /\ crossed_during_red (ev_status (evaluate cfg line red h moving st))
     = (crossed_during_red st && red)%bool.
Proof.
  intros Hs. split.
  - rewrite evaluate_emit, Hs. simpl. apply andb_false_r.
  - unfold evaluate. simpl. rewrite Hs. simpl.
    destruct (bool_decide _ && moving && red)%bool, red; simpl;
      rewrite ?andb_true_r, ?andb_false_r; reflexivity.
Qed.

(** * Further properties of the code *)

(** ** Bounded lists *)

Lemma length_deque_append {A} (n : nat) (l : list A) (x : A) :
  length (deque_append n l x)
  = if (n <? S (length l))%nat then length l else S (length l).
Proof.
  unfold deque_append. rewrite length_app. simpl.
  replace (length l + 1)%nat with (S (length l)) by lia.
  destruct (n <? S (length l))%nat; [|by rewrite length_app; simpl; lia].
  destruct l; simpl; [done|]. rewrite length_app. simpl. lia.
Qed.

Lemma deque_append_last_n {A} (n : nat) (l : list A) (x : A) :
  (length l <= n)%nat -> deque_append n l x = last_n n (l ++ [x]).
Proof.
  intros Hl. unfold deque_append, last_n. rewrite length_app. simpl.
  destruct (Nat.ltb_spec n (length l + 1)).
  - replace (length l + 1 - n)%nat with 1%nat by lia. by destruct l.
  - replace (length l + 1 - n)%nat with 0%nat by lia. done.
Qed.

Lemma last_deque_append {A} (n : nat) (l : list A) (x y : A) :
  last (deque_append n l x) = Some y -> y = x.
Proof.
  unfold deque_append.
  destruct (n <? length (l ++ [x]))%nat.
  - destruct l as [|a l]; simpl; [done|].
    rewrite last_snoc. congruence.
  - rewrite last_snoc. congruence.
Qed.

Lemma deque_append_nonempty {A} (n : nat) (l : list A) (x : A) :
  (1 <= n)%nat -> (length l <= n)%nat -> deque_append n l x <> [].
Proof.
  intros Hn Hl Heq.
  pose proof (length_deque_append n l x) as Hlen. rewrite Heq in Hlen.
  simpl in Hlen. destruct (Nat.ltb_spec n (S (length l))); lia.
Qed.

Lemma length_push_bounded {A} (n : nat) (l : list A) (x : A) :
  length (push_bounded n l x)
  = if (n <? S (length l))%nat then length l else S (length l).
Proof. apply (length_deque_append n l x). Qed.

Lemma count_true_snoc (l : list bool) (b : bool) :
  count_true (l ++ [b]) = (count_true l + if b then 1 else 0)%nat.
Proof.
  unfold count_true. rewrite List.filter_app, length_app.
  by destruct b.
Qed.

Lemma count_true_le (l : list bool) : (count_true l <= length l)%nat.
Proof. apply List.filter_length_le. Qed.

(** [is_moving] in whole numbers: at least two samples, at least half of
    them [True]. *)
Lemma moving_of_spec (l : list bool) :
  moving_of l = true <-> (2 <= length l <= 2 * count_true l)%nat.
Proof.
  unfold moving_of, count_true.
  rewrite andb_true_iff, Z.leb_le, Qleb_le.
  set (n := length l). set (k := length (List.filter _ l)).
  unfold Qle, Qmult, inject_Z. simpl. lia.
Qed.

Lemma movement_detected_short (cfg : config) (h : list Q) :
  (length h <= 2)%nat -> movement_detected cfg h = false.
Proof.
  intros Hh. unfold movement_detected.
  destruct (Nat.leb_spec 3 (length h)); [lia|done].
Qed.

(** ** What the updates leave alone *)

Lemma jump_check_fields (cfg : config) (st : status) (y : Q) :
  recent_movement (jump_check cfg st y) = recent_movement st
  /\ violation_history (jump_check cfg st y) = violation_history st
  /\ last_position (jump_check cfg st y) = last_position st.
Proof.
  unfold jump_check. destruct (last_position st) eqn:E; [|by rewrite E].
  destruct (Qltb _ _); [|by rewrite E]. simpl.
  by destruct (2 <? suspicious_jumps st + 1).
Qed.

Lemma update_status_fields (cfg : config) (st : status) (h : list Q) (y : Q) :
  recent_movement (update_status cfg st h y)
  = push_bounded 4 (recent_movement st) (movement_detected cfg h)
  /\ violation_history (update_status cfg st h y) = violation_history st
  /\ last_position (update_status cfg st h y) = Some y.
Proof.
  destruct (jump_check_fields cfg st y) as (Hr & Hv & _).
  unfold update_status. simpl. by rewrite Hr, Hv.
Qed.

Lemma evaluate_fields cfg line red h moving st :
  recent_movement (ev_status (evaluate cfg line red h moving st))
  = recent_movement st
  /\ last_position (ev_status (evaluate cfg line red h moving st))
     = last_position st
  /\ (length (violation_history (ev_status (evaluate cfg line red h moving st)))
      <= Nat.max 5 (length (violation_history st)))%nat.
Proof.
  unfold evaluate. cbn [ev_status].
  set (ac := (bool_decide _ && moving && red)%bool).
  assert (Hf : forall st1 : status,
             recent_movement st1 = recent_movement st ->
             last_position st1 = last_position st ->
             violation_history st1 = violation_history st ->
             recent_movement
               (set_violation_history
                  (push_bounded 5 (violation_history st1) ac) st1)
             = recent_movement st
             /\ last_position
                  (set_violation_history
                     (push_bounded 5 (violation_history st1) ac) st1)
                = last_position st
             /\ (length
                   (violation_history
                      (set_violation_history
                         (push_bounded 5 (violation_history st1) ac) st1))
                 <= Nat.max 5 (length (violation_history st)))%nat).
  { intros st1 H1 H2 H3. simpl. rewrite H1, H2, H3.
    split; [done|]. split; [done|].
    rewrite length_push_bounded.
    destruct (Nat.ltb_spec 5 (S (length (violation_history st)))); lia. }
  destruct ac, (suspicious_jumps st <=? 1), (negb red); by apply Hf.
Qed.

(** ** The invariant of a track *)

Lemma track_ok_new (cfg : config) : track_ok cfg [] new_status.
Proof.
  unfold track_ok. simpl. repeat split; try lia; try done.
Qed.

Lemma track_seen_ok cfg h st : track_seen cfg h st -> track_ok cfg h st.
Proof. by intros [? _]. Qed.

Lemma update_status_track_seen (cfg : config) (h : list Q) (st : status) (y : Q) :
  track_ok cfg h st ->
  track_seen cfg (deque_append (position_history_size cfg) h y)
    (update_status cfg st (deque_append (position_history_size cfg) h y) y).
Proof.
  intros (Hh & Hr & Hv & Hl & Hm).
  set (n := position_history_size cfg) in *.
  set (h' := deque_append n h y).
  destruct (update_status_fields cfg st h' y) as (Er & Ev & El).
  pose proof (length_deque_append n h y) as Hlen. fold h' in Hlen.
  split; [|split].
  - unfold track_ok. rewrite Er, Ev, El. fold n.
    split; [destruct (Nat.ltb_spec n (S (length h))); lia|].
    split.
    { rewrite length_push_bounded.
      destruct (Nat.ltb_spec 4 (S (length (recent_movement st)))); lia. }
    split; [done|].
    split.
    { intros z Hz. apply last_deque_append in Hz. by subst. }
    intros Hn Hshort.
    destruct (Nat.ltb_spec n (S (length h))) as [Hfull|Hroom]; [lia|].
    destruct (Hm Hn ltac:(lia)) as [Hrl Hct].
    unfold push_bounded. rewrite length_app. simpl.
    destruct (Nat.ltb_spec 4 (length (recent_movement st) + 1)); [lia|].
    rewrite length_app, count_true_snoc. simpl.
    split; [lia|].
    destruct (movement_detected cfg h') eqn:Emd; [|lia].
    destruct (Nat.le_gt_cases (length h') 2) as [Hle|Hgt].
    + rewrite movement_detected_short in Emd by done. discriminate.
    + lia.
  - intros Hn. by apply deque_append_nonempty.
  - rewrite El. eauto.
Qed.

Lemma evaluate_track_seen cfg line red h moving st :
  track_seen cfg h st ->
  track_seen cfg h (ev_status (evaluate cfg line red h moving st)).
Proof.
  intros ((Hh & Hr & Hv & Hl & Hm) & Hne & Hlp).
  destruct (evaluate_fields cfg line red h moving st) as (Er & El & Ev).
  unfold track_seen, track_ok. rewrite Er, El.
  repeat split; try done; try lia; by apply Hm.
Qed.

(** ** The invariant of the controller *)

Lemma tracks_ok_maps_ok cfg c :
  tracks_ok cfg c <-> maps_ok cfg (vehicle_history c) (vehicle_statuses c).
Proof. done. Qed.

Lemma maps_ok_default cfg hist statuses (k : Z) :
  maps_ok cfg hist statuses ->
  track_ok cfg (default [] (hist !! k)) (default new_status (statuses !! k)).
Proof.
  intros Hok. destruct (Hok k) as [[-> ->]|(h & st & -> & -> & Hs)]; simpl.
  - apply track_ok_new.
  - by apply track_seen_ok.
Qed.

Lemma maps_ok_insert cfg hist statuses (k : Z) h st :
  maps_ok cfg hist statuses -> track_seen cfg h st ->
  maps_ok cfg (<[k := h]> hist) (<[k := st]> statuses).
Proof.
  intros Hok Hs j. destruct (decide (k = j)) as [->|Hne].
  - right. exists h, st. by rewrite !lookup_insert_eq.
  - rewrite !lookup_insert_ne by done. apply Hok.
Qed.

Lemma update_track_tracks_ok cfg c t :
  tracks_ok cfg c -> tracks_ok cfg (fst (update_track cfg c t)).
Proof.
  intros Hok. rewrite update_track_exact. cbv zeta. cbn [fst].
  apply tracks_ok_maps_ok. cbn [vehicle_history vehicle_statuses].
  apply maps_ok_insert; [done|].
  apply update_status_track_seen. by apply maps_ok_default.
Qed.

Lemma update_tracks_tracks_ok cfg ts : forall c,
  tracks_ok cfg c -> tracks_ok cfg (fst (update_tracks cfg c ts)).
Proof.
  induction ts as [|t ts IH]; intros c Hok; [done|].
  rewrite update_tracks_cons. cbn [fst].
  by apply IH, update_track_tracks_ok.
Qed.

Lemma cleanup_tracks_ok cfg c ids :
  tracks_ok cfg c -> tracks_ok cfg (cleanup_old_vehicle_data c ids).
Proof.
  intros Hok k.
  rewrite cleanup_history_lookup, cleanup_statuses_lookup.
  destruct (decide (k ∈ ids)); [apply Hok|].
  destruct (decide (k ∈ dom (vehicle_history c))) as [|Hd]; [by left|].
  left. apply not_elem_of_dom in Hd.
  destruct (Hok k) as [[_ ->]|(h & st & Hh & _)]; [done|congruence].
Qed.

Lemma tracking_pass_tracks_ok cfg c f :
  tracks_ok cfg c -> tracks_ok cfg (fst (tracking_pass cfg c f)).
Proof.
  intros Hok. rewrite tracking_pass_eq. cbn [fst]. unfold cleanup_call.
  destruct (defines_cleanup cfg).
  - by apply cleanup_tracks_ok, update_tracks_tracks_ok.
  - by apply update_tracks_tracks_ok.
Qed.

Lemma evaluate_track_maps_ok cfg line red hist acc tv :
  maps_ok cfg hist (fst acc) ->
  maps_ok cfg hist (fst (fst (evaluate_track cfg line red hist acc tv))).
Proof.
  intros Hok. unfold evaluate_track. destruct acc as [statuses vs].
  destruct (hist !! tv_id tv) as [h|] eqn:Eh; [|done].
  destruct (statuses !! tv_id tv) as [st|] eqn:Es; [|done]. cbn [fst].
  assert (Hseen : track_seen cfg h st).
  { destruct (Hok (tv_id tv)) as [[? _]|(h0 & st0 & Hh & Hs & Hseen)];
      [congruence|].
    simpl in Hs. congruence. }
  pose proof (maps_ok_insert cfg hist statuses (tv_id tv) h
                (ev_status (evaluate cfg line red h (is_moving tv) st))
                Hok (evaluate_track_seen cfg line red h (is_moving tv) st Hseen))
    as Hins.
  by rewrite (insert_id hist (tv_id tv) h Eh) in Hins.
Qed.

Lemma evaluate_tracks_maps_ok cfg line red hist tvs : forall acc,
  maps_ok cfg hist (fst acc) ->
  maps_ok cfg hist (fst (fst (evaluate_tracks cfg line red hist acc tvs))).
Proof.
  induction tvs as [|tv tvs IH]; intros acc Hok; [done|].
  rewrite evaluate_tracks_cons. cbn [fst].
  by apply IH, evaluate_track_maps_ok.
Qed.

Lemma process_frame_tracks_ok cfg c f :
  tracks_ok cfg c -> tracks_ok cfg (fst (process_frame cfg c f)).
Proof.
  intros Hok. apply (tracking_pass_tracks_ok cfg c f) in Hok.
  apply tracks_ok_maps_ok. rewrite process_frame_history.
  destruct (frame_evaluates cfg c f) eqn:Hg.
  - destruct (frame_evaluates_open cfg c f Hg) as (line & _ & -> & _).
    by apply (evaluate_tracks_maps_ok _ _ _ _ _ (_, [])).
  - destruct (frame_evaluates_closed cfg c f Hg) as (-> & _). done.
Qed.

Lemma reachable_tracks_ok cfg c : reachable cfg c -> tracks_ok cfg c.
Proof.
  induction 1 as [|c f _ IH]; [by left|].
  by apply process_frame_tracks_ok.
Qed.

Lemma tracks_ok_history cfg c (k : Z) h :
  tracks_ok cfg c -> vehicle_history c !! k = Some h ->
  exists st, vehicle_statuses c !! k = Some st /\ track_seen cfg h st.
Proof.
  intros Hok Hh. destruct (Hok k) as [[? _]|(h0 & st & Hh0 & Hs & Hseen)];
    [congruence|].
  exists st. split; [done|]. congruence.
Qed.

Lemma tracks_ok_status cfg c (k : Z) st :
  tracks_ok cfg c -> vehicle_statuses c !! k = Some st ->
  exists h, vehicle_history c !! k = Some h /\ track_seen cfg h st.
Proof.
  intros Hok Hs. destruct (Hok k) as [[_ ?]|(h & st0 & Hh & Hs0 & Hseen)];
    [congruence|].
  exists h. split; [done|]. congruence.
Qed.

(** ** Bounds of the per-track lists *)

(** X1. The position history of a track never holds more than
    [position_history_size] positions, and holds at least one when that
    size is not zero. *)
Theorem position_history_bounded (cfg : config) (c : controller) (k : Z)
    (h : list Q) :
  reachable cfg c ->
  vehicle_history c !! k = Some h ->
  (length h <= position_history_size cfg)%nat
  /\ ((1 <= position_history_size cfg)%nat -> (1 <= length h)%nat).
Proof.
  intros Hc Hh. apply reachable_tracks_ok in Hc.
  destruct (tracks_ok_history cfg c k h Hc Hh)
    as (st & _ & (Hlen & _) & Hne & _).
  split; [done|]. intros Hn. specialize (Hne Hn).
  destruct h; [done|simpl; lia].
Qed.

Lemma position_history_bounded_witness :
  reachable default_config (run default_config initial_controller crossing_frames)
  /\ vehicle_history
       (run default_config initial_controller crossing_frames) !! 7
     = Some (map (fun y : Z => (inject_Z (y - 50) + inject_Z (y + 50)) / 2)%Q
               [100; 110; 120; 130; 150])
  /\ (5 <= position_history_size default_config)%nat.
Proof.
  assert (Hr : reachable default_config
                 (run default_config initial_controller crossing_frames)).
  { apply reachable_run. constructor. }
  assert (Hh : vehicle_history
                 (run default_config initial_controller crossing_frames) !! 7
               = Some (map (fun y : Z =>
                              (inject_Z (y - 50) + inject_Z (y + 50)) / 2)%Q
                         [100; 110; 120; 130; 150])).
  { vm_compute. reflexivity. }
  split; [exact Hr|]. split; [exact Hh|].
  exact (proj1 (position_history_bounded default_config _ 7 _ Hr Hh)).
Defined.

(** X2. The movement samples of a track never number more than 4, and its
    record of raw crossings never more than 5. *)
Theorem status_lists_bounded (cfg : config) (c : controller) (k : Z)
    (st : status) :
  reachable cfg c ->
  vehicle_statuses c !! k = Some st ->
  (length (recent_movement st) <= 4)%nat
  /\ (length (violation_history st) <= 5)%nat.
Proof.
  intros Hc Hs. apply reachable_tracks_ok in Hc.
  by destruct (tracks_ok_status cfg c k st Hc Hs)
    as (h & _ & (_ & Hr & Hv & _) & _).
Qed.

Lemma status_lists_bounded_witness :
  reachable default_config (run default_config initial_controller crossing_frames)
  /\ vehicle_statuses
       (run default_config initial_controller crossing_frames) !! 7
     = Some status_after_crossing
  /\ (length (recent_movement status_after_crossing) <= 4)%nat
  /\ (length (violation_history status_after_crossing) <= 5)%nat.
Proof.
  assert (Hr : reachable default_config
                 (run default_config initial_controller crossing_frames)).
  { apply reachable_run. constructor. }
  assert (Hs : vehicle_statuses
                 (run default_config initial_controller crossing_frames) !! 7
               = Some status_after_crossing).
  { vm_compute. reflexivity. }
  split; [exact Hr|]. split; [exact Hs|].
  exact (status_lists_bounded default_config _ 7 _ Hr Hs).
Defined.

(** X3. The [last_position] of a track is the last entry of its position
    history, as long as the history keeps any position. *)
Theorem last_position_is_last_of_history (cfg : config) (c : controller)
    (k : Z) (h : list Q) (st : status) :
  reachable cfg c ->
  (1 <= position_history_size cfg)%nat ->
  vehicle_history c !! k = Some h ->
  vehicle_statuses c !! k = Some st ->
  is_Some (last h) /\ last_position st = last h.
Proof.
  intros Hc Hn Hh Hs. apply reachable_tracks_ok in Hc.
  destruct (tracks_ok_history cfg c k h Hc Hh)
    as (st' & Hs' & (_ & _ & _ & Hl & _) & Hne & _).
  assert (st' = st) as -> by congruence.
  specialize (Hne Hn). apply last_is_Some in Hne as [y Hy].
  split; [by exists y|]. rewrite Hy. by apply Hl.
Qed.

Lemma last_position_is_last_of_history_witness :
  reachable default_config (run default_config initial_controller crossing_frames)
  /\ (1 <= position_history_size default_config)%nat
  /\ vehicle_statuses
       (run default_config initial_controller crossing_frames) !! 7
     = Some status_after_crossing
  /\ last_position status_after_crossing
     = last (map (fun y : Z => (inject_Z (y - 50) + inject_Z (y + 50)) / 2)%Q
               [100; 110; 120; 130; 150]).
Proof.
  assert (Hr : reachable default_config
                 (run default_config initial_controller crossing_frames)).
  { apply reachable_run. constructor. }
  assert (Hh : vehicle_history
                 (run default_config initial_controller crossing_frames) !! 7
               = Some (map (fun y : Z =>
                              (inject_Z (y - 50) + inject_Z (y + 50)) / 2)%Q
                         [100; 110; 120; 130; 150])).
  { vm_compute. reflexivity. }
  assert (Hs : vehicle_statuses
                 (run default_config initial_controller crossing_frames) !! 7
               = Some status_after_crossing).
  { vm_compute. reflexivity. }
  assert (Hn : (1 <= position_history_size default_config)%nat)
    by (simpl; lia).
  split; [exact Hr|]. split; [exact Hn|]. split; [exact Hs|].
  exact (proj2 (last_position_is_last_of_history default_config _ 7 _ _ Hr
                  Hn Hh Hs)).
Defined.

(** ** What a Violation Record stands for *)

Lemma evaluate_emit_true cfg line red h moving st :
  ev_emit (evaluate cfg line red h moving st) = true ->
  red = true /\ moving = true
  /\ (suspicious_jumps st <= 1)
  /\ (exists cd, ev_crossing (evaluate cfg line red h moving st) = Some cd
                 /\ crossing_scan cfg h line = Some cd)
  /\ ev_is_violation (evaluate cfg line red h moving st) = true.
Proof.
  intros He. pose proof He as He'. rewrite evaluate_emit in He'.
  apply andb_true_iff in He' as [He' Hsj].
  apply andb_true_iff in He' as [He' ->].
  apply andb_true_iff in He' as [Hc ->].
  apply bool_decide_eq_true_1 in Hc as [cd Hcd].
  split; [done|]. split; [done|]. split; [by apply Z.leb_le|].
  split; [by exists cd|].
  unfold evaluate. cbn [ev_is_violation]. rewrite Hcd, Hsj.
  by rewrite bool_decide_eq_true_2.
Qed.

(** Where the records of the loop come from. *)
Lemma evaluate_tracks_records cfg line red hist tvs : forall acc v,
  v ∈ snd (fst (evaluate_tracks cfg line red hist acc tvs)) ->
  v ∈ snd acc
  \/ exists tv h st,
       tv ∈ tvs
       /\ hist !! tv_id tv = Some h
       /\ ev_emit (evaluate cfg line red h (is_moving tv) st) = true
       /\ v = violation_record cfg line tv
                (ev_crossing (evaluate cfg line red h (is_moving tv) st)) h
       /\ set_is_violation
            (ev_is_violation (evaluate cfg line red h (is_moving tv) st)) tv
          ∈ snd (evaluate_tracks cfg line red hist acc tvs).
Proof.
  induction tvs as [|tv tvs IH]; intros acc v Hv; [by left|].
  rewrite evaluate_tracks_cons in Hv. cbn [fst snd] in Hv.
  rewrite evaluate_tracks_cons. cbn [snd].
  destruct (IH _ v Hv) as [Hacc1|(tv' & h & st & Htv' & Hh & He & -> & Hout)].
  - destruct acc as [statuses vs].
    unfold evaluate_track in Hacc1 |- *.
    destruct (hist !! tv_id tv) as [h|] eqn:Eh; [|by left].
    destruct (statuses !! tv_id tv) as [st|] eqn:Es; [|by left].
    cbn [fst snd] in Hacc1 |- *.
    destruct (ev_emit _) eqn:He; [|by left].
    apply elem_of_app in Hacc1 as [?|Hlast]; [by left|].
    apply list_elem_of_singleton in Hlast as ->.
    right. exists tv, h, st.
    split; [by left|]. split; [done|]. split; [done|]. split; [done|].
    by left.
  - right. exists tv', h, st.
    split; [by right|]. split; [done|]. split; [done|]. split; [done|].
    by right.
Qed.

Lemma frame_evaluates_violations cfg c f line :
  frame_evaluates cfg c f = true ->
  violation_line_y f = Some line ->
  violations (snd (process_frame cfg c f))
  = snd (fst (evaluate_tracks cfg line (is_red_light c)
                (vehicle_history (fst (tracking_pass cfg c f)))
                (vehicle_statuses (fst (tracking_pass cfg c f)), [])
                (snd (tracking_pass cfg c f)))).
Proof.
  intros Hg Hline. unfold frame_evaluates in Hg.
  destruct (violation_pass_open cfg (fst (tracking_pass cfg c f)) f _ Hg)
    as (line' & Hline' & Hvp).
  assert (line' = line) as -> by congruence.
  rewrite process_frame_eq. cbv zeta. rewrite Hvp. cbn [fst snd violations].
  unfold is_red_light. by rewrite tracking_pass_latest.
Qed.

(** X4. A Violation Record is emitted only under a red light, for a tracked
    vehicle of the frame that is moving and is flagged as violating in
    that frame; it carries the frame's line, and the pair of positions
    of the track's history that goes over that line (so the fallback of
    the ['movement'] field is never used), and the last ten positions
    of that history. *)
Theorem violation_record_anatomy (cfg : config) (c : controller)
    (f : frame_input) (v : violation) :
  v ∈ violations (snd (process_frame cfg c f)) ->
  is_red_light c = true
  /\ exists line tv cd h,
       violation_line_y f = Some line
       /\ tv ∈ tracked_vehicles (snd (process_frame cfg c f))
       /\ v_track_id v = tv_id tv
       /\ is_moving tv = true
       /\ is_violation tv = true
       /\ v_line_position v = line
       /\ v_movement v = inl cd
       /\ vehicle_history (fst (process_frame cfg c f)) !! tv_id tv = Some h
       /\ pair_ago h (frames_ago cd) (prev_y cd) (curr_y cd)
       /\ over_line line (prev_y cd) (curr_y cd)
       /\ v_position_history v = last_n 10 h.
Proof.
  intros Hv.
  destruct (frame_evaluates cfg c f) eqn:Hg.
  2:{ destruct (frame_evaluates_closed cfg c f Hg) as (_ & _ & Hnil).
      rewrite Hnil in Hv. by apply elem_of_nil in Hv. }
  destruct (frame_evaluates_open cfg c f Hg) as (line & Hline & Hs & Htvs).
  rewrite (frame_evaluates_violations cfg c f line Hg Hline) in Hv.
  apply evaluate_tracks_records in Hv
    as [Hnil|(tv & h & st & Htv & Hh & He & -> & Hout)];
    [by apply elem_of_nil in Hnil|].
  destruct (evaluate_emit_true _ _ _ _ _ _ He)
    as (Hred & Hmov & _ & (cd & Hcd & Hscan) & Hviol).
  split; [done|].
  exists line, (set_is_violation true tv), cd, h.
  rewrite Hviol in Hout. rewrite Htvs.
  apply crossing_scan_Some in Hscan as (_ & Hp & Ho & _).
  split; [done|]. split; [done|].
  rewrite process_frame_history. rewrite Hcd.
  unfold violation_record. destruct (tv_bbox tv) as [[[x1 y1] x2] y2]. simpl.
  do 6 (split; [done|]). split; [exact Hp|]. split; [exact Ho|]. done.
Qed.

Lemma violation_record_anatomy_witness :
  crossing_record
    ∈ violations
        (snd (process_frame default_config
                (run default_config initial_controller (take 4 crossing_frames))
                (car_frame true (140#1) 150)))
  /\ is_red_light
       (run default_config initial_controller (take 4 crossing_frames)) = true.
Proof.
  assert (Hv : crossing_record
                 ∈ violations
                     (snd (process_frame default_config
                             (run default_config initial_controller
                                (take 4 crossing_frames))
                             (car_frame true (140#1) 150)))).
  { vm_compute. apply list_elem_of_here. }
  split; [exact Hv|].
  exact (proj1 (violation_record_anatomy default_config _ _ _ Hv)).
Defined.

(** ** A track needs four positions to be moving *)

Lemma track_seen_moving cfg h st :
  (4 <= position_history_size cfg)%nat ->
  track_seen cfg h st ->
  moving_of (recent_movement st) = true ->
  (4 <= length h)%nat.
Proof.
  intros Hn ((_ & _ & _ & _ & Hm) & _) Hmov.
  apply moving_of_spec in Hmov.
  destruct (Nat.le_gt_cases (length h) 3) as [Hle|]; [|lia].
  destruct (Hm Hn Hle) as [Hlen Hct]. lia.
Qed.

Lemma length_deque_append_ge {A} (n : nat) (l : list A) (x : A) :
  (length l <= length (deque_append n l x))%nat.
Proof.
  rewrite length_deque_append. destruct (n <? S (length l))%nat; lia.
Qed.

Lemma update_track_history_grows cfg c t (k : Z) h :
  vehicle_history c !! k = Some h ->
  exists h2,
    vehicle_history (fst (update_track cfg c t)) !! k = Some h2
    /\ (length h <= length h2)%nat.
Proof.
  intros Hh. rewrite update_track_exact. cbv zeta. cbn [fst vehicle_history].
  destruct (decide (t.1 = k)) as [->|Hne].
  - rewrite lookup_insert_eq, Hh. simpl. eexists. split; [done|].
    apply length_deque_append_ge.
  - rewrite lookup_insert_ne by done. by exists h.
Qed.

Lemma update_tracks_history_grows cfg ts : forall c (k : Z) h,
  vehicle_history c !! k = Some h ->
  exists h2,
    vehicle_history (fst (update_tracks cfg c ts)) !! k = Some h2
    /\ (length h <= length h2)%nat.
Proof.
  induction ts as [|t ts IH]; intros c k h Hh; [by exists h|].
  rewrite update_tracks_cons. cbn [fst].
  destruct (update_track_history_grows cfg c t k h Hh) as (h1 & Hh1 & Hle1).
  destruct (IH _ k h1 Hh1) as (h2 & Hh2 & Hle2).
  exists h2. split; [done|lia].
Qed.

Lemma update_tracks_moving cfg ts : forall c tv,
  (4 <= position_history_size cfg)%nat ->
  tracks_ok cfg c ->
  tv ∈ snd (update_tracks cfg c ts) ->
  is_moving tv = true ->
  exists h,
    vehicle_history (fst (update_tracks cfg c ts)) !! tv_id tv = Some h
    /\ (4 <= length h)%nat.
Proof.
  induction ts as [|t ts IH]; intros c tv Hn Hok Htv Hmov;
    [by apply elem_of_nil in Htv|].
  rewrite update_tracks_cons in Htv |- *. cbn [fst snd] in Htv |- *.
  apply elem_of_cons in Htv as [->|Htv].
  - pose proof (update_track_tracks_ok cfg c t Hok) as Hok1.
    rewrite update_track_exact in Hmov, Hok1 |- *.
    cbv zeta in Hmov, Hok1 |- *. cbn [fst snd is_moving tv_id] in Hmov, Hok1 |- *.
    set (c1 := {| vehicle_history := _ |}) in *.
    destruct (Hok1 t.1) as [[Hnone _]|(h1 & st1 & Hh1 & Hs1 & Hseen)].
    { unfold c1 in Hnone. cbn [vehicle_history] in Hnone.
      by rewrite lookup_insert_eq in Hnone. }
    assert (Hst : vehicle_statuses c1 !! t.1
                  = Some (update_status cfg
                            (default new_status (vehicle_statuses c !! t.1))
                            (deque_append (position_history_size cfg)
                               (default [] (vehicle_history c !! t.1))
                               (box_center_y t.2))
                            (box_center_y t.2))).
    { unfold c1. cbn [vehicle_statuses]. by rewrite lookup_insert_eq. }
    rewrite Hs1 in Hst. injection Hst as Hst. rewrite <- Hst in Hmov.
    pose proof (track_seen_moving cfg h1 st1 Hn Hseen Hmov) as Hlen.
    destruct (update_tracks_history_grows cfg ts c1 t.1 h1 Hh1)
      as (h2 & Hh2 & Hle).
    exists h2. split; [done|lia].
  - apply IH; try done. by apply update_track_tracks_ok.
Qed.

Lemma tracking_pass_moving cfg c f tv :
  (4 <= position_history_size cfg)%nat ->
  tracks_ok cfg c ->
  tv ∈ snd (tracking_pass cfg c f) ->
  is_moving tv = true ->
  exists h,
    vehicle_history (fst (tracking_pass cfg c f)) !! tv_id tv = Some h
    /\ (4 <= length h)%nat.
Proof.
  intros Hn Hok Htv Hmov.
  assert (Hid : tv_id tv ∈ frame_track_ids cfg f).
  { rewrite <- (tracking_pass_ids cfg c f). by apply list_elem_of_fmap_2. }
  rewrite tracking_pass_eq in Htv |- *. cbn [fst snd] in Htv |- *.
  rewrite (proj1 (cleanup_call_lookup cfg _ _ (tv_id tv) Hid)).
  by apply update_tracks_moving.
Qed.

Lemma length_last_n {A} (n : nat) (l : list A) :
  length (last_n n l) = Nat.min n (length l).
Proof. unfold last_n. rewrite length_drop. lia. Qed.

(** X5. A track is marked as moving, and a Violation Record is emitted for
    it, only once its history holds four positions: a record carries at
    least four positions. *)
Theorem moving_needs_four_positions (cfg : config) (c : controller)
    (f : frame_input) :
  reachable cfg c ->
  (4 <= position_history_size cfg)%nat ->
  (forall tv,
     tv ∈ tracked_vehicles (snd (process_frame cfg c f)) ->
     is_moving tv = true ->
     exists h,
       vehicle_history (fst (process_frame cfg c f)) !! tv_id tv = Some h
       /\ (4 <= length h)%nat)
  /\ (forall v,
        v ∈ violations (snd (process_frame cfg c f)) ->
        (4 <= length (v_position_history v))%nat).
Proof.
  intros Hc Hn. apply reachable_tracks_ok in Hc.
  split.
  - intros tv Htv Hmov. rewrite process_frame_history.
    assert (Htv' : exists tv0, tv0 ∈ snd (tracking_pass cfg c f)
                     /\ tv_id tv0 = tv_id tv /\ is_moving tv0 = is_moving tv).
    { destruct (frame_evaluates cfg c f) eqn:Hg.
      - destruct (frame_evaluates_open cfg c f Hg) as (line & _ & _ & Htvs).
        rewrite Htvs in Htv. clear Htvs.
        revert Htv.
        generalize (vehicle_statuses (fst (tracking_pass cfg c f)),
                    @nil violation).
        induction (snd (tracking_pass cfg c f)) as [|tv1 tvs IH];
          intros acc Htv; [by apply elem_of_nil in Htv|].
        rewrite evaluate_tracks_cons in Htv. cbn [snd] in Htv.
        apply elem_of_cons in Htv as [->|Htv].
        + exists tv1. split; [by left|].
          unfold evaluate_track. destruct acc as [statuses vs].
          by destruct (_ !! tv_id tv1), (statuses !! tv_id tv1).
        + destruct (IH _ Htv) as (tv0 & Hin & Hid & Hm).
          exists tv0. split; [by right|done].
      - destruct (frame_evaluates_closed cfg c f Hg) as (_ & Htvs & _).
        rewrite Htvs in Htv. by exists tv. }
    destruct Htv' as (tv0 & Hin & Hid & Hm).
    rewrite <- Hid. apply tracking_pass_moving; try done. congruence.
  - intros v Hv.
    destruct (frame_evaluates cfg c f) eqn:Hg.
    2:{ destruct (frame_evaluates_closed cfg c f Hg) as (_ & _ & Hnil).
        rewrite Hnil in Hv. by apply elem_of_nil in Hv. }
    destruct (frame_evaluates_open cfg c f Hg) as (line & Hline & _ & _).
    rewrite (frame_evaluates_violations cfg c f line Hg Hline) in Hv.
    apply evaluate_tracks_records in Hv
      as [Hnil|(tv & h & st & Htv & Hh & He & -> & _)];
      [by apply elem_of_nil in Hnil|].
    destruct (evaluate_emit_true _ _ _ _ _ _ He) as (_ & Hmov & _).
    destruct (tracking_pass_moving cfg c f tv Hn Hc Htv Hmov)
      as (h' & Hh' & Hlen).
    assert (h' = h) as -> by congruence.
    unfold violation_record. destruct (tv_bbox tv) as [[[x1 y1] x2] y2].
    cbn [v_position_history]. rewrite length_last_n. lia.
Qed.

Lemma moving_needs_four_positions_witness :
  reachable default_config
    (run default_config initial_controller (take 4 crossing_frames))
  /\ (4 <= position_history_size default_config)%nat
  /\ crossing_record
       ∈ violations
           (snd (process_frame default_config
                   (run default_config initial_controller
                      (take 4 crossing_frames))
                   (car_frame true (140#1) 150)))
  /\ (4 <= length (v_position_history crossing_record))%nat.
Proof.
  assert (Hr : reachable default_config
                 (run default_config initial_controller
                    (take 4 crossing_frames))).
  { apply reachable_run. constructor. }
  assert (Hn : (4 <= position_history_size default_config)%nat)
    by (simpl; lia).
  assert (Hv : crossing_record
                 ∈ violations
                     (snd (process_frame default_config
                             (run default_config initial_controller
                                (take 4 crossing_frames))
                             (car_frame true (140#1) 150)))).
  { vm_compute. apply list_elem_of_here. }
  split; [exact Hr|]. split; [exact Hn|]. split; [exact Hv|].
  exact (proj2 (moving_needs_four_positions default_config _ _ Hr Hn)
           crossing_record Hv).
Defined.

(** ** A track from one frame to the next *)

(** X6. With distinct track IDs in the frame, the history of a track of the
    frame is, at the end of the frame, its previous history (empty for a
    new track) followed by the centre height of its box, cut to the
    last [position_history_size] positions. *)
Theorem track_history_extended (cfg : config) (c : controller)
    (f : frame_input) (k : Z) (box : bbox) :
  reachable cfg c ->
  NoDup (frame_track_ids cfg f) ->
  (k, box) ∈ frame_tracks cfg f ->
  vehicle_history (fst (process_frame cfg c f)) !! k
  = Some (last_n (position_history_size cfg)
            (default [] (vehicle_history c !! k) ++ [box_center_y box])).
Proof.
  intros Hc Hnd Hin. apply reachable_tracks_ok in Hc.
  rewrite process_frame_history.
  destruct (tracking_pass_lookup cfg c f k box Hnd Hin) as [-> _].
  f_equal. apply deque_append_last_n.
  destruct (vehicle_history c !! k) as [h|] eqn:Eh; simpl; [|lia].
  by destruct (tracks_ok_history cfg c k h Hc Eh) as (st & _ & (Hlen & _) & _).
Qed.

Lemma track_history_extended_witness :
  reachable default_config
    (run default_config initial_controller (take 4 crossing_frames))
  /\ NoDup (frame_track_ids default_config (car_frame true (140#1) 150))
  /\ (7, car_box 150) ∈ frame_tracks default_config (car_frame true (140#1) 150)
  /\ vehicle_history
       (fst (process_frame default_config
               (run default_config initial_controller (take 4 crossing_frames))
               (car_frame true (140#1) 150))) !! 7
     = Some (last_n 20
               (default []
                  (vehicle_history
                     (run default_config initial_controller
                        (take 4 crossing_frames)) !! 7)
                ++ [box_center_y (car_box 150)])).
Proof.
  assert (Hr : reachable default_config
                 (run default_config initial_controller
                    (take 4 crossing_frames))).
  { apply reachable_run. constructor. }
  assert (Hnd : NoDup (frame_track_ids default_config
                         (car_frame true (140#1) 150))).
  { apply NoDup_singleton. }
  assert (Hin : (7, car_box 150)
                  ∈ frame_tracks default_config (car_frame true (140#1) 150)).
  { apply list_elem_of_here. }
  split; [exact Hr|]. split; [exact Hnd|]. split; [exact Hin|].
  exact (track_history_extended default_config _ _ 7 (car_box 150) Hr Hnd Hin).
Defined.

(** ** The sticky flag while the light stays red *)

Lemma jump_check_keeps_crossed cfg st y :
  registers_jump cfg st y = false \/ suspicious_jumps st + 1 <= 2 ->
  crossed_during_red (jump_check cfg st y) = crossed_during_red st.
Proof.
  unfold registers_jump, jump_check.
  destruct (last_position st) as [last_y|]; [|done].
  destruct (Qltb _ _); [|done].
  intros [?|Hs]; [done|]. simpl.
  destruct (Z.ltb_spec 2 (suspicious_jumps st + 1)); [lia|done].
Qed.

Lemma evaluate_keeps_crossed cfg line h moving st :
  crossed_during_red st = true ->
  crossed_during_red (ev_status (evaluate cfg line true h moving st)) = true.
Proof.
  intros Hc. unfold evaluate. cbn [ev_status negb].
  destruct (bool_decide _ && moving && true)%bool,
    (suspicious_jumps st <=? 1); done.
Qed.

Lemma evaluate_tracks_keeps_crossed cfg line hist tvs (k : Z) : forall acc,
  (exists st, fst acc !! k = Some st /\ crossed_during_red st = true) ->
  exists st',
    (fst (fst (evaluate_tracks cfg line true hist acc tvs))) !! k = Some st'
    /\ crossed_during_red st' = true.
Proof.
  induction tvs as [|tv tvs IH]; intros acc Hacc; [done|].
  rewrite evaluate_tracks_cons. cbn [fst]. apply IH.
  destruct Hacc as (st & Hst & Hc).
  destruct (decide (k = tv_id tv)) as [->|Hne].
  - unfold evaluate_track. destruct acc as [statuses vs]. simpl in Hst.
    destruct (hist !! tv_id tv) as [h|]; [|by exists st].
    rewrite Hst. cbn [fst]. rewrite lookup_insert_eq.
    eexists. split; [done|]. by apply evaluate_keeps_crossed.
  - exists st. by rewrite evaluate_track_lookup_ne.
Qed.

(** X7. With distinct track IDs in the frame: a track whose sticky flag is
    set keeps it over a frame read under a red light, whether the
    violation block runs or not and whatever its positions, unless the
    jump check of the frame takes its counter past 2; and when the block
    runs the track is flagged as violating. *)
Theorem crossed_during_red_sticky (cfg : config) (c : controller)
    (f : frame_input) (k : Z) (box : bbox) (st : status) :
  NoDup (frame_track_ids cfg f) ->
  (k, box) ∈ frame_tracks cfg f ->
  vehicle_statuses c !! k = Some st ->
  crossed_during_red st = true ->
  is_red_light c = true ->
  registers_jump cfg st (box_center_y box) = false
  \/ suspicious_jumps st + 1 <= 2 ->
  (exists st',
     vehicle_statuses (fst (process_frame cfg c f)) !! k = Some st'
     /\ crossed_during_red st' = true)
  /\ (frame_evaluates cfg c f = true ->
      forall tv,
        tv ∈ tracked_vehicles (snd (process_frame cfg c f)) ->
        tv_id tv = k -> is_violation tv = true).
Proof.
  intros Hnd Hin Hst Hcr Hred Hjump.
  destruct (tracking_pass_lookup cfg c f k box Hnd Hin) as [Hh1 Hs1].
  rewrite Hst in Hs1. simpl in Hs1.
  set (st1 := update_status cfg st _ _) in Hs1.
  assert (Hc1 : crossed_during_red st1 = true).
  { unfold st1, update_status. simpl.
    by rewrite jump_check_keeps_crossed. }
  assert (Hfinal : exists st',
             vehicle_statuses (fst (process_frame cfg c f)) !! k = Some st'
             /\ crossed_during_red st' = true).
  { destruct (frame_evaluates cfg c f) eqn:Hg.
    - destruct (frame_evaluates_open cfg c f Hg) as (line & _ & -> & _).
      rewrite Hred. apply evaluate_tracks_keeps_crossed. by exists st1.
    - destruct (frame_evaluates_closed cfg c f Hg) as (-> & _).
      by exists st1. }
  split; [exact Hfinal|].
  intros Hg tv Htv Hid.
  destruct (frame_evaluates_open cfg c f Hg) as (line & _ & Hs & Htvs).
  rewrite Htvs in Htv.
  pose proof (evaluate_tracks_flags cfg line (is_red_light c)
                (vehicle_history (fst (tracking_pass cfg c f)))
                (snd (tracking_pass cfg c f))
                (vehicle_statuses (fst (tracking_pass cfg c f)), [])) as HF.
  rewrite Forall_forall in HF.
  destruct (HF ltac:(by rewrite tracking_pass_ids)
               ltac:(intros tv' Htv'; by apply tracking_pass_entries)
               tv Htv) as (st' & Hst' & Hflag).
  rewrite <- Hs, Hid in Hst'.
  destruct Hfinal as (st'' & Hst'' & Hc'').
  assert (st'' = st') as -> by congruence.
  by rewrite Hflag, Hc'', Hred.
Qed.

Lemma crossed_during_red_sticky_witness :
  NoDup (frame_track_ids default_config (car_frame true (140#1) 160))
  /\ (7, car_box 160) ∈ frame_tracks default_config (car_frame true (140#1) 160)
  /\ vehicle_statuses
       (run default_config initial_controller crossing_frames) !! 7
     = Some status_after_crossing
  /\ crossed_during_red status_after_crossing = true
  /\ is_red_light (run default_config initial_controller crossing_frames) = true
  /\ exists st',
       vehicle_statuses
         (fst (process_frame default_config
                 (run default_config initial_controller crossing_frames)
                 (car_frame true (140#1) 160))) !! 7 = Some st'
       /\ crossed_during_red st' = true.
Proof.
  assert (Hnd : NoDup (frame_track_ids default_config
                         (car_frame true (140#1) 160))).
  { apply NoDup_singleton. }
  assert (Hin : (7, car_box 160)
                  ∈ frame_tracks default_config (car_frame true (140#1) 160)).
  { apply list_elem_of_here. }
  assert (Hs : vehicle_statuses
                 (run default_config initial_controller crossing_frames) !! 7
               = Some status_after_crossing).
  { vm_compute. reflexivity. }
  assert (Hred : is_red_light
                   (run default_config initial_controller crossing_frames)
                 = true).
  { vm_compute. reflexivity. }
  assert (Hj : registers_jump default_config status_after_crossing
                 (box_center_y (car_box 160)) = false
               \/ suspicious_jumps status_after_crossing + 1 <= 2).
  { right. simpl. lia. }
  split; [exact Hnd|]. split; [exact Hin|]. split; [exact Hs|].
  split; [reflexivity|]. split; [exact Hred|].
  exact (proj1 (crossed_during_red_sticky default_config _ _ 7 (car_box 160)
                  status_after_crossing Hnd Hin Hs eq_refl Hred Hj)).
Defined.

(** ** Red-biased consensus *)

Lemma highest_confidence_spec (l : list (bbox * light_info)) : forall x,
  highest_confidence x l ∈ x :: l
  /\ forall y, y ∈ x :: l ->
       (confidence (snd y) <= confidence (snd (highest_confidence x l)))%Q.
Proof.
  induction l as [|y0 l IH]; intros x.
  - simpl. split; [by left|]. intros y Hy.
    apply list_elem_of_singleton in Hy as ->. apply Qle_refl.
  - unfold highest_confidence. simpl.
    set (b := if Qltb (confidence x.2) (confidence y0.2) then y0 else x).
    destruct (IH b) as [Hin Hmax]. fold (highest_confidence b l) in *.
    assert (Hx : (confidence x.2 <= confidence b.2)%Q
                 /\ (confidence y0.2 <= confidence b.2)%Q).
    { unfold b. destruct (Qltb _ _) eqn:E.
      - apply Qltb_lt in E. split; [by apply Qlt_le_weak|apply Qle_refl].
      - split; [apply Qle_refl|].
        apply Qnot_lt_le. intros Hlt. apply Qltb_lt in Hlt. congruence. }
    split.
    + apply elem_of_cons in Hin as [Hb|Hin].
      * rewrite Hb. unfold b. destruct (Qltb _ _); [right; left|left].
      * by right; right.
    + intros y Hy.
      assert (Hb : (confidence b.2
                    <= confidence (highest_confidence b l).2)%Q)
        by (apply Hmax; left).
      apply elem_of_cons in Hy as [->|Hy].
      { eapply Qle_trans; [apply Hx|apply Hb]. }
      apply elem_of_cons in Hy as [->|Hy].
      { eapply Qle_trans; [apply Hx|apply Hb]. }
      apply Hmax. by right.
Qed.

(** X8. When a traffic light of the frame is classified red, the light state
    at the end of the frame is red, with the highest confidence among
    the frame's red lights, whatever the state was before and whatever
    the classifier said of the other lights. *)
Theorem resolver_red_consensus (latest : light_info) (dets : list detection) :
  red_lights (traffic_lights dets) <> [] ->
  color (resolve_traffic_light latest dets) = "red"
  /\ (exists tl, tl ∈ red_lights (traffic_lights dets)
                 /\ confidence (resolve_traffic_light latest dets)
                    = confidence (snd tl))
  /\ (forall tl, tl ∈ red_lights (traffic_lights dets) ->
        (confidence (snd tl)
         <= confidence (resolve_traffic_light latest dets))%Q).
Proof.
  intros Hne. unfold resolve_traffic_light, consensus.
  destruct (red_lights (traffic_lights dets)) as [|x l]; [done|].
  destruct (highest_confidence_spec l x) as [Hin Hmax]. simpl.
  split; [done|]. split; [by exists (highest_confidence x l)|done].
Qed.

Lemma resolver_red_consensus_witness :
  red_lights
    (traffic_lights
       [red_light_with (6#10); red_light_with (9#10); green_light_detection])
  <> []
  /\ color
       (resolve_traffic_light {| color := "green"; confidence := 1 |}
          [red_light_with (6#10); red_light_with (9#10); green_light_detection])
     = "red".
Proof.
  assert (Hne : red_lights
                  (traffic_lights
                     [red_light_with (6#10); red_light_with (9#10);
                      green_light_detection]) <> []).
  { vm_compute. discriminate. }
  split; [exact Hne|].
  exact (proj1 (resolver_red_consensus _ _ Hne)).
Defined.

(** ** Traffic-light labels *)

Lemma lower_ascii_idempotent (c : ascii) :
  Normalizer.lower_ascii (Normalizer.lower_ascii c) = Normalizer.lower_ascii c.
Proof. destruct c as [[] [] [] [] [] [] [] []]; reflexivity. Qed.

Lemma lower_idempotent (s : string) :
  Normalizer.lower (Normalizer.lower s) = Normalizer.lower s.
Proof.
  induction s as [|c s IH]; [done|]. simpl.
  by rewrite lower_ascii_idempotent, IH.
Qed.

Lemma lower_empty (s : string) :
  Normalizer.lower s = EmptyString <-> s = EmptyString.
Proof. by destruct s. Qed.

Lemma str_in_spec (x : string) (l : list string) :
  Normalizer.str_in x l = true <-> In x l.
Proof.
  unfold Normalizer.str_in. rewrite existsb_exists. split.
  - intros (y & Hy & E). apply String.eqb_eq in E. by subst.
  - intros Hx. exists x. split; [done|]. apply String.eqb_refl.
Qed.

(** X9. A label is a traffic light exactly when its lower-case form is one
    of the five spellings of the table; the test ignores the case of
    the label. *)
Theorem is_traffic_light_synonyms (name : string) :
  Normalizer.is_traffic_light (Some name)
  = Normalizer.str_in (Normalizer.lower name)
      ["traffic light"; "trafficlight"; "traffic_light"; "tl"; "signal"]
  /\ Normalizer.is_traffic_light (Some (Normalizer.lower name))
     = Normalizer.is_traffic_light (Some name).
Proof.
  assert (H : forall s,
             Normalizer.is_traffic_light (Some s)
             = Normalizer.str_in (Normalizer.lower s)
                 ["traffic light"; "trafficlight"; "traffic_light"; "tl";
                  "signal"]).
  { intros s. unfold Normalizer.is_traffic_light,
      Normalizer.normalize_class_name, Normalizer.normalize_with.
    destruct (String.eqb s "") eqn:E0.
    { apply String.eqb_eq in E0 as ->. reflexivity. }
    destruct (Normalizer.str_in (Normalizer.lower s)
                ["traffic light"; "trafficlight"; "traffic_light"; "tl";
                 "signal"]) eqn:E1; [reflexivity|].
    repeat match goal with
      | |- context [if Normalizer.str_in ?x ?l then _ else _] =>
          destruct (Normalizer.str_in x l); [reflexivity|]
      end.
    destruct (String.eqb s "traffic light") eqn:E; [|done].
    apply String.eqb_eq in E as ->. vm_compute in E1. discriminate. }
  split; [apply H|]. by rewrite !H, lower_idempotent.
Qed.

(** X10. The normaliser ignores the case of the labels it knows: two labels
    with the same lower-case form get the same canonical name, as soon
    as one of them gets one. *)
Theorem normalize_case_insensitive (a b : string) :
  Normalizer.lower a = Normalizer.lower b ->
  In (Normalizer.normalize_class_name (Some a)) Normalizer.canonical_names ->
  Normalizer.normalize_class_name (Some b)
  = Normalizer.normalize_class_name (Some a).
Proof.
  intros Hab Hcan.
  unfold Normalizer.normalize_class_name, Normalizer.normalize_with in *.
  destruct (String.eqb a "") eqn:Ea.
  { simpl in Hcan. repeat destruct Hcan as [Hcan|Hcan]; discriminate || done. }
  assert (Eb : String.eqb b "" = false).
  { apply String.eqb_neq. intros ->. apply String.eqb_neq in Ea.
    apply Ea. apply lower_empty. by rewrite Hab. }
  rewrite Eb, <- Hab.
  repeat match goal with
    | |- context [if Normalizer.str_in ?x ?l then _ else _] =>
        destruct (Normalizer.str_in x l) eqn:?; [reflexivity|]
    end.
  exfalso.
  assert (Hl : Normalizer.lower a = a).
  { simpl in Hcan. repeat destruct Hcan as [<-|Hcan]; try reflexivity.
    destruct Hcan. }
  rewrite Hl in *.
  simpl in Hcan.
  repeat destruct Hcan as [<-|Hcan]; try discriminate. destruct Hcan.
Qed.

Lemma normalize_case_insensitive_witness :
  Normalizer.lower "TL" = Normalizer.lower "Tl"
  /\ In (Normalizer.normalize_class_name (Some "TL")) Normalizer.canonical_names
  /\ Normalizer.normalize_class_name (Some "Tl") = "traffic light".
Proof.
  assert (Hc : In (Normalizer.normalize_class_name (Some "TL"))
                 Normalizer.canonical_names).
  { left. reflexivity. }
  split; [reflexivity|]. split; [exact Hc|].
  exact (normalize_case_insensitive "TL" "Tl" eq_refl Hc).
Defined.

(** ** Direction of a crossing *)

Lemma pair_ago_replicate (n i : nat) (y p q : Q) :
  pair_ago (replicate n y) i p q -> p = y /\ q = y.
Proof.
  intros (_ & Hp & Hq). rewrite reverse_replicate in Hp, Hq.
  apply lookup_replicate in Hp as [-> _].
  apply lookup_replicate in Hq as [-> _]. done.
Qed.

(** X11. A crossing is reported only on a pair of positions that goes down
    the image, the later position strictly below the earlier one; a
    track that stands still is never reported to cross, wherever the
    line is. *)
Theorem crossing_goes_down (cfg : config) (line : Q) :
  (forall h c, crossing_scan cfg h line = Some c -> (prev_y c < curr_y c)%Q)
  /\ (forall n y, crossing_scan cfg (replicate n y) line = None).
Proof.
  assert (H : forall h c,
             crossing_scan cfg h line = Some c -> (prev_y c < curr_y c)%Q).
  { intros h c Hc. apply crossing_scan_Some in Hc as (_ & _ & [Hlt Hle] & _).
    eapply Qlt_le_trans; [apply Hlt|apply Hle]. }
  split; [exact H|].
  intros n y. destruct (crossing_scan cfg (replicate n y) line) as [c|] eqn:Hc;
    [|done].
  exfalso. pose proof (H _ _ Hc) as Hlt.
  apply crossing_scan_Some in Hc as (_ & Hp & _).
  apply pair_ago_replicate in Hp as [Hp1 Hq1].
  rewrite Hp1, Hq1 in Hlt. by apply Qlt_irrefl in Hlt.
Qed.

Lemma crossing_goes_down_witness :
  crossing_scan default_config [10#1; 20#1; 30#1]%Q (25#1)
  = Some {| frames_ago := 1; prev_y := 20#1; curr_y := 30#1;
            window_checked := 3 |}
  /\ (20#1 < 30#1)%Q.
Proof.
  split; [reflexivity|].
  exact (proj1 (crossing_goes_down default_config (25#1))
           [10#1; 20#1; 30#1]%Q
           {| frames_ago := 1; prev_y := 20#1; curr_y := 30#1;
              window_checked := 3 |} eq_refl).
Defined.

(** ** Overlap of two boxes *)

Lemma py_max_spec (a b : Q) :
  (a <= py_max a b)%Q /\ (b <= py_max a b)%Q
  /\ (py_max a b == a \/ py_max a b == b)%Q.
Proof.
  unfold py_max. destruct (Qltb a b) eqn:E.
  - apply Qltb_lt in E. split; [lra|]. split; [lra|]. right. reflexivity.
  - assert (~ (a < b)%Q) by (intros H; apply Qltb_lt in H; congruence).
    split; [lra|]. split; [lra|]. left. reflexivity.
Qed.

Lemma py_min_spec (a b : Q) :
  (py_min a b <= a)%Q /\ (py_min a b <= b)%Q
  /\ (py_min a b == a \/ py_min a b == b)%Q.
Proof.
  unfold py_min. destruct (Qltb b a) eqn:E.
  - apply Qltb_lt in E. split; [lra|]. split; [lra|]. right. reflexivity.
  - assert (~ (b < a)%Q) by (intros H; apply Qltb_lt in H; congruence).
    split; [lra|]. split; [lra|]. left. reflexivity.
Qed.

Lemma Qmult_le_compat_pos (a b c d : Q) :
  (0 <= a)%Q -> (a <= b)%Q -> (0 <= c)%Q -> (c <= d)%Q -> (a * c <= b * d)%Q.
Proof.
  intros Ha Hab Hc Hcd.
  apply Qle_trans with (b * c)%Q.
  - apply Qmult_le_compat_r; done.
  - rewrite (Qmult_comm b c), (Qmult_comm b d).
    apply Qmult_le_compat_r; [done|lra].
Qed.

(** X12. The overlap ratio of two boxes lies between 0 and 1, whatever the
    boxes are (degenerate or inverted ones included): the division is
    never by zero and the intersection never exceeds the union. *)
Theorem box_iou_bounds (d t : bbox) :
  (0 <= box_iou d t)%Q /\ (box_iou d t <= 1)%Q.
Proof.
  destruct d as [[[x1 y1] x2] y2], t as [[[tx1 ty1] tx2] ty2].
  unfold box_iou.
  destruct (py_max_spec x1 tx1) as (Hx1 & Hx1' & _).
  destruct (py_max_spec y1 ty1) as (Hy1 & Hy1' & _).
  destruct (py_min_spec x2 tx2) as (Hx2 & Hx2' & _).
  destruct (py_min_spec y2 ty2) as (Hy2 & Hy2' & _).
  set (ix1 := py_max x1 tx1) in *. set (iy1 := py_max y1 ty1) in *.
  set (ix2 := py_min x2 tx2) in *. set (iy2 := py_min y2 ty2) in *.
  destruct (Qltb ix1 ix2 && Qltb iy1 iy2)%bool eqn:E; [|split; lra].
  apply andb_true_iff in E as [Ex Ey].
  apply Qltb_lt in Ex. apply Qltb_lt in Ey.
  cbv zeta.
  set (inter := ((ix2 - ix1) * (iy2 - iy1))%Q).
  set (da := ((x2 - x1) * (y2 - y1))%Q).
  set (ta := ((tx2 - tx1) * (ty2 - ty1))%Q).
  assert (Hi : (0 < inter)%Q).
  { unfold inter. apply Qmult_lt_0_compat; lra. }
  assert (Hda : (inter <= da)%Q).
  { unfold inter, da. apply Qmult_le_compat_pos; lra. }
  assert (Hta : (inter <= ta)%Q).
  { unfold inter, ta. apply Qmult_le_compat_pos; lra. }
  destruct (Qltb 0 (da + ta - inter)) eqn:Eu; [|split; lra].
  apply Qltb_lt in Eu.
  split.
  - apply Qle_shift_div_l; [done|lra].
  - apply Qle_shift_div_r; [done|lra].
Qed.

(** X13. A box with a positive width and height overlaps itself fully, and
    two boxes that do not overlap in width have overlap ratio 0. *)
Theorem box_iou_self_and_apart (x1 y1 x2 y2 : Q) (t : bbox) :
  (x1 < x2)%Q -> (y1 < y2)%Q ->
  (box_iou (x1, y1, x2, y2) (x1, y1, x2, y2) == 1)%Q
  /\ ((x2 <= t.1.1.1)%Q -> box_iou (x1, y1, x2, y2) t = 0%Q).
Proof.
  intros Hx Hy. split.
  - unfold box_iou, py_max, py_min.
    assert (Ex : Qltb x1 x1 = false).
    { destruct (Qltb x1 x1) eqn:E; [|done]. apply Qltb_lt in E. lra. }
    assert (Ey : Qltb y1 y1 = false).
    { destruct (Qltb y1 y1) eqn:E; [|done]. apply Qltb_lt in E. lra. }
    assert (Ex2 : Qltb x2 x2 = false).
    { destruct (Qltb x2 x2) eqn:E; [|done]. apply Qltb_lt in E. lra. }
    assert (Ey2 : Qltb y2 y2 = false).
    { destruct (Qltb y2 y2) eqn:E; [|done]. apply Qltb_lt in E. lra. }
    rewrite Ex, Ey, Ex2, Ey2.
    rewrite (proj2 (Qltb_lt x1 x2) Hx), (proj2 (Qltb_lt y1 y2) Hy). simpl.
    assert (Ha : (0 < (x2 - x1) * (y2 - y1))%Q)
      by (apply Qmult_lt_0_compat; lra).
    set (a := ((x2 - x1) * (y2 - y1))%Q) in *.
    assert (Eu : Qltb 0 (a + a - a) = true) by (apply Qltb_lt; lra).
    rewrite Eu. field. lra.
  - destruct t as [[[tx1 ty1] tx2] ty2]. simpl. intros Hap.
    unfold box_iou.
    destruct (py_max_spec x1 tx1) as (_ & Hm & _).
    destruct (py_min_spec x2 tx2) as (Hn & _ & _).
    destruct (Qltb (py_max x1 tx1) (py_min x2 tx2)) eqn:E; [|done].
    apply Qltb_lt in E. lra.
Qed.

Lemma box_iou_self_and_apart_witness :
  (0 < 10)%Q /\ (0 < 20)%Q
  /\ (box_iou (0, 0, 10, 20)%Q (0, 0, 10, 20)%Q == 1)%Q.
Proof.
  assert (Hx : (0 < 10)%Q) by reflexivity.
  assert (Hy : (0 < 20)%Q) by reflexivity.
  split; [exact Hx|]. split; [exact Hy|].
  exact (proj1 (box_iou_self_and_apart 0 0 10 20 (0, 0, 0, 0)%Q Hx Hy)).
Defined.

(** ** Matching a detection with the tracked vehicles *)

Section MatchingFacts.
Variable center_distance : bbox -> bbox -> Q.

Lemma is_good_match_iou (d : bbox) (tv : tracked) :
  is_good_match center_distance d tv = true ->
  (1 # 10 < box_iou d (tv_bbox tv))%Q.
Proof.
  unfold is_good_match. intros [H|[_ H]%andb_true_iff]%orb_true_iff;
    apply Qltb_lt in H; lra.
Qed.

Lemma match_step_found (d : bbox) (seen : list tracked) (s : match_state)
    (tv : tracked) :
  match_found center_distance d seen s ->
  match_found center_distance d (seen ++ [tv])
    (match_step center_distance d s tv).
Proof.
  destruct s as [[bm bi] bd]. unfold match_step.
  destruct (is_good_match center_distance d tv) eqn:Eg.
  - pose proof (is_good_match_iou d tv Eg) as Hiou.
    destruct (Qltb bi (box_iou d (tv_bbox tv))
              || Qeq_bool (box_iou d (tv_bbox tv)) bi && closer _ bd)%bool
      eqn:Ea.
    + intros Hf. simpl.
      split; [apply elem_of_app; right; by left|].
      split; [done|]. split; [done|]. split; [done|].
      intros tv' [Hin|Hin]%elem_of_app Hg.
      * destruct bm as [tv0|].
        -- destruct Hf as (_ & _ & Hbi & Hbd & Hmax).
           destruct (Hmax tv' Hin Hg) as [Hle Htie].
           apply orb_true_iff in Ea as [H|[H Hcl]%andb_true_iff].
           ++ apply Qltb_lt in H. split; [lra|]. intros Heq. lra.
           ++ apply Qeq_bool_iff in H. split; [lra|]. intros Heq.
              rewrite Hbd in Hcl. simpl in Hcl. apply Qltb_lt in Hcl.
              assert (Heq' : (box_iou d (tv_bbox tv') == bi)%Q) by lra.
              specialize (Htie Heq'). lra.
        -- destruct Hf as [_ Hno]. rewrite Hno in Hg by done. discriminate.
      * apply list_elem_of_singleton in Hin as ->.
        split; [apply Qle_refl|]. intros _. apply Qle_refl.
    + apply orb_false_iff in Ea as [Ea Eb].
      assert (Hle : (box_iou d (tv_bbox tv) <= bi)%Q).
      { apply Qnot_lt_le. intros H. apply Qltb_lt in H. congruence. }
      destruct bm as [tv0|]; simpl.
      * intros (Hin & Hg0 & Hbi & Hbd & Hmax).
        split; [apply elem_of_app; by left|]. split; [done|]. split; [done|].
        split; [done|].
        intros tv' [Hin'|Hin']%elem_of_app Hg; [by apply Hmax|].
        apply list_elem_of_singleton in Hin' as ->.
        split; [done|]. intros Heq.
        apply Qeq_bool_iff in Heq. rewrite Heq in Eb. simpl in Eb.
        rewrite Hbd in Eb. simpl in Eb.
        apply Qnot_lt_le. intros H. apply Qltb_lt in H. congruence.
      * intros [H0 _]. lra.
  - destruct bm as [tv0|]; simpl.
    + intros (Hin & Hg0 & Hbi & Hbd & Hmax).
      split; [apply elem_of_app; by left|]. split; [done|]. split; [done|].
      split; [done|].
      intros tv' [Hin'|Hin']%elem_of_app Hg; [by apply Hmax|].
      apply list_elem_of_singleton in Hin' as ->. congruence.
    + intros [H0 Hno]. split; [done|].
      intros tv' [Hin'|Hin']%elem_of_app; [by apply Hno|].
      by apply list_elem_of_singleton in Hin' as ->.
Qed.

Lemma fold_match_found (d : bbox) (tvs : list tracked) : forall seen s,
  match_found center_distance d seen s ->
  match_found center_distance d (seen ++ tvs)
    (fold_left (match_step center_distance d) tvs s).
Proof.
  induction tvs as [|tv tvs IH]; intros seen s Hs.
  - by rewrite app_nil_r.
  - simpl. rewrite (cons_middle tv seen tvs), app_assoc.
    by apply IH, match_step_found.
Qed.

(** X14. The track matched with a detection is one of the frame's
    tracked vehicles that is an acceptable match (so its box overlaps
    the detection's by more than a tenth); none of the acceptable
    candidates overlaps the detection more, and none of those that
    overlap it as much is nearer to it.  No track is matched exactly
    when no candidate is acceptable.  This holds whatever the distance
    between centres is. *)
Theorem best_match_spec (d : bbox) (tvs : list tracked) :
  match fst (fst (best_match center_distance d tvs)) with
  | Some tv =>
      tv ∈ tvs
      /\ is_good_match center_distance d tv = true
      /\ (1 # 10 < box_iou d (tv_bbox tv))%Q
      /\ forall tv', tv' ∈ tvs ->
           is_good_match center_distance d tv' = true ->
           (box_iou d (tv_bbox tv') <= box_iou d (tv_bbox tv))%Q
           /\ ((box_iou d (tv_bbox tv') == box_iou d (tv_bbox tv))%Q ->
               (center_distance d (tv_bbox tv)
                <= center_distance d (tv_bbox tv'))%Q)
  | None =>
      forall tv', tv' ∈ tvs -> is_good_match center_distance d tv' = false
  end.
Proof.
  pose proof (fold_match_found d tvs [] (None, 0%Q, None)) as H.
  fold (best_match center_distance d tvs) in H. simpl in H.
  specialize (H ltac:(split; [reflexivity|by intros ? ?%elem_of_nil])).
  destruct (best_match center_distance d tvs) as [[[tv|] bi] bd]; simpl in *.
  - destruct H as (Hin & Hg & -> & _ & Hmax).
    split; [done|]. split; [done|].
    split; [by apply is_good_match_iou|done].
  - by destruct H.
Qed.

End MatchingFacts.

(** ** Reading the source *)

Lemma longest_error_run_ge (reads : list read_result) : forall n,
  (n <= longest_error_run n reads)%nat.
Proof.
  induction reads as [|[f|] reads IH]; intros n; simpl; [lia| lia |].
  specialize (IH (S n)). lia.
Qed.

Lemma read_loop_error (cfg : config) (c : controller) (n : nat)
    (rest : list read_result) :
  read_loop cfg c n (ReadError :: rest)
  = if (max_consecutive_errors <=? S n)%nat then (c, true)
    else read_loop cfg c (S n) rest.
Proof. reflexivity. Qed.

Lemma read_loop_frame (cfg : config) (c : controller) (n : nat)
    (f : frame_input) (rest : list read_result) :
  read_loop cfg c n (ReadFrame f :: rest)
  = read_loop cfg (fst (process_frame cfg c f)) 0 rest.
Proof. reflexivity. Qed.

Lemma read_loop_no_stop (cfg : config) (reads : list read_result) : forall c n,
  (longest_error_run n reads < max_consecutive_errors)%nat ->
  read_loop cfg c n reads = (run cfg c (frames_read reads), false).
Proof.
  induction reads as [|[f|] reads IH]; intros c n Hn; [done| |].
  - rewrite read_loop_frame. cbn [longest_error_run] in Hn.
    rewrite IH by lia. done.
  - rewrite read_loop_error. cbn [longest_error_run] in Hn.
    pose proof (longest_error_run_ge reads (S n)).
    destruct (Nat.leb_spec max_consecutive_errors (S n)); [lia|].
    by rewrite IH.
Qed.

Lemma read_loop_errors (cfg : config) (c : controller)
    (post : list read_result) : forall k n,
  (n < max_consecutive_errors)%nat ->
  (max_consecutive_errors <= n + k)%nat ->
  read_loop cfg c n (replicate k ReadError ++ post) = (c, true).
Proof.
  induction k as [|k IH]; intros n Hn Hk; [lia|].
  cbn [replicate app]. rewrite read_loop_error.
  destruct (Nat.leb_spec max_consecutive_errors (S n)); [done|].
  apply IH; lia.
Qed.

Lemma read_loop_stop (cfg : config) (pre post : list read_result) : forall c n,
  (longest_error_run n pre < max_consecutive_errors)%nat ->
  read_loop cfg c n (pre ++ replicate max_consecutive_errors ReadError ++ post)
  = (run cfg c (frames_read pre), true).
Proof.
  induction pre as [|[f|] pre IH]; intros c n Hn; cbn [longest_error_run] in Hn.
  - apply read_loop_errors; [done|lia].
  - cbn [app]. rewrite read_loop_frame. rewrite IH by lia. done.
  - pose proof (longest_error_run_ge pre (S n)).
    cbn [app]. rewrite read_loop_error.
    destruct (Nat.leb_spec max_consecutive_errors (S n)); [lia|].
    by apply IH.
Qed.

(** X15. The reading loop stops on the tenth consecutive read error and not
    before: as long as no ten errors in a row occur, every frame read
    is processed, in order, errors in between being skipped; at ten
    errors in a row the loop stops, having processed the frames read
    before them, and reads nothing further. *)
Theorem read_loop_ten_errors (cfg : config) (c : controller) :
  (forall reads,
     (longest_error_run 0 reads < 10)%nat ->
     read_loop cfg c 0 reads = (run cfg c (frames_read reads), false))
  /\ (forall pre post,
        (longest_error_run 0 pre < 10)%nat ->
        read_loop cfg c 0 (pre ++ replicate 10 ReadError ++ post)
        = (run cfg c (frames_read pre), true)).
Proof.
  split.
  - intros reads H. by apply read_loop_no_stop.
  - intros pre post H. by apply (read_loop_stop cfg pre post c 0%nat).
Qed.

Lemma read_loop_ten_errors_witness :
  (longest_error_run 0
     [ReadFrame (car_frame true (140#1) 100); ReadError; ReadError;
      ReadFrame (car_frame true (140#1) 110)] < 10)%nat
  /\ read_loop default_config initial_controller 0
       [ReadFrame (car_frame true (140#1) 100); ReadError; ReadError;
        ReadFrame (car_frame true (140#1) 110)]
     = (run default_config initial_controller
          [car_frame true (140#1) 100; car_frame true (140#1) 110], false).
Proof.
  assert (H : (longest_error_run 0
                 [ReadFrame (car_frame true (140#1) 100); ReadError; ReadError;
                  ReadFrame (car_frame true (140#1) 110)] < 10)%nat)
    by (simpl; lia).
  split; [exact H|].
  exact (proj1 (read_loop_ten_errors default_config initial_controller) _ H).
Defined.

(** ** Opening the source *)

Lemma try_open_from_spec (outcome : nat -> open_outcome) (retries : nat) :
  (1 <= retries)%nat ->
  forall n attempt sleeps,
    (1 <= attempt)%nat ->
    (attempt + n = retries + 1)%nat ->
    sleeps = Nat.min (attempt - 1) (retries - 1) ->
    match try_open_from outcome retries attempt n sleeps with
    | (Some a, s) =>
        (attempt <= a <= retries)%nat
        /\ outcome a = Opened
        /\ (forall b, (attempt <= b < a)%nat -> outcome b <> Opened)
        /\ s = (a - 1)%nat
    | (None, s) =>
        (forall b, (attempt <= b <= retries)%nat -> outcome b <> Opened)
        /\ s = (retries - 1)%nat
    end.
Proof.
  intros Hr.
  induction n as [|n IH]; intros attempt sleeps Ha Hn Hs; simpl.
  - split; [intros b Hb; lia|lia].
  - destruct (is_opened (outcome attempt)) eqn:Eo.
    { split; [lia|]. split; [by destruct (outcome attempt)|].
      split; [intros b Hb; lia|lia]. }
    assert (Hfail : outcome attempt <> Opened).
    { intros E. by rewrite E in Eo. }
    specialize (IH (S attempt)
                  (if (attempt <? retries)%nat then S sleeps else sleeps)
                  ltac:(lia) ltac:(lia)).
    assert (Hs' : (if (attempt <? retries)%nat then S sleeps else sleeps)
                  = Nat.min (S attempt - 1) (retries - 1)).
    { destruct (Nat.ltb_spec attempt retries); lia. }
    specialize (IH Hs').
    destruct (try_open_from _ _ _ _ _) as [[a|] s].
    + destruct IH as (Hra & Ho & Hb & Hsa).
      split; [lia|]. split; [done|]. split; [|done].
      intros b Hb'. destruct (decide (b = attempt)) as [->|]; [done|].
      apply Hb. lia.
    + destruct IH as [Hb Hsa]. split; [|done].
      intros b Hb'. destruct (decide (b = attempt)) as [->|]; [done|].
      apply Hb. lia.
Qed.

(** X16. Opening the source tries at most [retries] times and returns the
    capture of the first attempt that opens and reads a test frame,
    after one sleep per failed attempt before it; when every attempt
    fails it returns nothing, after [retries - 1] sleeps: it does not
    sleep after the last attempt. *)
Theorem try_open_source_spec (outcome : nat -> open_outcome) (retries : nat) :
  (1 <= retries)%nat ->
  match try_open_source outcome retries with
  | (Some a, sleeps) =>
      (1 <= a <= retries)%nat
      /\ outcome a = Opened
      /\ (forall b, (1 <= b < a)%nat -> outcome b <> Opened)
      /\ sleeps = (a - 1)%nat
  | (None, sleeps) =>
      (forall b, (1 <= b <= retries)%nat -> outcome b <> Opened)
      /\ sleeps = (retries - 1)%nat
  end.
Proof.
  intros Hr. unfold try_open_source.
  pose proof (try_open_from_spec outcome retries Hr retries 1%nat 0%nat
                ltac:(lia) ltac:(lia) ltac:(lia)) as H.
  by destruct (try_open_from outcome retries 1 retries 0) as [[a|] s].
Qed.

Lemma try_open_source_spec_witness :
  (1 <= 3)%nat
  /\ match try_open_source
            (fun a => if (a =? 3)%nat then Opened else NotOpened) 3 with
     | (Some a, sleeps) => a = 3%nat /\ sleeps = 2%nat
     | (None, _) => False
     end.
Proof.
  assert (Hr : (1 <= 3)%nat) by lia.
  split; [exact Hr|].
  pose proof (try_open_source_spec
                (fun a => if (a =? 3)%nat then Opened else NotOpened) 3 Hr)
    as H.
  destruct (try_open_source _ 3) as [[a|] s].
  - destruct H as (Ha & Ho & _ & Hs).
    assert (a = 3%nat) as ->.
    { destruct (Nat.eqb_spec a 3); [done|discriminate]. }
    split; [done|]. subst s. reflexivity.
  - destruct H as [Hb _]. apply (Hb 3%nat); [lia|reflexivity].
Defined.

(** ** Line location *)

Lemma Qhalf_sum (a b : Q) : ((a + b) / 2 * 2 == a + b)%Q.
Proof. field. Qed.

(** X17. A vehicle box is beyond the violation line exactly when it has a
    positive height and its bottom edge is below the line: the test of
    the centre adds nothing. *)
Theorem check_vehicle_violation_bottom (x1 y1 x2 y2 line : Q) :
  Crosswalk.check_vehicle_violation (x1, y1, x2, y2) line = true
  <-> (y1 < y2)%Q /\ (line < y2)%Q.
Proof.
  unfold Crosswalk.check_vehicle_violation.
  pose proof (Qhalf_sum y1 y2) as Hm.
  set (m := ((y1 + y2) / 2)%Q) in *.
  destruct (Qleb (y2 - y1) 0) eqn:Eh.
  - apply Qleb_le in Eh. split; [done|]. intros [? _]. lra.
  - assert (Hh : ~ (y2 - y1 <= 0)%Q)
      by (intros H; apply Qleb_le in H; congruence).
    rewrite orb_true_iff, !Qltb_lt. split.
    + intros [H|H]; split; lra.
    + intros [_ H]. by left.
Qed.

Lemma array_max_spec (l : list Z) : forall x,
  Crosswalk.array_max x l ∈ x :: l
  /\ forall y, y ∈ x :: l -> y <= Crosswalk.array_max x l.
Proof.
  unfold Crosswalk.array_max.
  induction l as [|a l IH]; intros x; simpl.
  - split; [by left|]. intros y ->%list_elem_of_singleton. lia.
  - destruct (IH (Z.max x a)) as [Hin Hmax]. split.
    + apply elem_of_cons in Hin as [->|Hin]; [|by right; right].
      destruct (Z.max_spec x a) as [[_ ->]|[_ ->]]; [right; left|left].
    + intros y Hy.
      assert (Hm : Z.max x a <= fold_left Z.max l (Z.max x a))
        by (apply Hmax; left).
      apply elem_of_cons in Hy as [->|Hy]; [lia|].
      apply elem_of_cons in Hy as [->|Hy]; [lia|].
      apply Hmax. by right.
Qed.

Lemma array_min_spec (l : list Z) : forall x,
  Crosswalk.array_min x l ∈ x :: l
  /\ forall y, y ∈ x :: l -> Crosswalk.array_min x l <= y.
Proof.
  unfold Crosswalk.array_min.
  induction l as [|a l IH]; intros x; simpl.
  - split; [by left|]. intros y ->%list_elem_of_singleton. lia.
  - destruct (IH (Z.min x a)) as [Hin Hmin]. split.
    + apply elem_of_cons in Hin as [->|Hin]; [|by right; right].
      destruct (Z.min_spec x a) as [[_ ->]|[_ ->]]; [left|right; left].
    + intros y Hy.
      assert (Hm : fold_left Z.min l (Z.min x a) <= Z.min x a)
        by (apply Hmin; left).
      apply elem_of_cons in Hy as [->|Hy]; [lia|].
      apply elem_of_cons in Hy as [->|Hy]; [lia|].
      apply Hmin. by right.
Qed.

Lemma Qtrunc_scale (n a : Z) (b : positive) :
  Qtrunc (inject_Z n * (a # b)) = Z.quot (n * a) (Zpos b).
Proof. reflexivity. Qed.

Lemma Qtrunc_scale_bounds (n a : Z) (b : positive) :
  0 <= n -> 0 <= a ->
  0 <= Qtrunc (inject_Z n * (a # b))
  /\ Zpos b * Qtrunc (inject_Z n * (a # b)) <= n * a
  /\ n * a < Zpos b * Qtrunc (inject_Z n * (a # b)) + Zpos b.
Proof.
  intros Hn Ha. rewrite Qtrunc_scale.
  rewrite Z.quot_div_nonneg by nia.
  pose proof (Z.div_mod (n * a) (Zpos b) ltac:(lia)) as Hd.
  pose proof (Z.mod_pos_bound (n * a) (Zpos b) ltac:(lia)) as Hm.
  assert (0 <= n * a / Zpos b) by (apply Z.div_pos; nia).
  lia.
Qed.

Lemma detect_bars (h w : Z) (rects : list Crosswalk.rect) :
  let bars := Crosswalk.crosswalk_bars h w rects in
  (length bars < 3)%nat
  /\ Crosswalk.detect_crosswalk_and_violation_line h w rects
     = (None, Qtrunc (inject_Z h * (65 # 100)))
  \/ exists x0 y0 cw0 ch0 rest,
       bars = (x0, y0, cw0, ch0) :: rest
       /\ (3 <= length bars)%nat
       /\ Crosswalk.detect_crosswalk_and_violation_line h w rects
          = (Some (0,
                   Crosswalk.array_min y0
                     (map (fun r : Crosswalk.rect =>
                             let '(x, y, cw, ch) := r in y) rest),
                   w,
                   Crosswalk.array_max (y0 + ch0)
                     (map (fun r : Crosswalk.rect =>
                             let '(x, y, cw, ch) := r in y + ch) rest)
                   - Crosswalk.array_min y0
                       (map (fun r : Crosswalk.rect =>
                               let '(x, y, cw, ch) := r in y) rest)),
             Z.min
               (Crosswalk.array_max (y0 + ch0)
                  (map (fun r : Crosswalk.rect =>
                          let '(x, y, cw, ch) := r in y + ch) rest) + 5)
               (h - 1)).
Proof.
  intros bars. unfold Crosswalk.detect_crosswalk_and_violation_line.
  fold bars. rewrite length_map.
  destruct (Nat.leb_spec 3 (length bars)) as [Hlen|Hlen]; [|by left].
  right. destruct bars as [|[[[x0 y0] cw0] ch0] rest] eqn:E;
    [simpl in Hlen; lia|].
  exists x0, y0, cw0, ch0, rest. done.
Qed.

(** X18. The violation line that the locator returns is a row of the frame:
    between 0 and [h - 1], with or without a crosswalk, for contours
    whose rectangles have non-negative coordinates and heights. *)
Theorem violation_line_in_frame (h w : Z) (rects : list Crosswalk.rect) :
  1 <= h ->
  (forall x y cw ch, (x, y, cw, ch) ∈ rects -> 0 <= y /\ 0 <= ch) ->
  0 <= snd (Crosswalk.detect_crosswalk_and_violation_line h w rects) <= h - 1.
Proof.
  intros Hh Hpos.
  destruct (detect_bars h w rects)
    as [[_ ->]|(x0 & y0 & cw0 & ch0 & rest & Ebars & _ & ->)]; cbn [snd].
  - destruct (Qtrunc_scale_bounds h 65 100 ltac:(lia) ltac:(lia)) as (H0 & H1 & _).
    lia.
  - destruct (array_max_spec
                (map (fun r : Crosswalk.rect =>
                        let '(x, y, cw, ch) := r in y + ch) rest) (y0 + ch0))
      as [_ Hmax].
    specialize (Hmax (y0 + ch0) ltac:(left)).
    assert (Hin : (x0, y0, cw0, ch0) ∈ rects).
    { assert (H : (x0, y0, cw0, ch0) ∈ Crosswalk.crosswalk_bars h w rects)
        by (rewrite Ebars; left).
      apply list_elem_of_In, List.filter_In in H as [H _].
      by apply list_elem_of_In. }
    destruct (Hpos _ _ _ _ Hin). lia.
Qed.

Lemma violation_line_in_frame_witness :
  1 <= 720
  /\ 0 <= snd (Crosswalk.detect_crosswalk_and_violation_line 720 1280
                 [(100, 500, 300, 20); (100, 540, 300, 20); (100, 580, 300, 20)])
     <= 720 - 1.
Proof.
  assert (Hh : 1 <= 720) by lia.
  split; [exact Hh|].
  apply (violation_line_in_frame 720 1280 _ Hh).
  intros x y cw ch Hin.
  repeat (apply elem_of_cons in Hin as [Hin|Hin];
          [injection Hin as -> -> -> ->; lia|]).
  by apply elem_of_nil in Hin.
Defined.

(** X19. A crosswalk is reported exactly when at least three bars are kept;
    its box then spans the frame's width, covers every bar from its top
    to its bottom, and the violation line is five rows below the box,
    or the last row of the frame if that is higher up. *)
Theorem crosswalk_box_covers_bars (h w : Z) (rects : list Crosswalk.rect) :
  match Crosswalk.detect_crosswalk_and_violation_line h w rects with
  | (Some (bx, by_, bw, bh), line) =>
      (3 <= length (Crosswalk.crosswalk_bars h w rects))%nat
      /\ bx = 0 /\ bw = w
      /\ (forall x y cw ch,
            (x, y, cw, ch) ∈ Crosswalk.crosswalk_bars h w rects ->
            by_ <= y /\ y + ch <= by_ + bh)
      /\ line = Z.min (by_ + bh + 5) (h - 1)
  | (None, line) =>
      (length (Crosswalk.crosswalk_bars h w rects) < 3)%nat
      /\ line = Qtrunc (inject_Z h * (65 # 100))
  end.
Proof.
  destruct (detect_bars h w rects)
    as [[Hlen ->]|(x0 & y0 & cw0 & ch0 & rest & Ebars & Hlen & ->)]; [done|].
  set (ys := map (fun r : Crosswalk.rect => let '(x, y, cw, ch) := r in y) rest).
  set (bs := map (fun r : Crosswalk.rect =>
                    let '(x, y, cw, ch) := r in y + ch) rest).
  destruct (array_max_spec bs (y0 + ch0)) as [_ Hmax].
  destruct (array_min_spec ys y0) as [_ Hmin].
  split; [done|]. split; [done|]. split; [done|]. split.
  - intros x y cw ch Hin. rewrite Ebars in Hin.
    assert (Hy : y ∈ y0 :: ys).
    { apply elem_of_cons in Hin as [Hin|Hin].
      - injection Hin as -> -> -> ->. by left.
      - right. apply list_elem_of_fmap. by exists (x, y, cw, ch). }
    assert (Hb : y + ch ∈ (y0 + ch0) :: bs).
    { apply elem_of_cons in Hin as [Hin|Hin].
      - injection Hin as -> -> -> ->. by left.
      - right. apply list_elem_of_fmap. by exists (x, y, cw, ch). }
    specialize (Hmax _ Hb). specialize (Hmin _ Hy). lia.
  - f_equal. lia.
Qed.

(** ** Sorting in decreasing order *)

Lemma elem_of_insert_desc {A} (key : A -> Z) (x : A) (l : list A) (z : A) :
  z ∈ Crosswalk.insert_desc key x l <-> z = x \/ z ∈ l.
Proof.
  induction l as [|a l IH]; simpl.
  - rewrite list_elem_of_singleton, elem_of_nil. tauto.
  - destruct (key x <? key a); rewrite !elem_of_cons; [rewrite IH|]; tauto.
Qed.

Lemma elem_of_sort_desc {A} (key : A -> Z) (l : list A) (z : A) :
  z ∈ Crosswalk.sort_desc key l <-> z ∈ l.
Proof.
  unfold Crosswalk.sort_desc. induction l as [|a l IH]; [done|]. simpl.
  rewrite elem_of_insert_desc, elem_of_cons, IH. tauto.
Qed.

Lemma insert_desc_head {A} (key : A -> Z) (x : A) (l : list A) :
  exists y rest,
    Crosswalk.insert_desc key x l = y :: rest
    /\ key x <= key y
    /\ forall z, head l = Some z -> key z <= key y.
Proof.
  destruct l as [|a l]; simpl.
  - exists x, []. split; [done|]. split; [lia|done].
  - destruct (Z.ltb_spec (key x) (key a)).
    + exists a, (Crosswalk.insert_desc key x l).
      split; [done|]. split; [lia|]. intros z [= <-]. lia.
    + exists x, (a :: l). split; [done|]. split; [lia|].
      intros z [= <-]. lia.
Qed.

(** The head of the sorted list has the greatest key. *)
Lemma sort_desc_head {A} (key : A -> Z) (l : list A) :
  match Crosswalk.sort_desc key l with
  | [] => l = []
  | x :: _ => x ∈ l /\ forall y, y ∈ l -> key y <= key x
  end.
Proof.
  induction l as [|a l IH]; [done|].
  pose proof (elem_of_sort_desc key (a :: l)) as Hmem.
  unfold Crosswalk.sort_desc in *. simpl in *.
  destruct (insert_desc_head key a (foldr (Crosswalk.insert_desc key) [] l))
    as (y & rest & E & Hay & Hhd).
  rewrite E in *.
  split; [apply Hmem; by left|].
  intros z Hz. apply elem_of_cons in Hz as [->|Hz]; [done|].
  destruct (foldr (Crosswalk.insert_desc key) [] l) as [|b s].
  - subst l. by apply elem_of_nil in Hz.
  - destruct IH as [_ Hmax]. specialize (Hmax z Hz).
    specialize (Hhd b eq_refl). lia.
Qed.

(** ** Stop line *)

(** X20. [detect_stop_line] returns the row of the lowest of the horizontal
    lines found (the one whose lower end is furthest down), counted
    from the top of the frame; it returns nothing exactly when there is
    no horizontal line. *)
Theorem detect_stop_line_lowest (height : Z)
    (lines : option (list Crosswalk.line_seg)) :
  match Crosswalk.detect_stop_line height lines with
  | Some r =>
      exists ls l,
        lines = Some ls /\ l ∈ ls /\ Crosswalk.is_horizontal l = true
        /\ r = Crosswalk.roi_start height (3 # 10) + Crosswalk.line_bottom l
        /\ forall l', l' ∈ ls -> Crosswalk.is_horizontal l' = true ->
             Crosswalk.line_bottom l' <= Crosswalk.line_bottom l
  | None =>
      forall ls l, lines = Some ls -> l ∈ ls ->
        Crosswalk.is_horizontal l = false
  end.
Proof.
  unfold Crosswalk.detect_stop_line.
  destruct lines as [ls|]; [|done].
  assert (H : match Crosswalk.sort_desc Crosswalk.line_bottom
                      (List.filter Crosswalk.is_horizontal ls) with
              | [] => forall l, l ∈ ls -> Crosswalk.is_horizontal l = false
              | l :: _ =>
                  l ∈ ls /\ Crosswalk.is_horizontal l = true
                  /\ forall l', l' ∈ ls -> Crosswalk.is_horizontal l' = true ->
                       Crosswalk.line_bottom l' <= Crosswalk.line_bottom l
              end).
  { pose proof (sort_desc_head Crosswalk.line_bottom
                  (List.filter Crosswalk.is_horizontal ls)) as Hs.
    destruct (Crosswalk.sort_desc _ _) as [|l rest].
    - intros l Hl. destruct (Crosswalk.is_horizontal l) eqn:E; [|done].
      assert (Hin : l ∈ List.filter Crosswalk.is_horizontal ls).
      { apply list_elem_of_In, List.filter_In. split; [|done].
        by apply list_elem_of_In. }
      rewrite Hs in Hin. by apply elem_of_nil in Hin.
    - destruct Hs as [Hin Hmax].
      apply list_elem_of_In, List.filter_In in Hin as [Hin Hh].
      split; [by apply list_elem_of_In|]. split; [done|].
      intros l' Hl' Hh'. apply Hmax.
      apply list_elem_of_In, List.filter_In. split; [|done].
      by apply list_elem_of_In. }
  destruct ls as [|l0 ls'].
  - intros ls l [= <-] Hl. by apply elem_of_nil in Hl.
  - destruct (Crosswalk.sort_desc _ _) as [|l rest].
    + intros ls l [= <-]. apply H.
    + destruct H as (Hin & Hh & Hmax).
      exists (l0 :: ls'), l. done.
Qed.

(** ** The line from the crosswalk, the stop line or the traffic light *)

Lemma stop_line_candidate_low (height width : Z) (rects : list Crosswalk.rect)
    (abs_y w : Z) :
  0 <= height ->
  (abs_y, w) ∈ Crosswalk.stop_line_candidates height width rects ->
  4 * height < 5 * abs_y.
Proof.
  intros Hh Hin. unfold Crosswalk.stop_line_candidates in Hin.
  apply list_elem_of_omap in Hin as ([[[x y] cw] ch] & _ & Hc).
  destruct (_ && _ && _ && _)%bool eqn:E in Hc; [|done].
  injection Hc as <- <-.
  apply andb_true_iff in E as [_ Hy]. apply Qltb_lt in Hy.
  destruct (Qtrunc_scale_bounds height 4 10 Hh ltac:(lia)) as (H0 & H1 & _).
  set (rh := Qtrunc (inject_Z height * (4 # 10))) in *.
  unfold Qlt, Qmult, inject_Z in Hy. simpl in Hy. lia.
Qed.

(** X21. Without a crosswalk box, when some contour qualifies as a stop
    line, [get_violation_line_y] returns the row of a qualifying
    contour of the greatest width, whatever the traffic-light box is;
    that row lies in the bottom fifth of the frame. *)
Theorem get_violation_line_y_stop_line (height width : Z)
    (rects : list Crosswalk.rect) (traffic_light_bbox crosswalk_bbox : option (list Q)) :
  0 <= height ->
  is_box crosswalk_bbox = false ->
  Crosswalk.stop_line_candidates height width rects <> [] ->
  (exists w,
     (Crosswalk.get_violation_line_y height width rects traffic_light_bbox
        crosswalk_bbox, w)
       ∈ Crosswalk.stop_line_candidates height width rects
     /\ forall y' w', (y', w') ∈ Crosswalk.stop_line_candidates height width rects ->
          w' <= w)
  /\ 4 * height
     < 5 * Crosswalk.get_violation_line_y height width rects traffic_light_bbox
           crosswalk_bbox.
Proof.
  intros Hh Hbox Hne.
  assert (Hr : exists w,
             (Crosswalk.get_violation_line_y height width rects
                traffic_light_bbox crosswalk_bbox, w)
               ∈ Crosswalk.stop_line_candidates height width rects
             /\ forall y' w',
                  (y', w') ∈ Crosswalk.stop_line_candidates height width rects ->
                  w' <= w).
  { unfold Crosswalk.get_violation_line_y.
    pose proof (sort_desc_head snd
                  (Crosswalk.stop_line_candidates height width rects)) as Hs.
    destruct (Crosswalk.sort_desc snd _) as [|[abs_y w] rest]; [done|].
    destruct Hs as [Hin Hmax].
    assert (E : match crosswalk_bbox with
                | Some [_; cy; _; _] => Qtrunc cy - 15
                | _ => abs_y
                end = abs_y).
    { destruct crosswalk_bbox as [[|? [|? [|? [|? [|? ?]]]]]|]; try done. }
    rewrite E. exists w. split; [done|].
    intros y' w' Hin'. apply (Hmax (y', w') Hin'). }
  split; [exact Hr|].
  destruct Hr as (w & Hin & _).
  by apply (stop_line_candidate_low height width rects _ w).
Qed.

Lemma get_violation_line_y_stop_line_witness :
  0 <= 1000
  /\ is_box None = false
  /\ Crosswalk.stop_line_candidates 1000 1000
       [(0, 300, 400, 10); (0, 350, 600, 10)] <> []
  /\ 4 * 1000
     < 5 * Crosswalk.get_violation_line_y 1000 1000
           [(0, 300, 400, 10); (0, 350, 600, 10)] None None.
Proof.
  assert (Hh : 0 <= 1000) by lia.
  assert (Hne : Crosswalk.stop_line_candidates 1000 1000
                  [(0, 300, 400, 10); (0, 350, 600, 10)] <> []).
  { vm_compute. discriminate. }
  split; [exact Hh|]. split; [reflexivity|]. split; [exact Hne|].
  exact (proj2 (get_violation_line_y_stop_line 1000 1000 _ None None
                  Hh eq_refl Hne)).
Defined.

(** Truncation towards zero is monotone. *)
Lemma div_le_cross (na nb : Z) (da db : positive) :
  0 <= na -> na * Zpos db <= nb * Zpos da ->
  na / Zpos da <= nb / Zpos db.
Proof.
  intros Ha Hab.
  apply Z.div_le_lower_bound; [lia|].
  pose proof (Z.mul_div_le na (Zpos da) ltac:(lia)) as Hq.
  assert (0 <= na / Zpos da) by (apply Z.div_pos; lia).
  nia.
Qed.

Lemma Qtrunc_le (a b : Q) : (a <= b)%Q -> Qtrunc a <= Qtrunc b.
Proof.
  destruct a as [na da], b as [nb db]. unfold Qle, Qtrunc. simpl.
  intros Hab.
  destruct (Z.le_gt_cases 0 na) as [Ha|Ha].
  - assert (0 <= nb) by nia.
    rewrite !Z.quot_div_nonneg by lia. by apply div_le_cross.
  - assert (Hna : na ÷ Zpos da = - (- na / Zpos da)).
    { rewrite <- (Z.opp_involutive na) at 1.
      rewrite Z.quot_opp_l by lia. rewrite Z.quot_div_nonneg by lia. done. }
    destruct (Z.le_gt_cases 0 nb) as [Hb|Hb].
    + rewrite Hna. assert (0 <= - na / Zpos da) by (apply Z.div_pos; lia).
      assert (0 <= nb ÷ Zpos db) by (apply Z.quot_pos; lia). lia.
    + assert (Hnb : nb ÷ Zpos db = - (- nb / Zpos db)).
      { rewrite <- (Z.opp_involutive nb) at 1.
        rewrite Z.quot_opp_l by lia. rewrite Z.quot_div_nonneg by lia. done. }
      rewrite Hna, Hnb.
      assert (- nb / Zpos db <= - na / Zpos da)
        by (apply div_le_cross; lia).
      lia.
Qed.

(** X22. Without a crosswalk box and without a stop line, the row that
    [get_violation_line_y] estimates from the box of the traffic light
    is not above the bottom edge of the light, unless the cap of 20 rows
    above the bottom of the frame applies; it is never below that cap,
    never more than five heights of the light below its bottom edge, and
    never more than three tenths of the frame's height below it. *)
Theorem get_violation_line_y_below_light (height width : Z)
    (rects : list Crosswalk.rect) (tx1 ty1 tx2 ty2 : Q)
    (crosswalk_bbox : option (list Q)) :
  0 <= height ->
  (ty1 <= ty2)%Q ->
  is_box crosswalk_bbox = false ->
  Crosswalk.stop_line_candidates height width rects = [] ->
  Z.min (Qtrunc ty2) (height - 20)
  <= Crosswalk.get_violation_line_y height width rects
       (Some [tx1; ty1; tx2; ty2]) crosswalk_bbox
  <= height - 20
  /\ Crosswalk.get_violation_line_y height width rects
       (Some [tx1; ty1; tx2; ty2]) crosswalk_bbox
     <= Qtrunc (ty2 + 5 * (ty2 - ty1))
  /\ Crosswalk.get_violation_line_y height width rects
       (Some [tx1; ty1; tx2; ty2]) crosswalk_bbox
     <= Qtrunc (ty2 + inject_Z height * (3 # 10)).
Proof.
  intros Hh Hty Hbox Hnil. unfold Crosswalk.get_violation_line_y.
  rewrite Hnil. cbn [Crosswalk.sort_desc foldr].
  assert (E : forall v : Z,
             match crosswalk_bbox with
             | Some [_; cy; _; _] => Qtrunc cy - 15
             | _ => v
             end = v).
  { intros v. destruct crosswalk_bbox as [[|? [|? [|? [|? [|? ?]]]]]|];
      try done. }
  rewrite E.
  destruct (py_min_spec (5 * (ty2 - ty1)) (inject_Z height * (3 # 10)))
    as (H5 & H3 & Hor).
  set (est := py_min (5 * (ty2 - ty1)) (inject_Z height * (3 # 10))) in *.
  assert (Hest : (0 <= est)%Q).
  { assert ((0 <= inject_Z height * (3 # 10))%Q).
    { apply Qmult_le_0_compat; [|done].
      change 0%Q with (inject_Z 0). by rewrite <- Zle_Qle. }
    destruct Hor as [->| ->]; [lra|done]. }
  assert (Hlow : Qtrunc ty2 <= Qtrunc (ty2 + est)) by (apply Qtrunc_le; lra).
  assert (Hup5 : Qtrunc (ty2 + est) <= Qtrunc (ty2 + 5 * (ty2 - ty1)))
    by (apply Qtrunc_le; lra).
  assert (Hup3 : Qtrunc (ty2 + est)
                 <= Qtrunc (ty2 + inject_Z height * (3 # 10)))
    by (apply Qtrunc_le; lra).
  lia.
Qed.

Lemma get_violation_line_y_below_light_witness :
  0 <= 1000
  /\ (10#1 <= 60#1)%Q
  /\ is_box None = false
  /\ Crosswalk.stop_line_candidates 1000 1000 [] = []
  /\ Z.min (Qtrunc (60#1)) (1000 - 20)
     <= Crosswalk.get_violation_line_y 1000 1000 []
          (Some [10#1; 10#1; 30#1; 60#1]%Q) None
     <= 1000 - 20.
Proof.
  assert (Hh : 0 <= 1000) by lia.
  assert (Hty : (10#1 <= 60#1)%Q) by (unfold Qle; simpl; lia).
  split; [exact Hh|]. split; [exact Hty|]. split; [reflexivity|].
  split; [reflexivity|].
  exact (proj1 (get_violation_line_y_below_light 1000 1000 []
                  (10#1) (10#1) (30#1) (60#1) None Hh Hty eq_refl eq_refl)).
Defined.
